(** * Bar-robot: measurement parsing, quantity scaling, slot resolution and
      the turret/actuator controller.

    A shallow embedding of [app.py] and [hardware.py].

    Numbers.  A Python [float] has two representations here.  In the parser,
    the availability test, the dispensing loop and the worked examples it is
    the rational it denotes, kept in lowest terms ([Qred]) after every
    operation, so that two results are equal exactly when they denote the
    same number; arithmetic is exact there.  The measure parser, the
    processing loop and the two scaling functions are given a second time on
    IEEE binary64 numbers (module [F64], on the primitive floats of the
    Standard Library), where every operation rounds to nearest, overflows to
    an infinity and propagates nan as in the program; the general statements
    about parsed and scaled quantities are made on that representation.  Division raises [ZeroDivisionError] on a zero
    divisor, as in Python.

    Text.  A Python [str] is a [string] of ASCII characters. *)

From Stdlib Require Import ZArith QArith Qround Qabs Qpower Lqa Lia.
From Stdlib Require Floats.
From Stdlib Require Import List String Ascii Bool.
From stdpp Require Import gmap strings.
Import ListNotations.

Local Open Scope Q_scope.

(** ** Exceptions *)

Inductive py_exn : Set :=
| ZeroDivisionError
| ValueError
| OverflowError.

Inductive res (A : Type) : Type :=
| Ok (a : A)
| Raise (e : py_exn).

Arguments Ok {A} a.
Arguments Raise {A} e.

#[global] Instance res_ret : MRet res := fun A a => Ok a.

#[global] Instance res_bind : MBind res := fun A B k m =>
  match m with
  | Ok a => k a
  | Raise e => Raise e
  end.

(** ** Python float operations *)

Module PyFloat.

Definition ltb (a b : Q) : bool := negb (Qle_bool b a).
Definition gtb (a b : Q) : bool := ltb b a.

Definition add (a b : Q) : Q := Qred (a + b).
Definition mul (a b : Q) : Q := Qred (a * b).

(** [a / b] *)
Definition div (a b : Q) : res Q :=
  if Qeq_bool b 0 then Raise ZeroDivisionError else Ok (Qred (a / b)).

(** [math.floor(x)] *)
Definition floor (x : Q) : Z := Qfloor x.

(** [int * float] *)
Definition of_int (z : Z) : Q := inject_Z z.

(** [round(x)]: the nearest integer, an exact half going to the even
    neighbour. *)
Definition round (x : Q) : Z :=
  let f := Qfloor x in
  match Qcompare (x - inject_Z f) (1 # 2) with
  | Lt => f
  | Gt => (f + 1)%Z
  | Eq => if Z.even f then f else (f + 1)%Z
  end.

(** [round(x, 2)]: the nearest multiple of 1/100, an exact half going to
    the even neighbour. *)
Definition round2 (x : Q) : Q :=
  Qred (inject_Z (round (x * 100)) / 100).

(** [min(l)] for a non-empty [l], given as head and tail: the first of
    the least elements. *)
Fixpoint min_from (m : Q) (l : list Q) : Q :=
  match l with
  | [] => m
  | x :: l' => min_from (if ltb x m then x else m) l'
  end.

(** [max(l)] for a non-empty [l]: the first of the greatest elements. *)
Fixpoint max_from (m : Q) (l : list Q) : Q :=
  match l with
  | [] => m
  | x :: l' => max_from (if gtb x m then x else m) l'
  end.

End PyFloat.

(** ** Recipes *)

(** An ingredient dict [{"item": ..., "qty_oz": ..., "raw": ...}]. *)
Record ingredient : Type := Ingredient {
  item : string;
  qty_oz : Q;
  raw : string
}.

Definition set_qty (d : ingredient) (q : Q) : ingredient :=
  {| item := item d; qty_oz := q; raw := raw d |}.

(** ** Quantity scaling ([app.py]) *)

(** [_scale]: the dicts of [lst] are distinct objects, so the in-place
    update of each is a [map]. *)
Definition _scale (lst : list ingredient) : res (list ingredient) :=
  let liquids :=
    List.map qty_oz (List.filter (fun d => PyFloat.gtb (qty_oz d) 0) lst) in
  match liquids with
  | [] => Ok lst
  | q :: qs =>
      factor ← PyFloat.div (3 # 2) (PyFloat.min_from q qs);
      Ok (List.map
            (fun d =>
               if PyFloat.gtb (qty_oz d) 0
               then set_qty d (PyFloat.round2 (PyFloat.mul (qty_oz d) factor))
               else d)
            lst)
  end.

(** [_nearest_multiple] *)
Definition _nearest_multiple (value step : Q) : res Q :=
  q ← PyFloat.div value step;
  Ok (PyFloat.mul (PyFloat.of_int (PyFloat.floor (PyFloat.add q (1 # 2)))) step).

(** ** Bottle configuration *)

(** The dict returned by [load_config]: [slots] holds [None] or a name per
    turret position, [substitutions] maps a name to its replacement, [pins]
    is the saved pin map. *)
Record config : Type := Config {
  shot_size : Q;
  slots : list (option string);
  pantry : list string;
  substitutions : gmap string string;
  safe_mode : bool;
  pins : list (string * Z)
}.

(** [x in cfg["slots"]] for a string [x]: [None] entries never compare
    equal to it. *)
Definition in_slots (x : string) (sl : list (option string)) : bool :=
  existsb (fun s => match s with
                    | Some y => String.eqb x y
                    | None => false
                    end) sl.

(** [x in cfg["pantry"]] *)
Definition in_pantry (x : string) (p : list string) : bool :=
  existsb (String.eqb x) p.

(** [cfg["slots"].index(x)]: the first position holding [x].  Every call
    is guarded by [x in cfg["slots"]]; the length of the list stands for the
    unreachable [ValueError]. *)
Fixpoint slots_index (x : string) (sl : list (option string)) : nat :=
  match sl with
  | [] => O
  | Some y :: sl' => if String.eqb x y then O else S (slots_index x sl')
  | None :: sl' => S (slots_index x sl')
  end.

(** A recipe dict. *)
Record recipe : Type := Recipe {
  id : string;
  name : string;
  instructions : string;
  ingredients : list ingredient
}.

(** A loop body that may raise, run over a list in order. *)
Fixpoint for_each {A B : Type} (f : A -> res B) (l : list A) : res (list B) :=
  match l with
  | [] => Ok []
  | a :: l' =>
      b ← f a;
      bs ← for_each f l';
      Ok (b :: bs)
  end.

(** [scale_for_slots] *)
Definition scale_for_slots (r : recipe) (cfg : config) : res (list ingredient) :=
  let shot := shot_size cfg in
  let items := ingredients r in
  let slot_liq :=
    List.filter (fun d => in_slots (item d) (slots cfg)
                          && PyFloat.gtb (qty_oz d) 0) items in
  match slot_liq with
  | [] => Ok items
  | d0 :: ds =>
      let anchor_qty := PyFloat.max_from (qty_oz d0) (List.map qty_oz ds) in
      target0 ← _nearest_multiple anchor_qty shot;
      let target := if Qeq_bool target0 0 then shot else target0 in
      base_factor ← PyFloat.div target anchor_qty;
      for_each
        (fun d =>
           if PyFloat.gtb (qty_oz d) 0
           then
             let q := PyFloat.mul (qty_oz d) base_factor in
             q' ← (if in_slots (item d) (slots cfg)
                   then _nearest_multiple q shot
                   else Ok q);
             Ok (set_qty d (PyFloat.round2 q'))
           else Ok d)
        items
  end.

(** ** Availability ([app.py]) *)

Definition lower_ascii (c : ascii) : ascii :=
  let n := nat_of_ascii c in
  if ((65 <=? n) && (n <=? 90))%nat then ascii_of_nat (n + 32) else c.

(** [s.lower()] *)
Fixpoint lower (s : string) : string :=
  match s with
  | EmptyString => EmptyString
  | String c s' => String (lower_ascii c) (lower s')
  end.

(** Truth value of a string: the empty string is false. *)
Definition truthy (s : string) : bool :=
  match s with
  | EmptyString => false
  | String _ _ => true
  end.

(** [_avail] *)
Definition _avail (it : string) (cfg : config) : bool :=
  let it := lower it in
  if in_slots it (slots cfg) || in_pantry it (pantry cfg) then true
  else
    match substitutions cfg !! it with
    | None => false
    | Some sub =>
        truthy sub && (in_slots sub (slots cfg) || in_pantry sub (pantry cfg))
    end.

(** [_slot_for] *)
Definition _slot_for (it : string) (cfg : config) : option Z :=
  let it := lower it in
  if in_slots it (slots cfg) then Some (Z.of_nat (slots_index it (slots cfg)))
  else
    match substitutions cfg !! it with
    | None => None
    | Some sub =>
        if truthy sub && in_slots sub (slots cfg)
        then Some (Z.of_nat (slots_index sub (slots cfg)))
        else None
    end.

(** ** Turret and actuator ([hardware.py]) *)

Module Hardware.

Definition TOTAL_SLOTS : Z := 12.
Definition STEPS_PER_REV : Z := 200.
Definition MICROSTEP : Z := 8.
(** [int((STEPS_PER_REV * MICROSTEP) / TOTAL_SLOTS)] *)
Definition STEPS_PER_SLOT : Z := (STEPS_PER_REV * MICROSTEP) / TOTAL_SLOTS.
Definition STEP_DELAY_SEC : Q := 8 # 10000.
Definition PUSH_DURATION_MS : Q := 600.

Definition HIGH : bool := true.
Definition LOW : bool := false.

(** The dict [_pin_map].  Its four initial keys are never removed, so
    they are fields; keys added later follow in insertion order. *)
Record pin_map : Type := PinMap {
  DIR : Z;
  STEP : Z;
  ENABLE : Z;
  ACTUATOR : Z;
  extra : list (string * Z)
}.

(** [list(_pin_map.values())] *)
Definition pin_values (m : pin_map) : list Z :=
  DIR m :: STEP m :: ENABLE m :: ACTUATOR m :: List.map snd (extra m).

Fixpoint extra_set (k : string) (v : Z) (l : list (string * Z))
  : list (string * Z) :=
  match l with
  | [] => [(k, v)]
  | (k', v') :: l' =>
      if String.eqb k k' then (k, v) :: l' else (k', v') :: extra_set k v l'
  end.

(** [_pin_map[k] = v] *)
Definition pin_set (k : string) (v : Z) (m : pin_map) : pin_map :=
  if String.eqb k "DIR" then
    {| DIR := v; STEP := STEP m; ENABLE := ENABLE m;
       ACTUATOR := ACTUATOR m; extra := extra m |}
  else if String.eqb k "STEP" then
    {| DIR := DIR m; STEP := v; ENABLE := ENABLE m;
       ACTUATOR := ACTUATOR m; extra := extra m |}
  else if String.eqb k "ENABLE" then
    {| DIR := DIR m; STEP := STEP m; ENABLE := v;
       ACTUATOR := ACTUATOR m; extra := extra m |}
  else if String.eqb k "ACTUATOR" then
    {| DIR := DIR m; STEP := STEP m; ENABLE := ENABLE m;
       ACTUATOR := v; extra := extra m |}
  else
    {| DIR := DIR m; STEP := STEP m; ENABLE := ENABLE m;
       ACTUATOR := ACTUATOR m; extra := extra_set k v (extra m) |}.

Definition upper_ascii (c : ascii) : ascii :=
  let n := nat_of_ascii c in
  if ((97 <=? n) && (n <=? 122))%nat then ascii_of_nat (n - 32) else c.

(** [k.upper()] *)
Fixpoint upper (s : string) : string :=
  match s with
  | EmptyString => EmptyString
  | String c s' => String (upper_ascii c) (upper s')
  end.

(** [_pin_map.update({k.upper(): int(v) for k, v in new_map.items() if k})] *)
Fixpoint pin_update (new_map : list (string * Z)) (m : pin_map) : pin_map :=
  match new_map with
  | [] => m
  | (k, v) :: rest =>
      pin_update rest (if truthy k then pin_set (upper k) v m else m)
  end.

(** Calls into the [GPIO] backend. *)
Inductive gpio_call : Type :=
| Gpio_setmode
| Gpio_setup (channels : list Z)
| Gpio_output (pin : Z) (lvl : bool)
| Gpio_cleanup.

(** Lines written by [print]. *)
Inductive message : Type :=
| Pin_map_updated (m : pin_map)
| Safe_mode_set (enabled : bool)
| Would_rotate (src dst : Z)
| Rotated (slot : Z)
| Would_press (repetitions : Z)
| Actuator_press (i repetitions : Z).

(** What the module does to the outside, in order. *)
Inductive effect : Type :=
| Gpio (c : gpio_call)
| Sleep (seconds : Q)
| Print (msg : message).

(** The module's globals and the effects performed so far. *)
Record state : Type := State {
  _pin_map : pin_map;
  SAFE_MODE : bool;
  _current_slot : Z;
  _gpio_ready : bool;
  trace : list effect
}.

Definition initial : state :=
  {| _pin_map := {| DIR := 20; STEP := 21; ENABLE := 16; ACTUATOR := 26;
                    extra := [] |};
     SAFE_MODE := true;
     _current_slot := 0;
     _gpio_ready := false;
     trace := [] |}.

Definition emit (es : list effect) (st : state) : state :=
  {| _pin_map := _pin_map st; SAFE_MODE := SAFE_MODE st;
     _current_slot := _current_slot st; _gpio_ready := _gpio_ready st;
     trace := trace st ++ es |}.

Definition set_ready (b : bool) (st : state) : state :=
  {| _pin_map := _pin_map st; SAFE_MODE := SAFE_MODE st;
     _current_slot := _current_slot st; _gpio_ready := b;
     trace := trace st |}.

Definition set_slot (s : Z) (st : state) : state :=
  {| _pin_map := _pin_map st; SAFE_MODE := SAFE_MODE st;
     _current_slot := s; _gpio_ready := _gpio_ready st;
     trace := trace st |}.

(** [set_pin_map] *)
Definition set_pin_map (new_map : list (string * Z)) (st : state) : state :=
  let st :=
    if _gpio_ready st then set_ready false (emit [Gpio Gpio_cleanup] st)
    else st in
  let m := pin_update new_map (_pin_map st) in
  emit [Print (Pin_map_updated m)]
    {| _pin_map := m; SAFE_MODE := SAFE_MODE st;
       _current_slot := _current_slot st; _gpio_ready := _gpio_ready st;
       trace := trace st |}.

(** [_ensure_gpio] *)
Definition _ensure_gpio (st : state) : state :=
  if _gpio_ready st || SAFE_MODE st then st
  else
    set_ready true
      (emit [Gpio Gpio_setmode;
             Gpio (Gpio_setup (pin_values (_pin_map st)));
             Gpio (Gpio_output (ENABLE (_pin_map st)) LOW)] st).

(** [cleanup] *)
Definition cleanup (st : state) : state :=
  if _gpio_ready st
  then emit [Gpio (Gpio_output (ENABLE (_pin_map st)) HIGH);
             Gpio Gpio_cleanup] st
  else st.

(** [set_safe_mode] *)
Definition set_safe_mode (enabled : bool) (st : state) : state :=
  emit [Print (Safe_mode_set enabled)]
    {| _pin_map := _pin_map st; SAFE_MODE := enabled;
       _current_slot := _current_slot st; _gpio_ready := _gpio_ready st;
       trace := trace st |}.

(** One pass of the stepping loop. *)
Definition step_pulse (pin : Z) : list effect :=
  [Gpio (Gpio_output pin HIGH); Sleep STEP_DELAY_SEC;
   Gpio (Gpio_output pin LOW); Sleep STEP_DELAY_SEC].

(** [for _ in range(steps)] *)
Fixpoint pulses (pin : Z) (steps : nat) : list effect :=
  match steps with
  | O => []
  | S n => step_pulse pin ++ pulses pin n
  end.

(** [rotate_to_slot] *)
Definition rotate_to_slot (slot : Z) (st : state) : state :=
  if (slot =? _current_slot st)%Z then st
  else if SAFE_MODE st then
    set_slot slot (emit [Print (Would_rotate (_current_slot st) slot)] st)
  else
    let st := _ensure_gpio st in
    let delta := ((slot - _current_slot st) mod TOTAL_SLOTS)%Z in
    let steps := (delta * STEPS_PER_SLOT)%Z in
    let st :=
      emit (Gpio (Gpio_output (DIR (_pin_map st)) HIGH)
            :: pulses (STEP (_pin_map st)) (Z.to_nat steps)) st in
    emit [Print (Rotated slot)] (set_slot slot st).

(** One pass of the pressing loop, [i] counted from zero. *)
Definition press_once (pin : Z) (i repetitions : Z) : list effect :=
  [Gpio (Gpio_output pin HIGH); Sleep (PUSH_DURATION_MS / 1000);
   Gpio (Gpio_output pin LOW); Sleep (2 # 10);
   Print (Actuator_press (i + 1) repetitions)].

(** [for i in range(repetitions)], the passes from [i] on. *)
Fixpoint presses (pin : Z) (i : Z) (left : nat) (repetitions : Z)
  : list effect :=
  match left with
  | O => []
  | S n => press_once pin i repetitions
           ++ presses pin (i + 1) n repetitions
  end.

(** [press_actuator] *)
Definition press_actuator (repetitions : Z) (st : state) : state :=
  if SAFE_MODE st then emit [Print (Would_press repetitions)] st
  else
    let st := _ensure_gpio st in
    emit (presses (ACTUATOR (_pin_map st)) 0 (Z.to_nat repetitions)
            repetitions) st.

(** The backend calls among the effects. *)
Definition gpio_calls (es : list effect) : list gpio_call :=
  flat_map (fun e => match e with Gpio c => [c] | _ => [] end) es.

(** Writes of [HIGH] to [pin]. *)
Definition high_writes (pin : Z) (es : list effect) : nat :=
  List.length
    (List.filter (fun e => match e with
                           | Gpio (Gpio_output p true) => (p =? pin)%Z
                           | _ => false
                           end) es).

(** The module's public functions, as calls. *)
Inductive call : Type :=
| Set_pin_map (new_map : list (string * Z))
| Set_safe_mode (enabled : bool)
| Rotate_to_slot (slot : Z)
| Press_actuator (repetitions : Z)
| Cleanup.

Definition exec (c : call) (st : state) : state :=
  match c with
  | Set_pin_map m => set_pin_map m st
  | Set_safe_mode b => set_safe_mode b st
  | Rotate_to_slot s => rotate_to_slot s st
  | Press_actuator n => press_actuator n st
  | Cleanup => cleanup st
  end.

(** A sequence of calls, first to last. *)
Definition run (cs : list call) (st : state) : state :=
  fold_left (fun st c => exec c st) cs st.

(** The two motion calls. *)
Definition is_motion (c : call) : bool :=
  match c with
  | Rotate_to_slot _ | Press_actuator _ => true
  | _ => false
  end.

(** The turret position is one of the twelve slots. *)
Definition slot_ok (st : state) : Prop :=
  (0 <= _current_slot st < TOTAL_SLOTS)%Z.

(** A rotation names one of the twelve slots; other calls name none. *)
Definition target_ok (c : call) : Prop :=
  match c with
  | Rotate_to_slot s => (0 <= s < TOTAL_SLOTS)%Z
  | _ => True
  end.

End Hardware.

(** ** Measurement parsing ([app.py]) *)

Module Parse.

Local Open Scope string_scope.

(** [str.isspace] on one character; also the class [\s]. *)
Definition is_space (c : ascii) : bool :=
  let n := nat_of_ascii c in
  (((9 <=? n) && (n <=? 13)) || ((28 <=? n) && (n <=? 32)))%nat.

(** The class [\d]. *)
Definition is_digit (c : ascii) : bool :=
  let n := nat_of_ascii c in
  ((48 <=? n) && (n <=? 57))%nat.

Fixpoint lstrip (s : string) : string :=
  match s with
  | EmptyString => EmptyString
  | String c s' => if is_space c then lstrip s' else s
  end.

Fixpoint rstrip (s : string) : string :=
  match s with
  | EmptyString => EmptyString
  | String c s' =>
      match rstrip s' with
      | EmptyString => if is_space c then EmptyString else String c EmptyString
      | r => String c r
      end
  end.

(** [s.strip()] *)
Definition strip (s : string) : string := rstrip (lstrip s).

(** [w in s] *)
Fixpoint contains (w s : string) : bool :=
  String.prefix w s ||
  match s with
  | EmptyString => false
  | String _ s' => contains w s'
  end.

(** The longest prefix of characters in a class, and what follows it:
    a greedy [c*]. *)
Fixpoint span (p : ascii -> bool) (s : string) : string * string :=
  match s with
  | EmptyString => (EmptyString, EmptyString)
  | String c s' =>
      if p c then let '(a, b) := span p s' in (String c a, b)
      else (EmptyString, s)
  end.

Definition garnish_words : list string :=
  ["slice"; "wedge"; "dash"; "pinch"; "sprig"; "piece"; "cube"; "twist"].

(** The alternation [(oz|ounce|ounces|ml|cl)], tried in this order at the
    head of [s]. *)
Definition unit_words : list string := ["oz"; "ounce"; "ounces"; "ml"; "cl"].

Definition match_unit (s : string) : option string :=
  List.find (fun u => String.prefix u s) unit_words.

(** [re.search(r"(oz|ounce|ounces|ml|cl)", s)]: the leftmost match. *)
Fixpoint search_unit (s : string) : option string :=
  match match_unit s with
  | Some u => Some u
  | None =>
      match s with
      | EmptyString => None
      | String _ s' => search_unit s'
      end
  end.

(** [re.match(r"(\d+)\s+(\d)/(\d)", s)]: the three groups.  The classes
    [\d] and [\s] are disjoint, so the greedy match is the only one. *)
Definition match_mixed (s : string) : option (string * ascii * ascii) :=
  let '(whole, r1) := span is_digit s in
  let '(ws, r2) := span is_space r1 in
  if truthy whole && truthy ws then
    match r2 with
    | String n (String "/"%char (String d _)) =>
        if is_digit n && is_digit d then Some (whole, n, d) else None
    | _ => None
    end
  else None.

(** The first group of the second pattern, [\d+/\d+|\d+(?:\.\d+)?], and
    what follows it.  What comes after the group cannot fail, so the first
    alternative that matches, taken greedily, is the match. *)
Definition match_number (s : string) : option (string * string) :=
  let '(a, r1) := span is_digit s in
  if truthy a then
    match r1 with
    | String "/"%char r2 =>
        let '(b, r3) := span is_digit r2 in
        if truthy b then Some (a ++ "/" ++ b, r3) else Some (a, r1)
    | String "."%char r2 =>
        let '(b, r3) := span is_digit r2 in
        if truthy b then Some (a ++ "." ++ b, r3) else Some (a, r1)
    | _ => Some (a, r1)
    end
  else None.

(** [re.match(r"(\d+/\d+|\d+(?:\.\d+)?)\s*(oz|ounce|ounces|ml|cl)?", s)]:
    the two groups. *)
Definition match_simple (s : string) : option (string * option string) :=
  match match_number s with
  | Some (num_txt, r) =>
      let '(_, r') := span is_space r in
      Some (num_txt, match_unit r')
  | None => None
  end.

Definition digit_value (c : ascii) : Z := Z.of_nat (nat_of_ascii c - 48).

Fixpoint digits_from (acc : Z) (s : string) : Z :=
  match s with
  | EmptyString => acc
  | String c s' => digits_from (10 * acc + digit_value c) s'
  end.

(** [float(s)] for [s] of the shape [\d+] or [\d+\.\d+]. *)
Definition float_of (s : string) : Q :=
  let '(i, r) := span is_digit s in
  match r with
  | String "."%char f =>
      Qred (inject_Z (digits_from (digits_from 0 i) f)
            / inject_Z (10 ^ Z.of_nat (String.length f)))
  | _ => inject_Z (digits_from 0 i)
  end.

(** [s.split("/")] for [s] holding one slash: [(s[0], s[1])]. *)
Fixpoint split_slash (s : string) : string * string :=
  match s with
  | EmptyString => (EmptyString, EmptyString)
  | String c s' =>
      if Ascii.eqb c "/" then (EmptyString, s')
      else let '(a, b) := split_slash s' in (String c a, b)
  end.

(** [_qty_to_oz] *)
Definition _qty_to_oz (raw : option string) : res Q :=
  match raw with
  | None => Ok 0
  | Some raw =>
      if negb (truthy raw) then Ok 0
      else
        let txt := lower (strip raw) in
        if existsb (fun w => contains w txt) garnish_words then Ok 0
        else
          qty_unit ←
            match match_mixed txt with
            | Some (whole, num, den) =>
                f ← PyFloat.div (inject_Z (digit_value num))
                                (inject_Z (digit_value den));
                let qty := PyFloat.add (float_of whole) f in
                let unit := match search_unit txt with
                            | Some u => u
                            | None => "oz"
                            end in
                Ok (Some (qty, unit))
            | None =>
                match match_simple txt with
                | None => Ok None
                | Some (num_txt, unit) =>
                    qty ←
                      (if contains "/" num_txt
                       then PyFloat.div (float_of (fst (split_slash num_txt)))
                                        (float_of (snd (split_slash num_txt)))
                       else Ok (float_of num_txt));
                    let unit := match unit with
                                | Some u => u
                                | None => ""
                                end in
                    Ok (Some (qty, unit))
                end
            end;
          match qty_unit with
          | None => Ok 0
          | Some (qty, unit) =>
              let qty :=
                if String.eqb unit "ml" then PyFloat.mul qty (33814 # 1000000)
                else if String.eqb unit "cl" then PyFloat.mul qty (33814 # 100000)
                else qty in
              Ok (PyFloat.round2 qty)
          end
  end.

End Parse.


(** ** Dispensing ([app.py]) *)

(** Messages passed to [flash]. *)
Inductive flash : Type :=
| No_recipe (nm : string)
| Missing (it : string)
| Pulling (it : string)
| Adding (it : string)
| Dispensing (qty : Q)
| Pantry_add (qty : Q) (it : string)
| Ready (nm : string).

(** What [make_drink] does, in order: a message or a hardware call.  The
    hardware functions return nothing, so the sequence does not depend on
    the hardware state. *)
Inductive action : Type :=
| Flash (f : flash)
| Hw (c : Hardware.call).

(** [parse_ingredients] *)
Definition parse_ingredients (r : recipe) : list (string * Q) :=
  List.map (fun i => (item i, qty_oz i)) (ingredients r).

(** The loop of [make_drink] from position [idx] on; the [bool] tells
    whether the loop ran to its end. *)
Fixpoint dispense_loop (cfg : config) (idx : nat) (ings : list (string * Q))
  : list action * bool :=
  match ings with
  | [] => ([], true)
  | (it, qty) :: rest =>
      if negb (_avail it cfg) then ([Flash (Missing it)], false)
      else
        let slot := _slot_for it cfg in
        let step :=
          Flash (match idx with O => Pulling it | S _ => Adding it end)
          :: match slot with
             | Some s =>
                 [Hw (Hardware.Rotate_to_slot s);
                  Flash (Dispensing qty);
                  Hw (Hardware.Press_actuator (PyFloat.round qty))]
             | None => [Flash (Pantry_add qty it)]
             end in
        let '(more, done) := dispense_loop cfg (S idx) rest in
        (step ++ more, done)
  end.

(** [make_drink], given the loaded configuration and recipes. *)
Definition make_drink (cfg : config) (recipes : list recipe) (nm : string)
  : list action :=
  Hw (Hardware.Set_pin_map (pins cfg))
  :: Hw (Hardware.Set_safe_mode (safe_mode cfg))
  :: match List.find (fun d => String.eqb (lower (name d)) (lower nm)) recipes with
     | None => [Flash (No_recipe nm)]
     | Some drink =>
         let '(acts, done) := dispense_loop cfg 0 (parse_ingredients drink) in
         if done then acts ++ [Flash (Ready (name drink))] else acts
     end.

(** The hardware calls among the actions. *)
Definition hw_calls (acts : list action) : list Hardware.call :=
  flat_map (fun a => match a with Hw c => [c] | Flash _ => [] end) acts.

(** ** Normalisation of names in [load_config] *)

(** [_norm] on a JSON value that is a string or [null]. *)
Definition _norm (s : option string) : option string :=
  match s with
  | Some s =>
      if truthy (Parse.strip s) then Some (lower (Parse.strip s)) else None
  | None => None
  end.

(** [[_norm(s) for s in cfg["slots"]]] *)
Definition norm_slots (l : list (option string)) : list (option string) :=
  List.map _norm l.

(** [[_norm(p) for p in cfg["pantry"] if _norm(p)]] *)
Definition norm_pantry (l : list string) : list string :=
  flat_map (fun p => match _norm (Some p) with
                     | Some q => [q]
                     | None => []
                     end) l.

(** No slot and no pantry entry is the empty name. *)
Definition names_nonempty (cfg : config) : Prop :=
  ~ In (Some EmptyString) (slots cfg) /\ ~ In EmptyString (pantry cfg).

(** ** Callers of the hardware and of the availability test ([app.py]) *)

(** What [api_rotate] answers. *)
Inductive response : Type :=
| Status_ok
| Status_error_range.

(** [api_rotate], given the loaded configuration: the range test comes
    before any hardware call. *)
Definition api_rotate (slot : Z) (cfg : config) (st : Hardware.state)
  : response * Hardware.state :=
  if negb ((1 <=? slot) && (slot <=? 12))%Z then (Status_error_range, st)
  else
    (Status_ok,
     Hardware.rotate_to_slot (slot - 1)
       (Hardware.set_safe_mode (safe_mode cfg)
          (Hardware.set_pin_map (pins cfg) st))).






(** ** Counting backend calls *)

(** Calls of [GPIO.setup] among the effects. *)
Definition setups (es : list Hardware.effect) : nat :=
  List.length
    (List.filter (fun e => match e with
                           | Hardware.Gpio (Hardware.Gpio_setup _) => true
                           | _ => false
                           end) es).

(** A call other than [set_pin_map]. *)
Definition keeps_pins (c : Hardware.call) : bool :=
  match c with
  | Hardware.Set_pin_map _ => false
  | _ => true
  end.

(** The calls of [GPIO.setup] so far, plus one while the hardware is not
    initialised: what the one initialisation still to come can bring it to. *)
Definition budget (st : Hardware.state) : nat :=
  (setups (Hardware.trace st)
   + (if Hardware._gpio_ready st then 0 else 1))%nat.

(** The hardware calls one pass of the loop of [make_drink] makes for an
    available ingredient. *)
Definition calls_for (cfg : config) (p : string * Q) : list Hardware.call :=
  match _slot_for (fst p) cfg with
  | Some s => [Hardware.Rotate_to_slot s;
               Hardware.Press_actuator (PyFloat.round (snd p))]
  | None => []
  end.

(** ** Recipe processing in [_download_all] ([app.py]) *)

(** One drink of the catalogue as received: the fields that are read, with
    [strIngredient1] .. [strIngredient15] and [strMeasure1] .. [strMeasure15]
    paired in that order; a field that is absent or [null] is [None]. *)
Record drink_json : Type := DrinkJson {
  idDrink : string;
  strDrink : string;
  strInstructions : string;
  numbered : list (option string * option string)
}.

(** [x or ""] *)
Definition or_empty (x : option string) : string :=
  match x with
  | Some s => s
  | None => EmptyString
  end.

(** The loop that builds [raw_ings].  Where an entry is appended,
    [ing_name.strip()] is not empty, so that [_norm(ing_name)] is
    [ing_name.strip().lower()]. *)
Fixpoint raw_ings (fields : list (option string * option string))
  : res (list ingredient) :=
  match fields with
  | [] => Ok []
  | (ing_name, measure) :: rest =>
      match ing_name with
      | Some s =>
          if truthy s && truthy (Parse.strip s) then
            let measure := or_empty measure in
            q ← Parse._qty_to_oz (Some measure);
            more ← raw_ings rest;
            Ok ({| item := lower (Parse.strip s);
                   qty_oz := q;
                   raw := Parse.strip measure |} :: more)
          else raw_ings rest
      | None => raw_ings rest
      end
  end.

(** One entry of [processed]. *)
Definition process_drink (d : drink_json) : res recipe :=
  raw ← raw_ings (numbered d);
  scaled ← _scale raw;
  Ok {| id := idDrink d;
        name := strDrink d;
        instructions := strInstructions d;
        ingredients := scaled |}.

(** The list [processed] for the drinks received. *)
Definition process_all (drinks_json : list drink_json) : res (list recipe) :=
  for_each process_drink drinks_json.

(** ** Saving the bottle configuration ([app.py]) *)

(** [x or d] for a form field. *)
Definition or_default (x : option string) (d : string) : string :=
  match x with
  | Some s => if truthy s then s else d
  | None => d
  end.

(** [s.split(",")] *)
Fixpoint split_comma (s : string) : list string :=
  match s with
  | EmptyString => [EmptyString]
  | String c s' =>
      if Ascii.eqb c ","
      then EmptyString :: split_comma s'
      else match split_comma s' with
           | w :: ws => String c w :: ws
           | [] => [String c EmptyString]
           end
  end.

(** The field names [f"slot{i}"] for [i] in [range(12)]. *)
Definition slot_fields : list string :=
  ["slot0"; "slot1"; "slot2"; "slot3"; "slot4"; "slot5"; "slot6"; "slot7";
   "slot8"; "slot9"; "slot10"; "slot11"]%string.

(** The field names [f"sub_key{n}"] and [f"sub_val{n}"] for [n] in
    [range(6)]. *)
Definition sub_fields : list (string * string) :=
  [("sub_key0", "sub_val0"); ("sub_key1", "sub_val1");
   ("sub_key2", "sub_val2"); ("sub_key3", "sub_val3");
   ("sub_key4", "sub_val4"); ("sub_key5", "sub_val5")]%string.

(** Truth value of a normalised name. *)
Definition named (x : option string) : bool :=
  match x with
  | Some s => truthy s
  | None => false
  end.

(** The POST branch of [configure]: the configuration handed to
    [save_config].  [form] is [request.form.get]; [float] stands for Python's
    [float] on the text of the shot-size field, [None] when it raises
    [ValueError]. *)
Definition configure_post (float : string -> option Q)
    (form : string -> option string) (cfg : config) : config :=
  let shot_txt := or_default (form "shot_size"%string) "1.5" in
  let shot := match float shot_txt with
              | Some x => PyFloat.max_from (1 # 2) [x]
              | None => 3 # 2
              end in
  let subs :=
    fold_left
      (fun (subs : gmap string string) (kv : string * string) =>
         let k := _norm (form (fst kv)) in
         let v := _norm (form (snd kv)) in
         match k, v with
         | Some k', Some v' =>
             if named k && named v then <[k' := v']> subs else subs
         | _, _ => subs
         end)
      sub_fields ∅ in
  {| shot_size := shot;
     slots := List.map (fun f => _norm (form f)) slot_fields;
     pantry := norm_pantry (split_comma (or_empty (form "pantry"%string)));
     substitutions := subs;
     safe_mode := named (form "safe_mode"%string);
     pins := pins cfg |}.

(** ** Quantities in binary64 ([app.py])

    The scaling functions, the measure parser and the processing loop once
    more, now on the floats of the program:
    every operation rounds to the nearest binary64 number, overflows to an
    infinity and propagates nan as the hardware does, and [math.floor] and
    the conversion of an [int] raise as Python's do. *)

Module F64.

Import Floats.

Definition float : Set := PrimFloat.float.

(** The rational a finite float denotes; [None] for an infinity and for
    nan. *)
Definition to_Q (x : float) : option Q :=
  match Prim2SF x with
  | S754_zero _ => Some 0
  | S754_finite s m e =>
      let n := if s then Zneg m else Zpos m in
      Some match e with
           | Z0 => inject_Z n
           | Zpos p => inject_Z (n * Z.pow_pos 2 p)
           | Zneg p => Qred (Qmake n (Pos.pow 2 p))
           end
  | S754_infinity _ | S754_nan => None
  end.

Definition finite (x : float) : bool :=
  match to_Q x with
  | Some _ => true
  | None => false
  end.

(** The sign bit. *)
Definition sign (x : float) : bool :=
  match Prim2SF x with
  | S754_zero s | S754_infinity s | S754_finite s _ _ => s
  | S754_nan => false
  end.

(** The literals of the two functions. *)
Definition zero : float := 0%float.
Definition half : float := 0.5%float.
Definition reference : float := 1.5%float.

(** [a < b], [a > b] and [a == b]: false when either side is nan. *)
Definition ltb (a b : float) : bool := PrimFloat.ltb a b.
Definition gtb (a b : float) : bool := ltb b a.
Definition eqb (a b : float) : bool := PrimFloat.eqb a b.

(** [a * b] *)
Definition mul (a b : float) : float := PrimFloat.mul a b.

(** [a + b] *)
Definition add (a b : float) : float := PrimFloat.add a b.

(** [a / b] *)
Definition div (a b : float) : res float :=
  if eqb b zero then Raise ZeroDivisionError else Ok (PrimFloat.div a b).

(** The float nearest to [n / d], a tie going to the even one; an infinity
    when [n / d] is too large. *)
Definition of_ratio (n : Z) (d : positive) : float :=
  match n with
  | Z0 => zero
  | Zpos p =>
      SF2Prim (SFdiv prec emax (S754_finite false p 0) (S754_finite false d 0))
  | Zneg p =>
      SF2Prim (SFdiv prec emax (S754_finite true p 0) (S754_finite false d 0))
  end.

(** [math.floor(x)] *)
Definition floor (x : float) : res Z :=
  match to_Q x with
  | Some v => Ok (Qfloor v)
  | None => if PrimFloat.is_nan x then Raise ValueError else Raise OverflowError
  end.

(** [float(n)] for an [int], as [int * float] converts its left operand. *)
Definition of_int (n : Z) : res float :=
  let f := of_ratio n 1 in
  if finite f then Ok f else Raise OverflowError.

(** The float written with two decimals as [k / 100]; a zero keeps the
    sign [s]. *)
Definition hundredths (s : bool) (k : Z) : float :=
  match k with
  | Z0 => if s then PrimFloat.opp zero else zero
  | _ => of_ratio k 100
  end.

(** [round(x, 2)]: an infinity and nan are returned as they are; a finite
    float goes to the two-decimal number nearest to the number it denotes,
    an exact half going to the even neighbour, and from there to the nearest
    float. *)
Definition round2 (x : float) : float :=
  match to_Q x with
  | Some v => hundredths (sign x) (PyFloat.round (v * 100))
  | None => x
  end.

(** [min(l)] and [max(l)] for a non-empty [l], given as head and tail. *)
Fixpoint min_from (m : float) (l : list float) : float :=
  match l with
  | [] => m
  | x :: l' => min_from (if ltb x m then x else m) l'
  end.

Fixpoint max_from (m : float) (l : list float) : float :=
  match l with
  | [] => m
  | x :: l' => max_from (if gtb x m then x else m) l'
  end.

Record ingredient : Type := Ingredient {
  item : string;
  qty_oz : float;
  raw : string
}.

Definition set_qty (d : ingredient) (q : float) : ingredient :=
  {| item := item d; qty_oz := q; raw := raw d |}.

(** [_scale] *)
Definition _scale (lst : list ingredient) : res (list ingredient) :=
  let liquids :=
    List.map qty_oz (List.filter (fun d => gtb (qty_oz d) zero) lst) in
  match liquids with
  | [] => Ok lst
  | q :: qs =>
      factor ← div reference (min_from q qs);
      Ok (List.map
            (fun d =>
               if gtb (qty_oz d) zero
               then set_qty d (round2 (mul (qty_oz d) factor))
               else d)
            lst)
  end.

(** [_nearest_multiple] *)
Definition _nearest_multiple (value step : float) : res float :=
  q ← div value step;
  n ← floor (add q half);
  f ← of_int n;
  Ok (mul f step).

(** What [scale_for_slots] reads of the configuration; [shot_size] is
    [None] when the key is absent. *)
Record config : Type := Config {
  shot_size : option float;
  slots : list (option string)
}.

(** [cfg.get("shot_size", 1.5)] *)
Definition shot_of (cfg : config) : float :=
  match shot_size cfg with
  | Some s => s
  | None => reference
  end.

(** [scale_for_slots], given [recipe["ingredients"]]. *)
Definition scale_for_slots (items : list ingredient) (cfg : config)
  : res (list ingredient) :=
  let shot := shot_of cfg in
  let slot_liq :=
    List.filter (fun d => in_slots (item d) (slots cfg)
                          && gtb (qty_oz d) zero) items in
  match slot_liq with
  | [] => Ok items
  | d0 :: ds =>
      let anchor_qty := max_from (qty_oz d0) (List.map qty_oz ds) in
      target0 ← _nearest_multiple anchor_qty shot;
      let target := if eqb target0 zero then shot else target0 in
      base_factor ← div target anchor_qty;
      for_each
        (fun d =>
           if gtb (qty_oz d) zero
           then
             let q := mul (qty_oz d) base_factor in
             q' ← (if in_slots (item d) (slots cfg)
                   then _nearest_multiple q shot
                   else Ok q);
             Ok (set_qty d (round2 q'))
           else Ok d)
        items
  end.

(** *** The numbers behind the floats *)

(** The number a finite float denotes: sign, mantissa and exponent. *)
Definition value (s : bool) (m : positive) (e : Z) : Q :=
  inject_Z (if s then Zneg m else Zpos m) * 2 ^ e.

(** A rational [y] in [[m, m + 1)] with the two bits that a shifted mantissa
    [m] carries: they say whether [y] is on [m], below the middle, on the
    middle or above it. *)
Definition located (mrs : shr_record) (y : Q) : Prop :=
  let m := inject_Z (shr_m mrs) in
  match shr_r mrs, shr_s mrs with
  | false, false => y == m
  | false, true => m < y /\ y < m + (1 # 2)
  | true, false => y == m + (1 # 2)
  | true, true => m + (1 # 2) < y /\ y < m + 1
  end.

(** Quantities that normalising can neither underflow nor overflow: finite
    and between [1 / 128] and [2 ^ 1000]. *)
Definition sane (x : float) : bool :=
  match to_Q x with
  | Some v => Qle_bool (1 # 128) v && Qle_bool v (inject_Z (2 ^ 1000))
  | None => false
  end.

(** *** Words of the specification *)


(** A quantity that counts as liquid: [qty_oz > 0]. *)
Definition liquid (d : ingredient) : bool := gtb (qty_oz d) zero.



(** [d'] is [d] normalised against the least positive quantity [m], which
    denotes [vm]: a liquid quantity [vq] becomes the float [w] of a whole
    number [k >= 150] of hundredths, where [k / 100] is within half a
    hundredth and two float roundings of [vq * 1.5 / vm] and [w] within one
    float rounding of [k / 100]; it is still positive and not below 1.5; the
    least quantity itself becomes 1.5; any other entry is kept. *)
Definition normalized_to (m : float) (vm : Q) (d d' : ingredient) : Prop :=
  item d' = item d /\ raw d' = raw d /\
  (liquid d = false -> d' = d) /\
  (liquid d = true ->
   exists (vq : Q) (k : Z) (w : Q),
     to_Q (qty_oz d) = Some vq /\
     qty_oz d' = hundredths false k /\ (150 <= k)%Z /\
     Qabs (inject_Z k / 100 - vq * (3 # 2) / vm)
     <= (1 # 200) + vq * (3 # 2) / vm * (1 # 2251799813685248) /\
     to_Q (qty_oz d') = Some w /\
     Qabs (w - inject_Z k / 100) * inject_Z (2 ^ 53) <= inject_Z k / 100 /\
     liquid d' = true /\ ltb (qty_oz d') reference = false /\
     (qty_oz d = m -> qty_oz d' = reference)).


(** *** Measures and the processing loop on floats *)

(** [float(s)] for [s] of the shape [\d+] or [\d+\.\d+]: the float nearest
    to the decimal number, an infinity when that is too large. *)
Definition float_of (s : string) : float :=
  let '(i, r) := Parse.span Parse.is_digit s in
  match r with
  | String "."%char f =>
      of_ratio (Parse.digits_from (Parse.digits_from 0 i) f)
               (Z.to_pos (10 ^ Z.of_nat (String.length f)))
  | _ => of_ratio (Parse.digits_from 0 i) 1
  end.

(** The literals [0.033814] and [0.33814]. *)
Definition oz_per_ml : float := of_ratio 33814 1000000.
Definition oz_per_cl : float := of_ratio 33814 100000.

(** [_qty_to_oz], with the text matched as in [Parse._qty_to_oz]. *)
Definition _qty_to_oz (raw : option string) : res float :=
  match raw with
  | None => Ok zero
  | Some raw =>
      if negb (truthy raw) then Ok zero
      else
        let txt := lower (Parse.strip raw) in
        if existsb (fun w => Parse.contains w txt) Parse.garnish_words
        then Ok zero
        else
          qty_unit ←
            match Parse.match_mixed txt with
            | Some (whole, num, den) =>
                f ← div (of_ratio (Parse.digit_value num) 1)
                        (of_ratio (Parse.digit_value den) 1);
                let qty := add (float_of whole) f in
                let unit := match Parse.search_unit txt with
                            | Some u => u
                            | None => "oz"%string
                            end in
                Ok (Some (qty, unit))
            | None =>
                match Parse.match_simple txt with
                | None => Ok None
                | Some (num_txt, unit) =>
                    qty ←
                      (if Parse.contains "/" num_txt
                       then div (float_of (fst (Parse.split_slash num_txt)))
                                (float_of (snd (Parse.split_slash num_txt)))
                       else Ok (float_of num_txt));
                    let unit := match unit with
                                | Some u => u
                                | None => ""%string
                                end in
                    Ok (Some (qty, unit))
                end
            end;
          match qty_unit with
          | None => Ok zero
          | Some (qty, unit) =>
              let qty :=
                if String.eqb unit "ml" then mul qty oz_per_ml
                else if String.eqb unit "cl" then mul qty oz_per_cl
                else qty in
              Ok (round2 qty)
          end
  end.

(** A recipe dict with float quantities. *)
Record recipe : Type := Recipe {
  id : string;
  name : string;
  instructions : string;
  ingredients : list ingredient
}.

(** The loop that builds [raw_ings] in [_download_all]. *)
Fixpoint raw_ings (fields : list (option string * option string))
  : res (list ingredient) :=
  match fields with
  | [] => Ok []
  | (ing_name, measure) :: rest =>
      match ing_name with
      | Some s =>
          if truthy s && truthy (Parse.strip s) then
            let measure := or_empty measure in
            q ← _qty_to_oz (Some measure);
            more ← raw_ings rest;
            Ok ({| item := lower (Parse.strip s);
                   qty_oz := q;
                   raw := Parse.strip measure |} :: more)
          else raw_ings rest
      | None => raw_ings rest
      end
  end.

(** One entry of [processed]. *)
Definition process_drink (d : drink_json) : res recipe :=
  raw ← raw_ings (numbered d);
  scaled ← _scale raw;
  Ok {| id := idDrink d;
        name := strDrink d;
        instructions := strInstructions d;
        ingredients := scaled |}.

(** *** Concrete inputs *)









End F64.

(** ** A bar and a recipe used as concrete inputs *)

(** Gin in the first of twelve slots, vermouth in the pantry, a shot of
    1.5 oz. *)
Definition bar : config :=
  {| shot_size := 3 # 2;
     slots := Some "gin"%string :: repeat None 11;
     pantry := ["vermouth"%string];
     substitutions := ∅;
     safe_mode := true;
     pins := [("DIR"%string, 20%Z); ("STEP"%string, 21%Z);
              ("ENABLE"%string, 16%Z); ("ACTUATOR"%string, 26%Z)] |}.

(** As [bar], with "dry gin" replaced by gin, "lime" by the pantry's
    "lemon", and "tonic" by "soda", which is neither in a slot nor in the
    pantry but has a replacement of its own. *)
Definition bar_subs : config :=
  {| shot_size := 3 # 2;
     slots := Some "gin"%string :: repeat None 11;
     pantry := ["vermouth"%string; "lemon"%string];
     substitutions :=
       <["dry gin"%string := "gin"%string]>
         (<["lime"%string := "lemon"%string]>
            (<["tonic"%string := "soda"%string]>
               (<["soda"%string := "lemon"%string]> ∅)));
     safe_mode := true;
     pins := [] |}.

Definition gin_vermouth : list ingredient :=
  [ {| item := "gin"; qty_oz := 2; raw := "2 oz" |};
    {| item := "vermouth"; qty_oz := 1 # 2; raw := "1/2 oz" |} ].

Definition gin_vermouth_scaled : list ingredient :=
  [ {| item := "gin"; qty_oz := 6; raw := "2 oz" |};
    {| item := "vermouth"; qty_oz := 3 # 2; raw := "1/2 oz" |} ].

Definition martini (ings : list ingredient) : recipe :=
  {| id := "11728"; name := "Martini"; instructions := "Stir.";
     ingredients := ings |}.

(** The Martini as the catalogue sends it, with a blank and two empty
    ingredient fields. *)
Definition martini_json : drink_json :=
  {| idDrink := "11728";
     strDrink := "Martini";
     strInstructions := "Stir.";
     numbered := [ (Some "Gin"%string, Some "2 oz "%string);
                   (Some " Vermouth"%string, Some "1/2 oz"%string);
                   (Some " "%string, Some "1 oz"%string);
                   (Some ""%string, None);
                   (None, None) ] |}.

(** The Martini as [_download_all] processes it on floats. *)
Definition martini_float : F64.recipe :=
  {| F64.id := "11728"; F64.name := "Martini";
     F64.instructions := "Stir.";
     F64.ingredients :=
       [ {| F64.item := "gin"; F64.qty_oz := F64.of_ratio 6 1;
            F64.raw := "2 oz" |};
         {| F64.item := "vermouth"; F64.qty_oz := F64.reference;
            F64.raw := "1/2 oz" |} ] |}.

(** * Properties *)

(** ** Arithmetic *)

Section Arithmetic.

(** Push [inject_Z] through a successor so that [lra] sees a constant. *)
Ltac push_inject :=
  rewrite ?inject_Z_plus in *; change (inject_Z 1) with 1 in *.

(** Division by one hundred as a multiplication, for [lra]. *)
Ltac hundredths :=
  unfold Qdiv in *; change (/ 100) with (1 # 100) in *.

Lemma ltb_lt (a b : Q) : PyFloat.ltb a b = true <-> a < b.
Proof.
  unfold PyFloat.ltb. rewrite negb_true_iff. split; intros H.
  - apply Qnot_le_lt. intros Hle. apply Qle_bool_iff in Hle. congruence.
  - destruct (Qle_bool b a) eqn:E; [|reflexivity].
    apply Qle_bool_iff in E. exfalso. apply (Qlt_not_le _ _ H E).
Qed.

Lemma gtb_gt (a b : Q) : PyFloat.gtb a b = true <-> b < a.
Proof. apply ltb_lt. Qed.

Lemma gtb_false (a b : Q) : PyFloat.gtb a b = false <-> ~ b < a.
Proof.
  rewrite <- gtb_gt. destruct (PyFloat.gtb a b); split; congruence.
Qed.

Lemma div_ok (a b : Q) : ~ b == 0 -> PyFloat.div a b = Ok (Qred (a / b)).
Proof.
  intros H. unfold PyFloat.div.
  destruct (Qeq_bool b 0) eqn:E; [|reflexivity].
  apply Qeq_bool_iff in E. contradiction.
Qed.


(** [round] lands within one half of its argument. *)
Lemma round_near (x : Q) : Qabs (inject_Z (PyFloat.round x) - x) <= 1 # 2.
Proof.
  pose proof (Qfloor_le x) as Hlo. pose proof (Qlt_floor x) as Hhi.
  apply Qabs_Qle_condition. unfold PyFloat.round.
  destruct (Qcompare_spec (x - inject_Z (Qfloor x)) (1 # 2)) as [E|E|E];
    [destruct (Z.even (Qfloor x))| |]; push_inject; split; lra.
Qed.

(** On an exact half, [round] takes the even neighbour. *)
Lemma round_tie_even (x : Q) :
  Qabs (inject_Z (PyFloat.round x) - x) == 1 # 2 ->
  Z.even (PyFloat.round x) = true.
Proof.
  pose proof (Qfloor_le x) as Hlo. pose proof (Qlt_floor x) as Hhi.
  unfold PyFloat.round.
  destruct (Qcompare_spec (x - inject_Z (Qfloor x)) (1 # 2)) as [E|E|E].
  - intros _. destruct (Z.even (Qfloor x)) eqn:Ev; [exact Ev|].
    rewrite Z.even_add, Ev. reflexivity.
  - intros H. push_inject. rewrite Qabs_neg in H by lra. lra.
  - intros H. push_inject. rewrite Qabs_pos in H by lra. lra.
Qed.

Lemma round_ge_int (n : Z) (x : Q) :
  inject_Z n <= x -> (n <= PyFloat.round x)%Z.
Proof.
  intros H. pose proof (round_near x) as Hn.
  apply Qabs_Qle_condition in Hn.
  destruct (Z_lt_le_dec (PyFloat.round x) n) as [C|C]; [exfalso|exact C].
  assert (C' : (PyFloat.round x + 1 <= n)%Z) by lia.
  rewrite Zle_Qle in C'. push_inject. lra.
Qed.

Lemma round2_eq (x : Q) :
  PyFloat.round2 x == inject_Z (PyFloat.round (x * 100)) / 100.
Proof. apply Qred_correct. Qed.


(** [round(x, 2)] lands within 0.005 of its argument. *)
Lemma round2_near (x : Q) : Qabs (PyFloat.round2 x - x) <= 1 # 200.
Proof.
  pose proof (round_near (x * 100)) as H.
  apply Qabs_Qle_condition in H. apply Qabs_Qle_condition.
  rewrite round2_eq. hundredths. split; lra.
Qed.




Lemma min_from_In (l : list Q) : forall m, In (PyFloat.min_from m l) (m :: l).
Proof.
  induction l as [|x l IH]; intros m; simpl; [auto|].
  destruct (IH (if PyFloat.ltb x m then x else m)) as [H|H]; [|auto].
  destruct (PyFloat.ltb x m); auto.
Qed.

Lemma min_from_le (l : list Q) :
  forall m x, In x (m :: l) -> PyFloat.min_from m l <= x.
Proof.
  induction l as [|y l IH]; intros m x Hx; simpl.
  - destruct Hx as [<-|[]]. apply Qle_refl.
  - destruct (PyFloat.ltb y m) eqn:E.
    + apply ltb_lt in E.
      destruct Hx as [<-|[<-|Hx]].
      * apply Qle_trans with y; [apply IH; left; reflexivity | lra].
      * apply IH. left. reflexivity.
      * apply IH. right. exact Hx.
    + assert (Hm : m <= y).
      { apply Qnot_lt_le. intros C. apply ltb_lt in C. congruence. }
      destruct Hx as [<-|[<-|Hx]].
      * apply IH. left. reflexivity.
      * apply Qle_trans with m; [apply IH; left; reflexivity | exact Hm].
      * apply IH. right. exact Hx.
Qed.

Lemma max_from_In (l : list Q) : forall m, In (PyFloat.max_from m l) (m :: l).
Proof.
  induction l as [|x l IH]; intros m; simpl; [auto|].
  destruct (IH (if PyFloat.gtb x m then x else m)) as [H|H]; [|auto].
  destruct (PyFloat.gtb x m); auto.
Qed.

Lemma max_from_ge (l : list Q) :
  forall m x, In x (m :: l) -> x <= PyFloat.max_from m l.
Proof.
  induction l as [|y l IH]; intros m x Hx; simpl.
  - destruct Hx as [<-|[]]. apply Qle_refl.
  - destruct (PyFloat.gtb y m) eqn:E.
    + apply gtb_gt in E.
      destruct Hx as [<-|[<-|Hx]].
      * apply Qle_trans with y; [lra | apply IH; left; reflexivity].
      * apply IH. left. reflexivity.
      * apply IH. right. exact Hx.
    + assert (Hm : y <= m).
      { apply Qnot_lt_le. intros C. apply gtb_gt in C. congruence. }
      destruct Hx as [<-|[<-|Hx]].
      * apply IH. left. reflexivity.
      * apply Qle_trans with m; [exact Hm | apply IH; left; reflexivity].
      * apply IH. right. exact Hx.
Qed.

End Arithmetic.

(** ** Normalising to the reference shot *)

Section Normalize.

Lemma Forall2_map_self {A B : Type} (R : A -> B -> Prop) (f : A -> B)
    (l : list A) :
  (forall a, In a l -> R a (f a)) -> Forall2 R l (List.map f l).
Proof.
  induction l as [|a l IH]; intros H; simpl; constructor.
  - apply H. left. reflexivity.
  - apply IH. intros b Hb. apply H. right. exact Hb.
Qed.

Lemma no_liquids (lst : list ingredient) :
  Forall (fun d => ~ 0 < qty_oz d) lst ->
  List.filter (fun d => PyFloat.gtb (qty_oz d) 0) lst = [].
Proof.
  induction 1 as [|d l Hd _ IH]; simpl; [reflexivity|].
  apply gtb_false in Hd. rewrite Hd. exact IH.
Qed.

(** The least liquid quantity is positive, belongs to the list and bounds
    every positive quantity from below. *)
Lemma least_liquid (lst : list ingredient) (q : Q) (qs : list Q) :
  List.map qty_oz (List.filter (fun d => PyFloat.gtb (qty_oz d) 0) lst)
    = q :: qs ->
  let m := PyFloat.min_from q qs in
  0 < m /\ (exists d, In d lst /\ qty_oz d = m) /\
  (forall d, In d lst -> 0 < qty_oz d -> m <= qty_oz d).
Proof.
  intros E m.
  assert (Hin : In m (q :: qs)) by apply min_from_In.
  rewrite <- E in Hin. apply in_map_iff in Hin as (d & Hd & Hf).
  apply filter_In in Hf as [Hl Hp]. apply gtb_gt in Hp.
  split; [rewrite <- Hd; exact Hp|]. split; [exists d; auto|].
  intros d' Hl' Hp'. apply min_from_le. rewrite <- E.
  apply in_map. apply filter_In. split; [exact Hl'|]. apply gtb_gt. exact Hp'.
Qed.

Lemma scale_up (m q : Q) : 0 < m -> m <= q -> 3 # 2 <= q * ((3 # 2) / m).
Proof.
  intros Hm Hq.
  assert (E : q * ((3 # 2) / m) == (q * (3 # 2)) / m) by (field; lra).
  rewrite E. apply Qle_shift_div_l; [exact Hm | lra].
Qed.


End Normalize.

(** ** Normalising in binary64 *)

Module F64Facts.

Import Floats.

(** The order of floats is the order of (sign, exponent, mantissa), which
    is transitive. *)
Lemma SFcompare_lt_trans (a b c : spec_float) :
  SFcompare a b = Some Lt -> SFcompare b c = Some Lt ->
  SFcompare a c = Some Lt.
Proof.
  destruct a as [sa|sa| |sa ma ea], b as [sb|sb| |sb mb eb],
           c as [sc|sc| |sc mc ec];
    cbn [SFcompare];
    try discriminate;
    try (destruct sa; (discriminate || reflexivity));
    try (destruct sa, sb; (discriminate || reflexivity));
    try (destruct sb, sc; (discriminate || reflexivity));
    try (destruct sa, sb, sc; (discriminate || reflexivity)).
  change (Pos.compare_cont Eq ma mb) with (Pos.compare ma mb).
  change (Pos.compare_cont Eq mb mc) with (Pos.compare mb mc).
  change (Pos.compare_cont Eq ma mc) with (Pos.compare ma mc).
  destruct sa, sb, sc; try discriminate; try reflexivity;
    destruct (Z.compare_spec ea eb), (Z.compare_spec eb ec),
             (Z.compare_spec ea ec);
    destruct (Pos.compare_spec ma mb), (Pos.compare_spec mb mc),
             (Pos.compare_spec ma mc);
    cbn; intros; try discriminate; try reflexivity; exfalso; lia.
Qed.

Lemma ltb_trans (a b c : F64.float) :
  F64.ltb a b = true -> F64.ltb b c = true -> F64.ltb a c = true.
Proof.
  unfold F64.ltb. rewrite !ltb_spec. unfold SFltb.
  destruct (SFcompare (Prim2SF a) (Prim2SF b)) as [[]|] eqn:E1; try discriminate.
  destruct (SFcompare (Prim2SF b) (Prim2SF c)) as [[]|] eqn:E2; try discriminate.
  rewrite (SFcompare_lt_trans _ _ _ E1 E2). reflexivity.
Qed.

(** A positive float is not zero. *)
Lemma gtb_zero_neq (m : F64.float) :
  F64.gtb m F64.zero = true -> F64.eqb m F64.zero = false.
Proof.
  unfold F64.gtb, F64.eqb. rewrite ltb_spec, eqb_spec.
  unfold SFltb, SFeqb. change (Prim2SF F64.zero) with (S754_zero false).
  destruct (Prim2SF m) as [s|s| |s mm e]; cbn; try discriminate;
    destruct s; try discriminate; reflexivity.
Qed.

Lemma ltb_irrefl (a : F64.float) : F64.ltb a a = false.
Proof.
  unfold F64.ltb. rewrite ltb_spec. unfold SFltb.
  destruct (Prim2SF a) as [s|s| |s m e]; cbn; try reflexivity;
    destruct s; try reflexivity;
    rewrite Z.compare_refl;
    change (Pos.compare_cont Eq m m) with (Pos.compare m m);
    rewrite Pos.compare_refl; reflexivity.
Qed.




Lemma min_float_In (l : list F64.float) :
  forall m, In (F64.min_from m l) (m :: l).
Proof.
  induction l as [|x l IH]; intros m; cbn [F64.min_from]; [left; reflexivity|].
  destruct (IH (if F64.ltb x m then x else m)) as [H|H]; [|right; right; exact H].
  destruct (F64.ltb x m); [right; left | left]; exact H.
Qed.

Lemma min_float_head (l : list F64.float) :
  forall m, F64.min_from m l = m \/ F64.ltb (F64.min_from m l) m = true.
Proof.
  induction l as [|y l IH]; intros m; cbn [F64.min_from]; [left; reflexivity|].
  destruct (F64.ltb y m) eqn:E; [|apply IH].
  right. destruct (IH y) as [->|H]; [exact E|].
  exact (ltb_trans _ _ _ H E).
Qed.

(** No element is below the minimum. *)
Lemma min_float_le (l : list F64.float) :
  forall m x, In x (m :: l) -> F64.ltb x (F64.min_from m l) = false.
Proof.
  assert (Hdown : forall a b x, F64.ltb x a = false ->
                    b = a \/ F64.ltb b a = true -> F64.ltb x b = false).
  { intros a b x Hx [->|Hb]; [exact Hx|].
    destruct (F64.ltb x b) eqn:E; [|reflexivity].
    rewrite (ltb_trans _ _ _ E Hb) in Hx. discriminate. }
  induction l as [|y l IH]; intros m x Hx; cbn [F64.min_from].
  - destruct Hx as [<-|[]]. apply ltb_irrefl.
  - destruct (F64.ltb y m) eqn:E.
    + destruct Hx as [<-|[<-|Hx]].
      * apply (Hdown y); [|apply min_float_head].
        destruct (F64.ltb m y) eqn:C; [|reflexivity].
        pose proof (ltb_trans _ _ _ C E) as T. rewrite ltb_irrefl in T.
        discriminate.
      * apply IH. left. reflexivity.
      * apply IH. right. exact Hx.
    + destruct Hx as [<-|[<-|Hx]].
      * apply IH. left. reflexivity.
      * apply (Hdown m); [exact E | apply min_float_head].
      * apply IH. right. exact Hx.
Qed.

(** [round2] rounds to two decimals. *)
Lemma bind_ok {A B : Type} (a : A) (k : A -> res B) : mbind k (Ok a) = k a.
Proof. reflexivity. Qed.


Lemma div_pos (a m : F64.float) :
  F64.gtb m F64.zero = true -> F64.div a m = Ok (PrimFloat.div a m).
Proof.
  intros H. unfold F64.div. rewrite (gtb_zero_neq m H). reflexivity.
Qed.



End F64Facts.

(** ** One rounding at a time

    What the division and the multiplication of the Standard Library's
    binary64 specification return when the exact result is within the
    normal range: a normal float within a relative distance of [2 ^ -53] of
    that result. *)

Module F64Rounding.
Import Floats.

Lemma digits2_pos_bounds (p : positive) :
  (2 ^ (Zpos (digits2_pos p) - 1) <= Zpos p < 2 ^ Zpos (digits2_pos p))%Z.
Proof.
  induction p as [p IH|p IH|]; cbn [digits2_pos].
  - rewrite Pos2Z.inj_succ.
    replace (Z.succ (Zpos (digits2_pos p)) - 1)%Z
      with (Z.succ (Zpos (digits2_pos p) - 1)) by lia.
    rewrite !Z.pow_succ_r by lia. lia.
  - rewrite Pos2Z.inj_succ.
    replace (Z.succ (Zpos (digits2_pos p)) - 1)%Z
      with (Z.succ (Zpos (digits2_pos p) - 1)) by lia.
    rewrite !Z.pow_succ_r by lia. lia.
  - cbn. lia.
Qed.

Lemma digits2_pos_unique (p : positive) (k : Z) :
  (2 ^ (k - 1) <= Zpos p < 2 ^ k)%Z -> (0 < k)%Z ->
  Zpos (digits2_pos p) = k.
Proof.
  intros [Hlo Hhi] Hk. pose proof (digits2_pos_bounds p) as [Dlo Dhi].
  set (d := Zpos (digits2_pos p)) in *.
  assert (Hd : (0 < d)%Z) by (unfold d; lia).
  destruct (Z.lt_trichotomy d k) as [C|[C|C]]; [exfalso| exact C |exfalso].
  - assert (2 ^ d <= 2 ^ (k - 1))%Z by (apply Z.pow_le_mono_r; lia). lia.
  - assert (2 ^ k <= 2 ^ (d - 1))%Z by (apply Z.pow_le_mono_r; lia). lia.
Qed.

Lemma inject_xO (p : positive) : inject_Z (Zpos p~0) == 2 * inject_Z (Zpos p).
Proof. unfold Qeq. cbn. lia. Qed.

Lemma inject_xI (p : positive) :
  inject_Z (Zpos p~1) == 2 * inject_Z (Zpos p) + 1.
Proof. unfold Qeq. cbn. lia. Qed.

(** One shift to the right halves the located number. *)
Lemma shr_1_located (mrs : shr_record) (y : Q) :
  (0 <= shr_m mrs)%Z -> F64.located mrs y ->
  F64.located (shr_1 mrs) (y * (1 # 2)) /\
  shr_m (shr_1 mrs) = (shr_m mrs / 2)%Z.
Proof.
  destruct mrs as [m r s]. cbn [shr_m]. intros Hm H.
  destruct m as [|p|p]; [| |lia].
  - split; [|reflexivity].
    destruct r, s; unfold F64.located in *;
      cbn [shr_1 shr_m shr_r shr_s orb] in *;
      change (inject_Z 0) with 0 in *; lra.
  - destruct p as [p|p|].
    + split.
      * pose proof (inject_xI p) as E.
        destruct r, s; unfold F64.located in *; cbn [shr_1 shr_m shr_r shr_s orb] in *;
          lra.
      * cbn [shr_1 shr_m]. destruct r, s; cbn [shr_m];
          rewrite Pos2Z.inj_xI;
          apply Z.div_unique with (r := 1%Z); lia.
    + split.
      * pose proof (inject_xO p) as E.
        destruct r, s; unfold F64.located in *; cbn [shr_1 shr_m shr_r shr_s orb] in *;
          lra.
      * cbn [shr_1 shr_m]. destruct r, s; cbn [shr_m];
          rewrite Pos2Z.inj_xO;
          apply Z.div_unique with (r := 0%Z); lia.
    + split; [|destruct r, s; reflexivity].
      destruct r, s; unfold F64.located in *;
        cbn [shr_1 shr_m shr_r shr_s orb] in *;
        change (inject_Z 0) with 0 in *; change (inject_Z 1) with 1 in *; lra.
Qed.

Lemma iter_pos_inv {A : Type} (f : A -> A) (P : nat -> A -> Prop) :
  (forall k a, P k a -> P (S k) (f a)) ->
  forall p k a, P k a -> P (Pos.to_nat p + k)%nat (iter_pos f p a).
Proof.
  intros Hstep. induction p as [p IH|p IH|]; intros k a Ha; cbn [iter_pos].
  - replace (Pos.to_nat p~1 + k)%nat
      with (Pos.to_nat p + (Pos.to_nat p + S k))%nat by lia.
    apply IH, IH, Hstep, Ha.
  - replace (Pos.to_nat p~0 + k)%nat
      with (Pos.to_nat p + (Pos.to_nat p + k))%nat by lia.
    apply IH, IH, Ha.
  - apply Hstep, Ha.
Qed.

Lemma located_proper (mrs : shr_record) (y y' : Q) :
  y == y' -> F64.located mrs y -> F64.located mrs y'.
Proof.
  intros E. destruct mrs as [m r s]. unfold F64.located. cbn [shr_m shr_r shr_s].
  destruct r, s; lra.
Qed.

Lemma pow2_gt0 (k : Z) : (0 <= k)%Z -> 0 < inject_Z (2 ^ k).
Proof.
  intros Hk. change 0 with (inject_Z 0). rewrite <- Zlt_Qlt.
  apply Z.pow_pos_nonneg; lia.
Qed.

Lemma pow2_succ (k : Z) :
  (0 <= k)%Z -> inject_Z (2 ^ (k + 1)) == 2 * inject_Z (2 ^ k).
Proof.
  intros Hk. rewrite Z.pow_add_r by lia. rewrite inject_Z_mult.
  change (inject_Z (2 ^ 1)) with 2. ring.
Qed.

(** [n] shifts to the right divide the located number by [2 ^ n]. *)
Lemma shr_located (mrs : shr_record) (e n : Z) (y : Q) :
  (0 <= shr_m mrs)%Z -> (0 <= n)%Z -> F64.located mrs y ->
  snd (shr mrs e n) = (e + n)%Z /\
  F64.located (fst (shr mrs e n)) (y / inject_Z (2 ^ n)) /\
  shr_m (fst (shr mrs e n)) = (shr_m mrs / 2 ^ n)%Z.
Proof.
  intros Hm Hn H. destruct n as [|p|p]; [| |lia].
  - cbn [shr fst snd]. split; [lia|]. split.
    + apply (located_proper mrs y); [|exact H].
      change (inject_Z (2 ^ 0)) with 1. field.
    + change (2 ^ 0)%Z with 1%Z. rewrite Z.div_1_r. reflexivity.
  - cbn [shr fst snd]. split; [reflexivity|].
    set (P := fun (k : nat) (a : shr_record) =>
                (0 <= shr_m a)%Z /\
                F64.located a (y / inject_Z (2 ^ Z.of_nat k)) /\
                shr_m a = (shr_m mrs / 2 ^ Z.of_nat k)%Z).
    assert (Hstep : forall k a, P k a -> P (S k) (shr_1 a)).
    { intros k a (Ha & Hl & Hq).
      destruct (shr_1_located a _ Ha Hl) as [Hl' Hq'].
      split; [rewrite Hq'; apply Z.div_pos; lia|]. split.
      - apply (located_proper (shr_1 a) _ _) with (2 := Hl').
        rewrite Nat2Z.inj_succ. unfold Z.succ.
        rewrite pow2_succ by lia.
        pose proof (pow2_gt0 (Z.of_nat k) ltac:(lia)) as Hp.
        field. lra.
      - rewrite Hq', Hq, Nat2Z.inj_succ, Z.pow_succ_r by lia.
        rewrite Z.div_div by (try apply Z.pow_pos_nonneg; lia).
        f_equal. lia. }
    assert (H0 : P 0%nat mrs).
    { split; [exact Hm|]. split.
      - apply (located_proper mrs y); [|exact H].
        change (inject_Z (2 ^ Z.of_nat 0)) with 1. field.
      - change (2 ^ Z.of_nat 0)%Z with 1%Z. rewrite Z.div_1_r. reflexivity. }
    pose proof (iter_pos_inv shr_1 P Hstep p 0%nat mrs H0) as (_ & Hl & Hq).
    rewrite Nat.add_0_r, positive_nat_Z in Hl, Hq. split; assumption.
Qed.

Lemma shr_record_of_loc_m (m : Z) (l : location) :
  shr_m (shr_record_of_loc m l) = m.
Proof. destruct l as [|[]]; reflexivity. Qed.

(** Rounding to nearest moves a located number by at most a half. *)
Lemma round_nearest_even_near (mrs : shr_record) (t : Q) :
  F64.located mrs t ->
  let m' := round_nearest_even (shr_m mrs) (loc_of_shr_record mrs) in
  (m' = shr_m mrs \/ m' = (shr_m mrs + 1)%Z) /\
  Qabs (inject_Z m' - t) <= 1 # 2 /\ inject_Z (shr_m mrs) <= t.
Proof.
  destruct mrs as [m r s]. unfold F64.located.
  cbn [shr_m shr_r shr_s loc_of_shr_record].
  assert (E : inject_Z (m + 1) == inject_Z m + 1)
    by (rewrite inject_Z_plus; reflexivity).
  destruct r, s; cbn [round_nearest_even]; intros H.
  - split; [right; reflexivity|]. split; [|lra].
    apply Qabs_Qle_condition. split; lra.
  - destruct (Z.even m).
    + split; [left; reflexivity|]. split; [|lra].
      apply Qabs_Qle_condition. split; lra.
    + split; [right; reflexivity|]. split; [|lra].
      apply Qabs_Qle_condition. split; lra.
  - split; [left; reflexivity|]. split; [|lra].
    apply Qabs_Qle_condition. split; lra.
  - split; [left; reflexivity|]. split; [|lra].
    apply Qabs_Qle_condition. split; lra.
Qed.

Lemma digits_ge (p : positive) (k : Z) :
  (2 ^ k <= Zpos p)%Z -> (0 <= k)%Z -> (k < Zpos (digits2_pos p))%Z.
Proof.
  intros H Hk. pose proof (digits2_pos_bounds p) as [_ Hhi].
  apply (Z.pow_lt_mono_r_iff 2); lia.
Qed.

(** What [binary_round_aux] returns for a located number whose leading bit
    is within the normal range: a normal float within a relative distance of
    [2 ^ -53]. *)
Lemma binary_round_aux_correct (sx : bool) (mx ex : Z) (lx : location)
    (y : Q) :
  (2 ^ 52 <= mx)%Z ->
  F64.located (shr_record_of_loc mx lx) y ->
  (-1074 <= Zdigits2 mx + ex - 53)%Z -> (Zdigits2 mx + ex <= 1023)%Z ->
  exists m e,
    binary_round_aux prec emax sx mx ex lx = S754_finite sx m e /\
    bounded prec emax m e = true /\
    Zpos (digits2_pos m) = 53%Z /\
    (Zdigits2 mx + ex - 53 <= e <= Zdigits2 mx + ex - 52)%Z /\
    (ex <= e)%Z /\
    Qabs (inject_Z (Zpos m * 2 ^ (e - ex)) - y) * inject_Z (2 ^ 53) <= y.
Proof.
  intros Hmx Hloc Hlo Hhi.
  assert (H52 : (0 < 2 ^ 52)%Z) by (apply Z.pow_pos_nonneg; lia).
  destruct mx as [|p|p]; [lia| |lia].
  cbn [Zdigits2] in *.
  pose proof (digits2_pos_bounds p) as [Dlo Dhi].
  pose proof (digits_ge p 52 Hmx ltac:(lia)) as Hd.
  set (d := Zpos (digits2_pos p)) in *.
  set (n := (d - 53)%Z).
  assert (Hn : (0 <= n)%Z) by (unfold n; lia).
  assert (Hpn : (0 < 2 ^ n)%Z) by (apply Z.pow_pos_nonneg; lia).
  unfold binary_round_aux, shr_fexp.
  assert (F1 : (fexp prec emax (Zdigits2 (Zpos p) + ex) - ex = n)%Z).
  { unfold fexp, SpecFloat.emin, prec, emax. cbn [Zdigits2]. fold d. lia. }
  rewrite F1.
  destruct (shr_located (shr_record_of_loc (Zpos p) lx) ex n y
              ltac:(rewrite shr_record_of_loc_m; lia) Hn Hloc)
    as (He1 & Hl1 & Hm1).
  rewrite shr_record_of_loc_m in Hm1.
  destruct (shr (shr_record_of_loc (Zpos p) lx) ex n) as [mrs1 e1].
  cbn [fst snd] in He1, Hl1, Hm1.
  set (m1 := shr_m mrs1) in *.
  assert (B1 : (2 ^ 52 <= m1 < 2 ^ 53)%Z).
  { rewrite Hm1. split.
    - apply Z.div_le_lower_bound; [exact Hpn|].
      rewrite <- Z.pow_add_r by lia.
      replace (n + 52)%Z with (d - 1)%Z by (unfold n; lia). exact Dlo.
    - apply Z.div_lt_upper_bound; [exact Hpn|].
      rewrite <- Z.pow_add_r by lia.
      replace (n + 53)%Z with d by (unfold n; lia). exact Dhi. }
  destruct (round_nearest_even_near mrs1 _ Hl1) as (Hm2 & Hnear & Hbelow).
  fold m1 in Hm2, Hnear, Hbelow.
  set (m2 := round_nearest_even m1 (loc_of_shr_record mrs1)) in *.
  set (P := inject_Z (2 ^ n)) in *.
  assert (HP : 0 < P) by (apply pow2_gt0; exact Hn).
  assert (Ey : y == (y / P) * P) by (field; lra).
  (* the distance of [m2 * 2 ^ n] from [y] *)
  assert (Herr : Qabs (inject_Z (m2 * 2 ^ n) - y) * inject_Z (2 ^ 53) <= y).
  { assert (E1 : inject_Z (m2 * 2 ^ n) - y == (inject_Z m2 - y / P) * P).
    { rewrite inject_Z_mult. fold P. field. lra. }
    rewrite E1, Qabs_Qmult, (Qabs_pos P) by lra.
    assert (A1 : Qabs (inject_Z m2 - y / P) * P <= (1 # 2) * P)
      by (apply Qmult_le_compat_r; [exact Hnear | lra]).
    assert (A2 : inject_Z (2 ^ 52) * P <= (y / P) * P).
    { apply Qmult_le_compat_r; [|lra].
      apply Qle_trans with (inject_Z m1); [|exact Hbelow].
      rewrite <- Zle_Qle. lia. }
    rewrite <- Ey in A2.
    change (inject_Z (2 ^ 53)) with (9007199254740992 # 1).
    change (inject_Z (2 ^ 52)) with (4503599627370496 # 1) in A2.
    lra. }
  assert (He1lo : (-1074 <= e1)%Z) by (rewrite He1; unfold n; lia).
  assert (B2 : (2 ^ 52 <= m2 <= 2 ^ 53)%Z) by lia.
  destruct (Z_lt_le_dec m2 (2 ^ 53)) as [C|C].
  - (* no carry *)
    destruct m2 as [|q|q] eqn:Em2; [lia| |lia].
    assert (Dq : Zpos (digits2_pos q) = 53%Z)
      by (apply digits2_pos_unique; [split; [exact (proj1 B2)|exact C]|lia]).
    assert (F2 : (fexp prec emax (Zdigits2 (Zpos q) + e1) - e1 = 0)%Z).
    { unfold fexp, SpecFloat.emin, prec, emax. cbn [Zdigits2]. rewrite Dq. lia. }
    rewrite F2. cbn [shr shr_record_of_loc shr_m].
    exists q, e1.
    assert (Le : (e1 <=? emax - prec)%Z = true)
      by (apply Z.leb_le; unfold emax, prec; rewrite He1; unfold n; lia).
    rewrite Le. split; [reflexivity|]. split.
    { unfold bounded, canonical_mantissa. rewrite Le, Dq.
      unfold fexp, SpecFloat.emin, prec, emax.
      rewrite andb_true_r. apply Z.eqb_eq. lia. }
    split; [exact Dq|]. split; [rewrite He1; unfold n; lia|].
    split; [rewrite He1; lia|].
    replace (e1 - ex)%Z with n by (rewrite He1; lia). exact Herr.
  - (* the mantissa was rounded up to [2 ^ 53] *)
    assert (E2 : m2 = (2 ^ 53)%Z) by lia.
    rewrite E2 in *.
    change (Zdigits2 (2 ^ 53)) with 54%Z.
    assert (F2 : (fexp prec emax (54 + e1) - e1 = 1)%Z).
    { unfold fexp, SpecFloat.emin, prec, emax. lia. }
    rewrite F2.
    change (shr (shr_record_of_loc (2 ^ 53) loc_Exact) e1 1)
      with ({| shr_m := 2 ^ 52; shr_r := false; shr_s := false |}, (e1 + 1)%Z).
    cbn [shr_m].
    change (2 ^ 52)%Z with (Zpos (Pos.pow 2 52)).
    exists (Pos.pow 2 52), (e1 + 1)%Z.
    assert (Le : (e1 + 1 <=? emax - prec)%Z = true)
      by (apply Z.leb_le; unfold emax, prec; rewrite He1; unfold n; lia).
    rewrite Le. split; [reflexivity|].
    assert (Dq : Zpos (digits2_pos (Pos.pow 2 52)) = 53%Z) by reflexivity.
    split.
    { unfold bounded, canonical_mantissa. rewrite Le, Dq.
      unfold fexp, SpecFloat.emin, prec, emax.
      rewrite andb_true_r. apply Z.eqb_eq. lia. }
    split; [exact Dq|]. split; [rewrite He1; unfold n; lia|].
    split; [rewrite He1; lia|].
    replace (e1 + 1 - ex)%Z with (n + 1)%Z by (rewrite He1; lia).
    rewrite Z.pow_add_r by lia.
    replace (Zpos (Pos.pow 2 52) * (2 ^ n * 2 ^ 1))%Z
      with (2 ^ 53 * 2 ^ n)%Z by (change (2 ^ 1)%Z with 2%Z;
        change (Zpos (Pos.pow 2 52)) with (2 ^ 52)%Z;
        change (2 ^ 53)%Z with (2 ^ 52 * 2)%Z; ring).
    exact Herr.
Qed.


Lemma pow2_Q_pos (e : Z) : 0 < 2 ^ e.
Proof. apply Qpower_0_lt. reflexivity. Qed.

Lemma pow2_Q_add (a b : Z) : 2 ^ (a + b) == 2 ^ a * 2 ^ b.
Proof. apply Qpower_plus. discriminate. Qed.

Lemma pow2_Q_inject (k : Z) : (0 <= k)%Z -> inject_Z (2 ^ k) == 2 ^ k.
Proof. intros Hk. rewrite Zpower_Qpower by exact Hk. reflexivity. Qed.

(** Both sides of an error bound may be scaled by a positive number. *)
Lemma scale_err (A y W C v x : Q) :
  0 < W -> Qabs (A - y) * C <= y -> v == A * W -> x == y * W ->
  Qabs (v - x) * C <= x.
Proof.
  intros HW H Ev Ex.
  assert (E : v - x == (A - y) * W) by (rewrite Ev, Ex; ring).
  rewrite E, Qabs_Qmult, (Qabs_pos W) by lra. rewrite Ex.
  assert (H' : Qabs (A - y) * C * W <= y * W)
    by (apply Qmult_le_compat_r; [exact H | lra]).
  lra.
Qed.

Lemma value_pos (m : positive) (e : Z) : 0 < F64.value false m e.
Proof.
  unfold F64.value. apply Qmult_lt_0_compat; [reflexivity | apply pow2_Q_pos].
Qed.

Lemma value_shift (m : positive) (e k : Z) :
  (0 <= k)%Z ->
  F64.value false m (e + k) == inject_Z (Zpos m * 2 ^ k) * 2 ^ e.
Proof.
  intros Hk. unfold F64.value.
  rewrite pow2_Q_add, inject_Z_mult, pow2_Q_inject by exact Hk. ring.
Qed.

(** The product of two normal floats, when it is within the normal range. *)
Lemma SFmul_correct (sx sy : bool) (mx my : positive) (ex ey : Z) :
  Zpos (digits2_pos mx) = 53%Z -> Zpos (digits2_pos my) = 53%Z ->
  (-1126 <= ex + ey)%Z -> (ex + ey <= 917)%Z ->
  exists m e,
    SFmul prec emax (S754_finite sx mx ex) (S754_finite sy my ey)
      = S754_finite (xorb sx sy) m e /\
    bounded prec emax m e = true /\
    Zpos (digits2_pos m) = 53%Z /\
    (ex + ey + 52 <= e <= ex + ey + 54)%Z /\
    Qabs (F64.value false m e - F64.value false mx ex * F64.value false my ey)
      * inject_Z (2 ^ 53)
    <= F64.value false mx ex * F64.value false my ey.
Proof.
  intros Dx Dy Hlo Hhi. cbn [SFmul].
  pose proof (digits2_pos_bounds mx) as [Xlo Xhi].
  pose proof (digits2_pos_bounds my) as [Ylo Yhi].
  rewrite Dx in Xlo, Xhi. rewrite Dy in Ylo, Yhi.
  change (53 - 1)%Z with 52%Z in *.
  assert (P52 : (0 < 2 ^ 52)%Z) by (apply Z.pow_pos_nonneg; lia).
  assert (Plo : (2 ^ 104 <= Zpos (mx * my))%Z).
  { rewrite Pos2Z.inj_mul. change (2 ^ 104)%Z with (2 ^ 52 * 2 ^ 52)%Z.
    apply Z.mul_le_mono_nonneg; lia. }
  assert (Phi : (Zpos (mx * my) < 2 ^ 106)%Z).
  { rewrite Pos2Z.inj_mul. change (2 ^ 106)%Z with (2 ^ 53 * 2 ^ 53)%Z.
    apply Z.mul_lt_mono_nonneg; lia. }
  assert (D1 : (104 < Zpos (digits2_pos (mx * my)))%Z)
    by (apply digits_ge; [exact Plo | lia]).
  assert (D2 : (Zpos (digits2_pos (mx * my)) <= 106)%Z).
  { pose proof (digits2_pos_bounds (mx * my)) as [Dlo _].
    assert (Zpos (digits2_pos (mx * my)) - 1 < 106)%Z; [|lia].
    apply (Z.pow_lt_mono_r_iff 2); lia. }
  destruct (binary_round_aux_correct (xorb sx sy) (Zpos (mx * my)) (ex + ey)
              loc_Exact (inject_Z (Zpos (mx * my))))
    as (m & e & Hr & Hb & Hd & He & Hle & Herr).
  - apply Z.le_trans with (2 ^ 104)%Z; [|exact Plo].
    apply Z.pow_le_mono_r; lia.
  - unfold F64.located. cbn. reflexivity.
  - cbn [Zdigits2]. lia.
  - cbn [Zdigits2]. lia.
  - cbn [Zdigits2] in He.
    exists m, e. split; [exact Hr|]. split; [exact Hb|]. split; [exact Hd|].
    split; [lia|].
    apply (scale_err (inject_Z (Zpos m * 2 ^ (e - (ex + ey))))
             (inject_Z (Zpos (mx * my))) (2 ^ (ex + ey)));
      [apply pow2_Q_pos | exact Herr | |].
    + rewrite <- value_shift by lia. replace (ex + ey + (e - (ex + ey)))%Z
        with e by lia. reflexivity.
    + unfold F64.value. rewrite Pos2Z.inj_mul, inject_Z_mult, pow2_Q_add. ring.
Qed.


(** Where a remainder lies in its divisor. *)
Lemma ratio_cmp (r M : Z) :
  (0 < M)%Z ->
  let rho := inject_Z r / inject_Z M in
  ((2 * r < M)%Z -> rho < 1 # 2) /\
  ((2 * r = M)%Z -> rho == 1 # 2) /\
  ((M < 2 * r)%Z -> 1 # 2 < rho) /\
  ((0 < r)%Z -> 0 < rho) /\
  ((r < M)%Z -> rho < 1) /\
  (r = 0%Z -> rho == 0).
Proof.
  intros HM rho.
  assert (HMq : 0 < inject_Z M)
    by (change 0 with (inject_Z 0); rewrite <- Zlt_Qlt; exact HM).
  assert (E2 : forall z, inject_Z (2 * z) == 2 * inject_Z z)
    by (intros z; rewrite inject_Z_mult; reflexivity).
  repeat split.
  - intros H. apply Qlt_shift_div_r; [exact HMq|].
    rewrite Zlt_Qlt, E2 in H. lra.
  - intros H. unfold rho.
    assert (H' : inject_Z (2 * r) == inject_Z M) by (rewrite H; reflexivity).
    rewrite E2 in H'. field_simplify_eq; [lra|lra].
  - intros H. apply Qlt_shift_div_l; [exact HMq|].
    rewrite Zlt_Qlt, E2 in H. lra.
  - intros H. apply Qlt_shift_div_l; [exact HMq|].
    rewrite Zlt_Qlt in H. change (inject_Z 0) with 0 in H. lra.
  - intros H. apply Qlt_shift_div_r; [exact HMq|].
    rewrite Zlt_Qlt in H. lra.
  - intros ->. unfold rho. change (inject_Z 0) with 0. field. lra.
Qed.

(** [new_location] places the quotient of a division with remainder. *)
Lemma new_location_located (M r q : Z) :
  (0 < M)%Z -> (0 <= r < M)%Z ->
  F64.located (shr_record_of_loc q (new_location M r))
          (inject_Z q + inject_Z r / inject_Z M).
Proof.
  intros HM Hr.
  destruct (ratio_cmp r M HM) as (Clt & Ceq & Cgt & Cpos & C1 & C0).
  set (rho := inject_Z r / inject_Z M) in *.
  unfold new_location.
  destruct (Z.even M) eqn:Ev.
  - unfold new_location_even.
    destruct (Z.eqb_spec r 0) as [E|E].
    + unfold F64.located. cbn. specialize (C0 E). lra.
    + assert (Hp : 0 < rho) by (apply Cpos; lia).
      destruct (Z.compare_spec (2 * r) M) as [C|C|C]; unfold F64.located; cbn.
      * specialize (Ceq C). lra.
      * specialize (Clt C). lra.
      * specialize (Cgt C). specialize (C1 (proj2 Hr)). lra.
  - unfold new_location_odd.
    destruct (Z.eqb_spec r 0) as [E|E].
    + unfold F64.located. cbn. specialize (C0 E). lra.
    + assert (Hp : 0 < rho) by (apply Cpos; lia).
      assert (Hodd : (2 * r <> M)%Z).
      { intros <-. rewrite Z.even_mul in Ev. discriminate. }
      destruct (Z.compare_spec (2 * r + 1) M) as [C|C|C]; unfold F64.located; cbn.
      * assert (L : (2 * r < M)%Z) by lia. specialize (Clt L). lra.
      * assert (L : (2 * r < M)%Z) by lia. specialize (Clt L). lra.
      * assert (L : (M < 2 * r)%Z) by lia. specialize (Cgt L).
        specialize (C1 (proj2 Hr)). lra.
Qed.

(** The quotient of two finite floats, whatever their mantissas, when it is
    within the normal range. *)
Lemma SFdiv_correct (sx sy : bool) (mx my : positive) (ex ey : Z) :
  let E := (Zpos (digits2_pos mx) + ex - (Zpos (digits2_pos my) + ey))%Z in
  (-1021 <= E)%Z -> (E <= 1022)%Z ->
  exists m e,
    SFdiv prec emax (S754_finite sx mx ex) (S754_finite sy my ey)
      = S754_finite (xorb sx sy) m e /\
    bounded prec emax m e = true /\
    Zpos (digits2_pos m) = 53%Z /\
    (E - 53 <= e <= E - 51)%Z /\
    Qabs (F64.value false m e - F64.value false mx ex / F64.value false my ey)
      * inject_Z (2 ^ 53)
    <= F64.value false mx ex / F64.value false my ey.
Proof.
  intros E Hlo Hhi. cbn [SFdiv]. unfold SFdiv_core_binary.
  cbn [Zdigits2].
  pose proof (digits2_pos_bounds mx) as [Xlo Xhi].
  pose proof (digits2_pos_bounds my) as [Ylo Yhi].
  set (d1 := Zpos (digits2_pos mx)) in *.
  set (d2 := Zpos (digits2_pos my)) in *.
  assert (Hd1 : (0 < d1)%Z) by (unfold d1; lia).
  assert (Hd2 : (0 < d2)%Z) by (unfold d2; lia).
  fold E.
  assert (F : fexp prec emax E = (E - 53)%Z)
    by (unfold fexp, SpecFloat.emin, prec, emax; lia).
  rewrite F.
  set (e' := Z.min (E - 53) (ex - ey)).
  set (s := (ex - ey - e')%Z).
  assert (Hs : (0 <= s)%Z) by (unfold s, e'; lia).
  assert (Hs' : (d2 + 53 <= d1 + s)%Z) by (unfold s, e', E; lia).
  set (m' := match s with
             | Zpos _ => Z.shiftl (Zpos mx) s
             | Z0 => Zpos mx
             | Zneg _ => 0%Z
             end).
  assert (Em' : m' = (Zpos mx * 2 ^ s)%Z).
  { unfold m'. destruct s as [|p|p] eqn:Es; [|apply Z.shiftl_mul_pow2; lia|lia].
    change (2 ^ 0)%Z with 1%Z. lia. }
  clearbody m'.
  assert (Ps : (0 < 2 ^ s)%Z) by (apply Z.pow_pos_nonneg; lia).
  (* the bounds of the shifted dividend *)
  assert (Mlo : (2 ^ (d1 + s - 1) <= m')%Z).
  { rewrite Em'. replace (d1 + s - 1)%Z with ((d1 - 1) + s)%Z by lia.
    rewrite Z.pow_add_r by lia. apply Z.mul_le_mono_nonneg_r; lia. }
  assert (Mhi : (m' < 2 ^ (d1 + s))%Z).
  { rewrite Em'. rewrite Z.pow_add_r by lia.
    apply Z.mul_lt_mono_pos_r; lia. }
  pose proof (Z_div_mod m' (Zpos my) ltac:(lia)) as Hdm.
  destruct (Z.div_eucl m' (Zpos my)) as [q r]. destruct Hdm as [Hq Hr].
  (* the bounds of the quotient *)
  assert (Qlo : (2 ^ (d1 + s - 1 - d2) <= q)%Z).
  { assert (L : (2 ^ (d1 + s - 1 - d2) * Zpos my < Zpos my * (q + 1))%Z).
    { apply Z.lt_le_trans with (2 ^ (d1 + s - 1 - d2) * 2 ^ d2)%Z.
      - apply Z.mul_lt_mono_pos_l; [apply Z.pow_pos_nonneg; lia | exact Yhi].
      - rewrite <- Z.pow_add_r by lia.
        replace (d1 + s - 1 - d2 + d2)%Z with (d1 + s - 1)%Z by lia. nia. }
    nia. }
  assert (Qhi : (q < 2 ^ (d1 + s - d2 + 1))%Z).
  { assert (L : (Zpos my * q < 2 ^ (d1 + s - d2 + 1) * Zpos my)%Z).
    { apply Z.le_lt_trans with m'; [lia|].
      apply Z.lt_le_trans with (2 ^ (d1 + s))%Z; [exact Mhi|].
      replace (d1 + s)%Z with ((d1 + s - d2 + 1) + (d2 - 1))%Z at 1 by lia.
      rewrite Z.pow_add_r by lia.
      apply Z.mul_le_mono_nonneg_l; [apply Z.pow_nonneg; lia | exact Ylo]. }
    nia. }
  assert (Q52 : (2 ^ 52 <= q)%Z).
  { apply Z.le_trans with (2 ^ (d1 + s - 1 - d2))%Z; [|exact Qlo].
    apply Z.pow_le_mono_r; lia. }
  assert (P52 : (0 < 2 ^ 52)%Z) by (apply Z.pow_pos_nonneg; lia).
  destruct q as [|pq|pq]; [lia| |lia].
  assert (Dq1 : (d1 + s - 1 - d2 < Zpos (digits2_pos pq))%Z)
    by (apply digits_ge; [exact Qlo | lia]).
  assert (Dq2 : (Zpos (digits2_pos pq) <= d1 + s - d2 + 1)%Z).
  { pose proof (digits2_pos_bounds pq) as [Dlo _].
    assert (Zpos (digits2_pos pq) - 1 < d1 + s - d2 + 1)%Z; [|lia].
    apply (Z.pow_lt_mono_r_iff 2); lia. }
  assert (Ee' : (d1 + s - d2 + e' = E)%Z) by (unfold s, E; lia).
  destruct (binary_round_aux_correct (xorb sx sy) (Zpos pq) e'
              (new_location (Zpos my) r)
              (inject_Z (Zpos pq) + inject_Z r / inject_Z (Zpos my)))
    as (m & e & Hres & Hb & Hd & He & Hle & Herr).
  - exact Q52.
  - apply new_location_located; lia.
  - cbn [Zdigits2]. lia.
  - cbn [Zdigits2]. lia.
  - cbn [Zdigits2] in He.
    exists m, e. split; [exact Hres|]. split; [exact Hb|]. split; [exact Hd|].
    split; [lia|].
    apply (scale_err (inject_Z (Zpos m * 2 ^ (e - e')))
             (inject_Z (Zpos pq) + inject_Z r / inject_Z (Zpos my))
             (2 ^ e'));
      [apply pow2_Q_pos | exact Herr | |].
    + rewrite <- value_shift by lia.
      replace (e' + (e - e'))%Z with e by lia. reflexivity.
    + unfold F64.value.
      assert (Eq1 : inject_Z (Zpos mx) * inject_Z (2 ^ s)
                    == inject_Z (Zpos my) * inject_Z (Zpos pq) + inject_Z r).
      { rewrite <- !inject_Z_mult, <- inject_Z_plus, <- Hq, Em'.
        reflexivity. }
      rewrite pow2_Q_inject in Eq1 by exact Hs.
      assert (Ex : 2 ^ ex == 2 ^ s * 2 ^ e' * 2 ^ ey).
      { rewrite <- !pow2_Q_add. replace (s + e' + ey)%Z with ex
          by (unfold s; lia). reflexivity. }
      pose proof (pow2_Q_pos ey) as Pey. pose proof (pow2_Q_pos e') as Pe'.
      pose proof (pow2_Q_pos s) as Pss.
      assert (Pm : 0 < inject_Z (Zpos my)) by reflexivity.
      rewrite Ex.
      assert (G : inject_Z (Zpos mx) * (2 ^ s * 2 ^ e' * 2 ^ ey)
                  == (inject_Z (Zpos my) * inject_Z (Zpos pq) + inject_Z r)
                     * (2 ^ e' * 2 ^ ey))
        by (rewrite <- Eq1; ring).
      rewrite G. field. split; lra.
Qed.


(** [to_Q] is the F64.value of a finite float. *)
Lemma to_Q_value (x : F64.float) (s : bool) (m : positive) (e : Z) :
  Prim2SF x = S754_finite s m e ->
  exists v, F64.to_Q x = Some v /\ v == F64.value s m e.
Proof.
  intros H. unfold F64.to_Q. rewrite H. eexists. split; [reflexivity|].
  unfold F64.value. set (n := if s then Zneg m else Zpos m).
  destruct e as [|p|p].
  - change (2 ^ 0) with 1. ring.
  - rewrite inject_Z_mult. change (Z.pow_pos 2 p) with (2 ^ Zpos p)%Z.
    rewrite pow2_Q_inject by lia. reflexivity.
  - rewrite Qred_correct, Qmake_Qdiv, Pos2Z.inj_pow.
    rewrite pow2_Q_inject by lia.
    change (Zneg p) with (- Zpos p)%Z. rewrite Qpower_opp. reflexivity.
Qed.

(** The mantissa and the exponent of a float are canonical. *)
Lemma valid_canonical (x : F64.float) (s : bool) (m : positive) (e : Z) :
  Prim2SF x = S754_finite s m e ->
  (Zpos (digits2_pos m) <= 53)%Z /\ (-1074 <= e <= 971)%Z /\
  (Zpos (digits2_pos m) = 53%Z \/ e = (-1074)%Z).
Proof.
  intros H. pose proof (Prim2SF_valid x) as V. rewrite H in V.
  cbn [valid_binary] in V. unfold bounded, canonical_mantissa in V.
  apply andb_true_iff in V as [V1 V2].
  apply Z.eqb_eq in V1. apply Z.leb_le in V2.
  unfold fexp, SpecFloat.emin, prec, emax in V1, V2. lia.
Qed.

Lemma value_bounds (m : positive) (e : Z) :
  2 ^ (Zpos (digits2_pos m) - 1 + e) <= F64.value false m e /\
  F64.value false m e < 2 ^ (Zpos (digits2_pos m) + e).
Proof.
  pose proof (digits2_pos_bounds m) as [Dlo Dhi].
  pose proof (pow2_Q_pos e) as Pe.
  unfold F64.value. rewrite !pow2_Q_add. split.
  - apply Qmult_le_compat_r; [|lra].
    rewrite <- pow2_Q_inject by lia. rewrite <- Zle_Qle. exact Dlo.
  - apply Qmult_lt_compat_r; [lra|].
    rewrite <- pow2_Q_inject by lia. rewrite <- Zlt_Qlt. exact Dhi.
Qed.

Lemma value_neg (m : positive) (e : Z) : F64.value true m e < 0.
Proof.
  unfold F64.value. pose proof (pow2_Q_pos e) as Pe.
  assert (E : inject_Z (Zneg m) * 2 ^ e == - (inject_Z (Zpos m) * 2 ^ e)).
  { change (Zneg m) with (- Zpos m)%Z. rewrite inject_Z_opp. ring. }
  rewrite E.
  assert (0 < inject_Z (Zpos m) * 2 ^ e)
    by (apply Qmult_lt_0_compat; [reflexivity | exact Pe]).
  lra.
Qed.

(** A sane quantity is a positive normal float. *)
Lemma sane_normal (x : F64.float) :
  F64.sane x = true ->
  exists m e v,
    Prim2SF x = S754_finite false m e /\ Zpos (digits2_pos m) = 53%Z /\
    (-59 <= e <= 948)%Z /\
    F64.to_Q x = Some v /\ v == F64.value false m e.
Proof.
  unfold F64.sane. intros H.
  destruct (Prim2SF x) as [s|s| |s m e] eqn:Ex.
  - unfold F64.to_Q in H. rewrite Ex in H. discriminate.
  - unfold F64.to_Q in H. rewrite Ex in H. discriminate.
  - unfold F64.to_Q in H. rewrite Ex in H. discriminate.
  - destruct (to_Q_value x s m e Ex) as (v & Ev & Hv).
    rewrite Ev in H. apply andb_true_iff in H as [Hlo Hhi].
    apply Qle_bool_iff in Hlo, Hhi.
    rewrite pow2_Q_inject in Hhi by lia.
    destruct s.
    { pose proof (value_neg m e). lra. }
    destruct (valid_canonical x false m e Ex) as (Hd & He & Hc).
    pose proof (value_bounds m e) as [Vlo Vhi].
    assert (L1 : 2 ^ (-7) < 2 ^ (Zpos (digits2_pos m) + e)).
    { change (2 ^ (-7)) with (1 # 128). lra. }
    apply Qpower_lt_compat_l_inv in L1; [|reflexivity].
    assert (D : Zpos (digits2_pos m) = 53%Z) by lia.
    assert (L2 : 2 ^ (Zpos (digits2_pos m) - 1 + e) <= 2 ^ 1000) by lra.
    apply Qpower_le_compat_l_inv in L2; [|reflexivity].
    exists m, e, v. repeat split; try assumption; lia.
Qed.

(** The order of two positive normal floats is the order of their
    values. *)
Lemma value_lt_exp (m1 m2 : positive) (e1 e2 : Z) :
  Zpos (digits2_pos m1) = 53%Z -> Zpos (digits2_pos m2) = 53%Z ->
  (e1 < e2)%Z -> F64.value false m1 e1 < F64.value false m2 e2.
Proof.
  intros D1 D2 He.
  pose proof (value_bounds m1 e1) as [_ H1].
  pose proof (value_bounds m2 e2) as [H2 _].
  rewrite D1 in H1. rewrite D2 in H2.
  assert (L : 2 ^ (53 + e1) <= 2 ^ (53 - 1 + e2))
    by (apply Qpower_le_compat_l; [lia | discriminate]).
  lra.
Qed.

Lemma value_lt_man (m1 m2 : positive) (e : Z) :
  (m1 < m2)%positive -> F64.value false m1 e < F64.value false m2 e.
Proof.
  intros H. unfold F64.value. apply Qmult_lt_compat_r; [apply pow2_Q_pos|].
  rewrite <- Zlt_Qlt. lia.
Qed.

Lemma ltb_value (x y : F64.float) (m1 m2 : positive) (e1 e2 : Z) :
  Prim2SF x = S754_finite false m1 e1 -> Zpos (digits2_pos m1) = 53%Z ->
  Prim2SF y = S754_finite false m2 e2 -> Zpos (digits2_pos m2) = 53%Z ->
  if F64.ltb x y then F64.value false m1 e1 < F64.value false m2 e2
  else F64.value false m2 e2 <= F64.value false m1 e1.
Proof.
  intros Hx D1 Hy D2. unfold F64.ltb. rewrite ltb_spec, Hx, Hy.
  unfold SFltb. cbn [SFcompare].
  destruct (Z.compare_spec e1 e2) as [E|E|E].
  - subst e2. rewrite Pos.compare_cont_spec. cbn [Pos.switch_Eq].
    destruct (Pos.compare_spec m1 m2) as [C|C|C].
    + subst m2. apply Qle_refl.
    + apply value_lt_man. exact C.
    + apply Qlt_le_weak, value_lt_man. exact C.
  - apply value_lt_exp; assumption.
  - apply Qlt_le_weak, value_lt_exp; assumption.
Qed.


Lemma reference_bits :
  Prim2SF F64.reference = S754_finite false 6755399441055744 (-52).
Proof. reflexivity. Qed.

Lemma reference_value : F64.value false 6755399441055744 (-52) == 3 # 2.
Proof. reflexivity. Qed.

(** An error bound as an interval. *)
Lemma err_interval (v x : Q) :
  Qabs (v - x) * inject_Z (2 ^ 53) <= x ->
  x * (9007199254740991 # 9007199254740992) <= v /\
  v <= x * (9007199254740993 # 9007199254740992).
Proof.
  change (inject_Z (2 ^ 53)) with (9007199254740992 # 1). intros H.
  destruct (Qabs_Qle_condition (v - x) (Qabs (v - x))) as [L _].
  specialize (L (Qle_refl _)). lra.
Qed.

(** [round] within half a unit of a whole number. *)
Lemma round_ge_half (n : Z) (x : Q) :
  inject_Z n - (1 # 2) < x -> (n <= PyFloat.round x)%Z.
Proof.
  intros H. pose proof (round_near x) as Hn.
  apply Qabs_Qle_condition in Hn.
  assert (L : inject_Z (n - 1) < inject_Z (PyFloat.round x)).
  { unfold Z.sub. rewrite inject_Z_plus, inject_Z_opp.
    change (inject_Z 1) with 1. lra. }
  rewrite <- Zlt_Qlt in L. lia.
Qed.

Lemma round_le_half_up (n : Z) (x : Q) :
  x < inject_Z n + (1 # 2) -> (PyFloat.round x <= n)%Z.
Proof.
  intros H. pose proof (round_near x) as Hn.
  apply Qabs_Qle_condition in Hn.
  assert (L : inject_Z (PyFloat.round x) < inject_Z (n + 1)).
  { rewrite inject_Z_plus. change (inject_Z 1) with 1. lra. }
  rewrite <- Zlt_Qlt in L. lia.
Qed.

(** The factor [1.5 / m] for a sane least quantity. *)
Lemma factor_normal (x factor : F64.float) (m : positive) (e : Z) :
  Prim2SF x = S754_finite false m e -> Zpos (digits2_pos m) = 53%Z ->
  (-59 <= e <= 948)%Z ->
  F64.div F64.reference x = Ok factor ->
  exists mf ef,
    Prim2SF factor = S754_finite false mf ef /\
    Zpos (digits2_pos mf) = 53%Z /\ (-1053 <= ef <= -44)%Z /\
    Qabs (F64.value false mf ef - (3 # 2) / F64.value false m e) * inject_Z (2 ^ 53)
    <= (3 # 2) / F64.value false m e.
Proof.
  intros Hx D He Hdiv. unfold F64.div in Hdiv.
  destruct (F64.eqb x F64.zero); [discriminate|].
  injection Hdiv as <-.
  rewrite div_spec, reference_bits, Hx.
  destruct (SFdiv_correct false false 6755399441055744 m (-52) e)
    as (mf & ef & Hr & _ & Hd & Hef & Herr).
  - rewrite D. change (Zpos (digits2_pos 6755399441055744)) with 53%Z. lia.
  - rewrite D. change (Zpos (digits2_pos 6755399441055744)) with 53%Z. lia.
  - rewrite D in Hef.
    change (Zpos (digits2_pos 6755399441055744)) with 53%Z in Hef.
    exists mf, ef. split; [exact Hr|]. split; [exact Hd|]. split; [lia|].
    rewrite <- reference_value. exact Herr.
Qed.

(** The product of a sane quantity and such a factor. *)
Lemma product_normal (q f : F64.float) (mq mf : positive) (eq ef : Z) :
  Prim2SF q = S754_finite false mq eq -> Zpos (digits2_pos mq) = 53%Z ->
  (-59 <= eq <= 948)%Z ->
  Prim2SF f = S754_finite false mf ef -> Zpos (digits2_pos mf) = 53%Z ->
  (-1053 <= ef <= -44)%Z ->
  exists mp ep,
    Prim2SF (F64.mul q f) = S754_finite false mp ep /\
    Zpos (digits2_pos mp) = 53%Z /\ (ep <= 958)%Z /\
    Qabs (F64.value false mp ep - F64.value false mq eq * F64.value false mf ef)
      * inject_Z (2 ^ 53)
    <= F64.value false mq eq * F64.value false mf ef.
Proof.
  intros Hq Dq Heq Hf Df Hef. unfold F64.mul. rewrite mul_spec, Hq, Hf.
  destruct (SFmul_correct false false mq mf eq ef Dq Df)
    as (mp & ep & Hr & _ & Hd & Hep & Herr); [lia|lia|].
  exists mp, ep. split; [exact Hr|]. split; [exact Hd|]. split; [lia|].
  exact Herr.
Qed.

(** The float of [k / 100] for a whole number [k] of hundredths, of
    either sign. *)
Lemma of_ratio_signed (s : bool) (p : positive) :
  (Zpos (digits2_pos p) <= 1029)%Z ->
  exists m e,
    Prim2SF (SF2Prim (SFdiv prec emax (S754_finite s p 0)
                        (S754_finite false 100 0)))
    = S754_finite s m e /\
    Zpos (digits2_pos m) = 53%Z /\
    Qabs (F64.value false m e - inject_Z (Zpos p) / 100) * inject_Z (2 ^ 53)
    <= inject_Z (Zpos p) / 100.
Proof.
  intros Hd.
  destruct (SFdiv_correct s false p 100 0 0)
    as (m & e & Hr & Hb & Hm & _ & Herr).
  - change (Zpos (digits2_pos 100)) with 7%Z.
    pose proof (Pos2Z.is_pos (digits2_pos p)). lia.
  - change (Zpos (digits2_pos 100)) with 7%Z. lia.
  - rewrite xorb_false_r in Hr.
    exists m, e. rewrite Hr. split.
    + apply Prim2SF_SF2Prim. exact Hb.
    + split; [exact Hm|].
      assert (E1 : F64.value false p 0 == inject_Z (Zpos p))
        by (unfold F64.value; change (2 ^ 0) with 1; ring).
      assert (E2 : F64.value false 100 0 == 100) by reflexivity.
      rewrite E1, E2 in Herr. exact Herr.
Qed.

Lemma of_ratio_hundredths (p : positive) :
  (Zpos (digits2_pos p) <= 1029)%Z ->
  exists m e,
    Prim2SF (F64.of_ratio (Zpos p) 100) = S754_finite false m e /\
    Zpos (digits2_pos m) = 53%Z /\
    Qabs (F64.value false m e - inject_Z (Zpos p) / 100) * inject_Z (2 ^ 53)
    <= inject_Z (Zpos p) / 100.
Proof. exact (of_ratio_signed false p). Qed.

Lemma digits_le (p : positive) (k : Z) :
  (Zpos p < 2 ^ k)%Z -> (0 <= k)%Z -> (Zpos (digits2_pos p) <= k)%Z.
Proof.
  intros H Hk. pose proof (digits2_pos_bounds p) as [Dlo _].
  assert (Zpos (digits2_pos p) - 1 < k)%Z; [|lia].
  apply (Z.pow_lt_mono_r_iff 2); lia.
Qed.

(** What [hundredths] denotes. *)
Lemma hundredths_value (s : bool) (k : Z) :
  (Z.abs k < 2 ^ 1029)%Z ->
  exists w : Q,
    F64.to_Q (F64.hundredths s k) = Some w /\
    Qabs (w - inject_Z k / 100) * inject_Z (2 ^ 53)
    <= Qabs (inject_Z k / 100).
Proof.
  intros Hk. destruct k as [|p|p]; cbn [F64.hundredths F64.of_ratio].
  - exists 0. split; [destruct s; reflexivity|]. cbn. discriminate.
  - destruct (of_ratio_signed false p (digits_le p 1029 Hk ltac:(lia)))
      as (m & e & Hr & _ & Herr).
    destruct (to_Q_value _ _ _ _ Hr) as (w & Ew & Hw).
    exists w. split; [exact Ew|]. rewrite Hw.
    rewrite (Qabs_pos (inject_Z (Zpos p) / 100)); [exact Herr|].
    apply Qle_shift_div_l; [reflexivity|].
    change (0 * 100) with 0. change 0 with (inject_Z 0).
    rewrite <- Zle_Qle. lia.
  - destruct (of_ratio_signed true p (digits_le p 1029 Hk ltac:(lia)))
      as (m & e & Hr & _ & Herr).
    destruct (to_Q_value _ _ _ _ Hr) as (w & Ew & Hw).
    exists w. split; [exact Ew|].
    assert (En : inject_Z (Zneg p) / 100 == - (inject_Z (Zpos p) / 100)).
    { change (Zneg p) with (- Zpos p)%Z. rewrite inject_Z_opp.
      unfold Qdiv. ring. }
    assert (Ev : F64.value true m e == - F64.value false m e).
    { unfold F64.value. change (Zneg m) with (- Zpos m)%Z.
      rewrite inject_Z_opp. ring. }
    assert (E : w - inject_Z (Zneg p) / 100
                == - (F64.value false m e - inject_Z (Zpos p) / 100))
      by (rewrite Hw, Ev, En; ring).
    rewrite E, En, !Qabs_opp.
    rewrite (Qabs_pos (inject_Z (Zpos p) / 100)); [exact Herr|].
    apply Qle_shift_div_l; [reflexivity|].
    change (0 * 100) with 0. change 0 with (inject_Z 0).
    rewrite <- Zle_Qle. lia.
Qed.


Lemma hundredths_ratio (k : Z) : inject_Z k / 100 == inject_Z k * (1 # 100).
Proof. reflexivity. Qed.

(** A whole number of hundredths from 1.5 up is a float that is not below
    1.5. *)
Lemma hundredths_from_reference (k : Z) :
  (150 <= k)%Z -> (k < 2 ^ 1018)%Z ->
  exists w,
    F64.to_Q (F64.hundredths false k) = Some w /\
    Qabs (w - inject_Z k / 100) * inject_Z (2 ^ 53) <= inject_Z k / 100 /\
    F64.ltb (F64.hundredths false k) F64.reference = false.
Proof.
  intros Hk Hhi. destruct k as [|p|p]; [lia| |lia].
  cbn [F64.hundredths].
  assert (Hd : (Zpos (digits2_pos p) <= 1029)%Z).
  { pose proof (digits2_pos_bounds p) as [Dlo _].
    assert (Zpos (digits2_pos p) - 1 < 1018)%Z; [|lia].
    apply (Z.pow_lt_mono_r_iff 2); lia. }
  destruct (of_ratio_hundredths p Hd) as (m & e & Hr & Hm & Herr).
  destruct (to_Q_value _ _ _ _ Hr) as (w & Ew & Hw).
  exists w. split; [exact Ew|]. split; [rewrite Hw; exact Herr|].
  destruct (Z.eq_dec (Zpos p) 150%Z) as [E|E].
  - injection E as ->. vm_compute. reflexivity.
  - pose proof (ltb_value _ _ _ _ _ _ Hr Hm reference_bits eq_refl) as L.
    destruct (F64.ltb (F64.of_ratio (Zpos p) 100) F64.reference);
      [exfalso|reflexivity].
    rewrite reference_value in L.
    apply err_interval in Herr as [Hlo _].
    rewrite hundredths_ratio in Hlo.
    assert (K : inject_Z 151 <= inject_Z (Zpos p))
      by (rewrite <- Zle_Qle; lia).
    change (inject_Z 151) with 151 in K. lra.
Qed.

(** One positive quantity under [_scale], when it and the least one are
    sane. *)
Lemma normalise_one (q m factor : F64.float) (vm : Q) :
  F64.sane q = true -> F64.sane m = true ->
  F64.ltb q m = false ->
  F64.div F64.reference m = Ok factor ->
  F64.to_Q m = Some vm ->
  exists (vq : Q) (k : Z) (w : Q),
    F64.to_Q q = Some vq /\
    F64.round2 (F64.mul q factor) = F64.hundredths false k /\
    (150 <= k)%Z /\
    Qabs (inject_Z k / 100 - vq * (3 # 2) / vm)
    <= (1 # 200) + vq * (3 # 2) / vm * (1 # 2251799813685248) /\
    F64.to_Q (F64.hundredths false k) = Some w /\
    Qabs (w - inject_Z k / 100) * inject_Z (2 ^ 53) <= inject_Z k / 100 /\
    (q = m -> k = 150%Z) /\
    F64.ltb (F64.hundredths false k) F64.reference = false.
Proof.
  intros Sq Sm Hle Hdiv Hvm.
  destruct (sane_normal q Sq) as (mq & eq & vq & Hq & Dq & Heq & Evq & Hvq).
  destruct (sane_normal m Sm) as (mm & em & vm' & Hm & Dm & Hem & Evm & Hvm').
  rewrite Evm in Hvm. injection Hvm as ->.
  pose proof (ltb_value q m _ _ _ _ Hq Dq Hm Dm) as Hord.
  rewrite Hle in Hord.
  destruct (factor_normal m factor mm em Hm Dm Hem Hdiv)
    as (mf & ef & Hf & Df & Hef & Ferr).
  destruct (product_normal q factor mq mf eq ef Hq Dq Heq Hf Df Hef)
    as (mp & ep & Hp & Dp & Hep & Perr).
  destruct (to_Q_value _ _ _ _ Hp) as (vp & Evp & Hvp).
  pose proof (value_pos mq eq) as Pq. pose proof (value_pos mm em) as Pm.
  pose proof (value_bounds mp ep) as [_ Vhi]. rewrite Dp in Vhi.
  rewrite <- Hvq in Perr, Hord, Pq. rewrite <- Hvm' in Ferr, Hord, Pm.
  rewrite <- Hvp in Perr, Vhi.
  clear Hvq Hvm' Hvp.
  (* the exact quotient [T] and the two rounding errors *)
  set (T := vq * (3 # 2) / vm).
  assert (ET : T == vq * ((3 # 2) / vm)) by (unfold T; field; lra).
  assert (T32 : 3 # 2 <= T) by (rewrite ET; apply scale_up; assumption).
  apply err_interval in Ferr as [Flo Fhi].
  apply err_interval in Perr as [Plo Phi].
  set (a := (3 # 2) / vm) in *.
  set (vf := F64.value false mf ef) in *.
  assert (Ulo : vq * (a * (9007199254740991 # 9007199254740992)) <= vq * vf)
    by (apply Qmult_le_l; assumption).
  assert (Uhi : vq * vf <= vq * (a * (9007199254740993 # 9007199254740992)))
    by (apply Qmult_le_l; assumption).
  set (U := vq * vf) in *.
  assert (ET' : vq * a == T) by (symmetry; exact ET).
  assert (Blo : T * (9007199254740991 # 9007199254740992)
                  * (9007199254740991 # 9007199254740992) <= vp) by nra.
  assert (Bhi : vp <= T * (9007199254740993 # 9007199254740992)
                        * (9007199254740993 # 9007199254740992)) by nra.
  set (k := PyFloat.round (vp * 100)).
  pose proof (round_near (vp * 100)) as Hn. fold k in Hn.
  apply Qabs_Qle_condition in Hn.
  assert (K150 : (150 <= k)%Z).
  { apply round_ge_half. change (inject_Z 150) with 150. lra. }
  assert (Khi : (k < 2 ^ 1018)%Z).
  { assert (L : 2 ^ (53 + ep) <= 2 ^ 1011)
      by (apply Qpower_le_compat_l; [lia | discriminate]).
    rewrite <- (pow2_Q_inject 1011) in L by lia.
    set (B := inject_Z (2 ^ 1011)) in *.
    assert (L2 : inject_Z k < inject_Z (100 * 2 ^ 1011 + 1)).
    { rewrite inject_Z_plus, inject_Z_mult. fold B.
      change (inject_Z 100) with 100. change (inject_Z 1) with 1. lra. }
    rewrite <- Zlt_Qlt in L2.
    apply Z.lt_le_trans with (100 * 2 ^ 1011 + 1)%Z; [exact L2|].
    apply Z.leb_le. vm_compute. reflexivity. }
  destruct (hundredths_from_reference k K150 Khi) as (w & Ew & Herr & Hnb).
  exists vq, k, w.
  split; [exact Evq|]. split.
  { unfold F64.round2. rewrite Evp. fold k.
    destruct k as [|p|p]; [lia| |lia]. reflexivity. }
  split; [exact K150|]. split.
  { fold T. rewrite hundredths_ratio. apply Qabs_Qle_condition. split; lra. }
  split; [exact Ew|]. split; [exact Herr|]. split; [|exact Hnb].
  intros ->. rewrite Hm in Hq. injection Hq as <- <-.
  rewrite Evq in Evm. injection Evm as <-.
  assert (T1 : T == 3 # 2) by (unfold T; field; lra).
  apply Z.le_antisymm; [|exact K150].
  apply round_le_half_up. change (inject_Z 150) with 150. lra.
Qed.


(** What [_scale] does to a list with a positive quantity. *)
Lemma scale_liquids (lst : list F64.ingredient) :
  (exists d, In d lst /\ F64.liquid d = true) ->
  exists (m factor : F64.float),
    (exists d, In d lst /\ F64.liquid d = true /\ F64.qty_oz d = m) /\
    (forall d, In d lst -> F64.liquid d = true ->
               F64.ltb (F64.qty_oz d) m = false) /\
    F64.div F64.reference m = Ok factor /\
    F64._scale lst
    = Ok (List.map
            (fun d => if F64.liquid d
                      then F64.set_qty d
                             (F64.round2 (F64.mul (F64.qty_oz d) factor))
                      else d) lst).
Proof.
  intros (d0 & Hd0 & Hl0). unfold F64._scale.
  change (fun d : F64.ingredient => F64.gtb (F64.qty_oz d) F64.zero)
    with F64.liquid.
  destruct (List.map F64.qty_oz (List.filter F64.liquid lst))
    as [|q qs] eqn:E.
  { exfalso.
    assert (Hin : In (F64.qty_oz d0)
                    (List.map F64.qty_oz (List.filter F64.liquid lst)))
      by (apply in_map, filter_In; auto).
    rewrite E in Hin. exact Hin. }
  set (m := F64.min_from q qs).
  assert (Hin : In m (List.map F64.qty_oz (List.filter F64.liquid lst)))
    by (rewrite E; apply F64Facts.min_float_In).
  apply in_map_iff in Hin as (dm & Hqm & Hfm).
  apply filter_In in Hfm as [Hdm Hlm].
  assert (Hpos : F64.gtb m F64.zero = true) by (rewrite <- Hqm; exact Hlm).
  rewrite (F64Facts.div_pos F64.reference m Hpos), F64Facts.bind_ok.
  exists m, (PrimFloat.div F64.reference m).
  split; [exists dm; auto|]. split; [|split; [|reflexivity]].
  - intros d Hd Hl. unfold m. apply F64Facts.min_float_le. rewrite <- E.
    apply in_map, filter_In. auto.
  - exact (F64Facts.div_pos F64.reference m Hpos).
Qed.

(** Every record locates some number. *)
Lemma located_exists (mrs : shr_record) : exists y, F64.located mrs y.
Proof.
  destruct mrs as [m [|] [|]]; unfold F64.located; cbn [shr_m shr_r shr_s].
  - exists (inject_Z m + (3 # 4)). lra.
  - exists (inject_Z m + (1 # 2)). reflexivity.
  - exists (inject_Z m + (1 # 4)). lra.
  - exists (inject_Z m). reflexivity.
Qed.

(** The mantissa and the exponent after [n] shifts. *)
Lemma shr_div (mrs : shr_record) (e n : Z) :
  (0 <= shr_m mrs)%Z ->
  shr_m (fst (shr mrs e n)) = (shr_m mrs / 2 ^ Z.max n 0)%Z /\
  snd (shr mrs e n) = (e + Z.max n 0)%Z.
Proof.
  intros Hm. destruct (Z_le_gt_dec 0 n) as [Hn|Hn].
  - destruct (located_exists mrs) as [y Hy].
    destruct (shr_located mrs e n y Hm Hn Hy) as (He & _ & Hq).
    rewrite Z.max_l by lia. split; assumption.
  - destruct n as [|p|p]; [lia|lia|]. cbn [shr fst snd].
    rewrite Z.max_r by lia. change (2 ^ 0)%Z with 1%Z.
    rewrite Z.div_1_r. split; [reflexivity | lia].
Qed.

Lemma round_nearest_even_range (m : Z) (l : location) :
  (m <= round_nearest_even m l <= m + 1)%Z.
Proof.
  destruct l as [|[| |]]; cbn [round_nearest_even];
    try destruct (Z.even m); lia.
Qed.

(** A spec float of sign [s] that is a zero, an infinity or a finite
    number with a canonical mantissa. *)
Lemma binary_round_aux_valid (sx : bool) (mx ex : Z) (lx : location) :
  (0 <= mx)%Z ->
  (ex <= fexp prec emax (Zdigits2 mx + ex))%Z ->
  binary_round_aux prec emax sx mx ex lx = S754_zero sx \/
  binary_round_aux prec emax sx mx ex lx = S754_infinity sx \/
  exists m e,
    binary_round_aux prec emax sx mx ex lx = S754_finite sx m e /\
    bounded prec emax m e = true.
Proof.
  intros Hmx H. unfold binary_round_aux, shr_fexp.
  set (e1 := fexp prec emax (Zdigits2 mx + ex)) in *.
  assert (He1 : (-1074 <= e1)%Z)
    by (unfold e1, fexp, SpecFloat.emin, prec, emax; lia).
  destruct (shr_div (shr_record_of_loc mx lx) ex (e1 - ex)
              ltac:(rewrite shr_record_of_loc_m; exact Hmx)) as [Hm1 Hex1].
  rewrite shr_record_of_loc_m in Hm1.
  rewrite Z.max_l in Hm1, Hex1 by lia.
  destruct (shr (shr_record_of_loc mx lx) ex (e1 - ex)) as [mrs1 e1'].
  cbn [fst snd] in Hm1, Hex1.
  assert (Ee : e1' = e1) by lia. clear Hex1. subst e1'.
  set (m1 := shr_m mrs1) in *.
  assert (Pn : (0 < 2 ^ (e1 - ex))%Z) by (apply Z.pow_pos_nonneg; lia).
  assert (M1 : (0 <= m1 < 2 ^ 53)%Z /\ (-1074 < e1 -> 2 ^ 52 <= m1)%Z).
  { rewrite Hm1. destruct mx as [|p|p]; [| |lia].
    - rewrite Z.div_0_l by lia. split; [split; [lia|]|].
      + apply Z.pow_pos_nonneg; lia.
      + intros C. exfalso. unfold e1, fexp, SpecFloat.emin, prec, emax in *.
        cbn [Zdigits2] in *. lia.
    - pose proof (digits2_pos_bounds p) as [Dlo Dhi].
      cbn [Zdigits2] in *. set (d := Zpos (digits2_pos p)) in *.
      assert (Hd : (0 < d)%Z) by (unfold d; lia).
      assert (Hn : (d - 53 <= e1 - ex)%Z)
        by (unfold e1, fexp, SpecFloat.emin, prec, emax; lia).
      split; [split|].
      + apply Z.div_pos; lia.
      + apply Z.div_lt_upper_bound; [exact Pn|].
        rewrite <- Z.pow_add_r by lia.
        apply Z.lt_le_trans with (2 ^ d)%Z; [exact Dhi|].
        apply Z.pow_le_mono_r; lia.
      + intros C.
        assert (En : (e1 - ex = d - 53)%Z)
          by (unfold e1, fexp, SpecFloat.emin, prec, emax in *; lia).
        apply Z.div_le_lower_bound; [exact Pn|].
        rewrite <- Z.pow_add_r by lia.
        replace (e1 - ex + 52)%Z with (d - 1)%Z by lia. exact Dlo. }
  destruct M1 as [M1 M1n].
  pose proof (round_nearest_even_range m1 (loc_of_shr_record mrs1)) as M2.
  set (m2 := round_nearest_even m1 (loc_of_shr_record mrs1)) in *.
  assert (P53 : (2 ^ 53 = 9007199254740992)%Z) by reflexivity.
  assert (P52 : (2 ^ 52 = 4503599627370496)%Z) by reflexivity.
  destruct m2 as [|q|q] eqn:Em2; [| |lia].
  - (* the mantissa is zero *)
    left. cbn [Zdigits2].
    assert (F : (fexp prec emax (0 + e1) - e1 <= 0)%Z)
      by (unfold fexp, SpecFloat.emin, prec, emax; lia).
    destruct (fexp prec emax (0 + e1) - e1)%Z as [|p|p] eqn:Ef; [|lia|];
      reflexivity.
  - right. destruct (Z_lt_le_dec (Zpos q) (2 ^ 53)) as [C|C].
    + (* no carry *)
      pose proof (digits2_pos_bounds q) as [Qlo Qhi].
      assert (Dq : (Zpos (digits2_pos q) <= 53)%Z) by (apply digits_le; lia).
      assert (Dq' : (-1074 < e1 -> Zpos (digits2_pos q) = 53)%Z).
      { intros Hn. specialize (M1n Hn).
        apply digits2_pos_unique; [|lia]. change (53 - 1)%Z with 52%Z. lia. }
      cbn [Zdigits2].
      assert (F : (fexp prec emax (Zpos (digits2_pos q) + e1) - e1 = 0)%Z).
      { unfold fexp, SpecFloat.emin, prec, emax.
        destruct (Z.eq_dec e1 (-1074)%Z) as [Ee|Ne]; [rewrite Ee; lia|].
        rewrite Dq' by lia. lia. }
      rewrite F. cbn [shr shr_record_of_loc shr_m].
      destruct (e1 <=? emax - prec)%Z eqn:Le; [right|left; reflexivity].
      exists q, e1. split; [reflexivity|].
      unfold bounded, canonical_mantissa. rewrite Le, andb_true_r.
      apply Z.eqb_eq. lia.
    + (* the mantissa was rounded up to [2 ^ 53] *)
      assert (E2 : Zpos q = (2 ^ 53)%Z) by lia.
      rewrite E2. change (Zdigits2 (2 ^ 53)) with 54%Z.
      assert (F : (fexp prec emax (54 + e1) - e1 = 1)%Z)
        by (unfold fexp, SpecFloat.emin, prec, emax; lia).
      rewrite F.
      change (shr (shr_record_of_loc (2 ^ 53) loc_Exact) e1 1)
        with ({| shr_m := 2 ^ 52; shr_r := false; shr_s := false |},
              (e1 + 1)%Z).
      cbn [shr_m]. change (2 ^ 52)%Z with (Zpos (Pos.pow 2 52)).
      destruct (e1 + 1 <=? emax - prec)%Z eqn:Le; [right|left; reflexivity].
      exists (Pos.pow 2 52), (e1 + 1)%Z. split; [reflexivity|].
      unfold bounded, canonical_mantissa. rewrite Le, andb_true_r.
      apply Z.eqb_eq.
      change (Zpos (digits2_pos (Pos.pow 2 52))) with 53%Z.
      unfold fexp, SpecFloat.emin, prec, emax. lia.
Qed.

(** The sign of what [binary_round_aux] returns. *)
Lemma binary_round_aux_sign (sx : bool) (mx ex : Z) (lx : location) :
  (0 <= mx)%Z ->
  binary_round_aux prec emax sx mx ex lx = S754_zero sx \/
  binary_round_aux prec emax sx mx ex lx = S754_infinity sx \/
  exists m e, binary_round_aux prec emax sx mx ex lx = S754_finite sx m e.
Proof.
  intros Hmx. unfold binary_round_aux, shr_fexp.
  destruct (shr_div (shr_record_of_loc mx lx) ex
              (fexp prec emax (Zdigits2 mx + ex) - ex)
              ltac:(rewrite shr_record_of_loc_m; exact Hmx)) as [Hm1 _].
  rewrite shr_record_of_loc_m in Hm1.
  destruct (shr (shr_record_of_loc mx lx) ex
              (fexp prec emax (Zdigits2 mx + ex) - ex)) as [mrs1 e1].
  cbn [fst] in Hm1.
  assert (M1 : (0 <= shr_m mrs1)%Z).
  { rewrite Hm1. apply Z.div_pos; [exact Hmx|].
    apply Z.pow_pos_nonneg; lia. }
  pose proof (round_nearest_even_range (shr_m mrs1) (loc_of_shr_record mrs1))
    as M2.
  set (m2 := round_nearest_even (shr_m mrs1) (loc_of_shr_record mrs1)) in *.
  destruct (shr_div (shr_record_of_loc m2 loc_Exact) e1
              (fexp prec emax (Zdigits2 m2 + e1) - e1)
              ltac:(cbn; lia)) as [Hm3 _].
  destruct (shr (shr_record_of_loc m2 loc_Exact) e1
              (fexp prec emax (Zdigits2 m2 + e1) - e1)) as [mrs3 e3].
  cbn [fst shr_record_of_loc shr_m] in Hm3.
  assert (M3 : (0 <= shr_m mrs3)%Z).
  { rewrite Hm3. apply Z.div_pos; [lia|]. apply Z.pow_pos_nonneg; lia. }
  destruct (shr_m mrs3) as [|q|q]; [left; reflexivity| |lia].
  right. destruct (e3 <=? emax - prec)%Z; [right|left; reflexivity].
  exists q, e3. reflexivity.
Qed.

(** The quotient of two finite spec floats is a zero, an infinity or a
    canonical finite float, of the sign of the quotient. *)
Lemma SFdiv_valid (sx sy : bool) (mx my : positive) (ex ey : Z) :
  let r := SFdiv prec emax (S754_finite sx mx ex) (S754_finite sy my ey) in
  r = S754_zero (xorb sx sy) \/ r = S754_infinity (xorb sx sy) \/
  exists m e, r = S754_finite (xorb sx sy) m e /\ bounded prec emax m e = true.
Proof.
  cbn [SFdiv]. unfold SFdiv_core_binary. cbn [Zdigits2].
  pose proof (digits2_pos_bounds mx) as [Xlo Xhi].
  pose proof (digits2_pos_bounds my) as [Ylo Yhi].
  set (d1 := Zpos (digits2_pos mx)) in *.
  set (d2 := Zpos (digits2_pos my)) in *.
  assert (Hd1 : (0 < d1)%Z) by (unfold d1; lia).
  assert (Hd2 : (0 < d2)%Z) by (unfold d2; lia).
  set (E := (d1 + ex - (d2 + ey))%Z).
  set (e' := Z.min (fexp prec emax E) (ex - ey)).
  set (s := (ex - ey - e')%Z).
  assert (Hs : (0 <= s)%Z) by (unfold s, e'; lia).
  set (m' := match s with
             | Zpos _ => Z.shiftl (Zpos mx) s
             | Z0 => Zpos mx
             | Zneg _ => 0%Z
             end).
  assert (Em' : m' = (Zpos mx * 2 ^ s)%Z).
  { unfold m'. destruct s as [|p|p] eqn:Es; [|apply Z.shiftl_mul_pow2; lia|lia].
    change (2 ^ 0)%Z with 1%Z. lia. }
  clearbody m'.
  assert (Ps : (0 < 2 ^ s)%Z) by (apply Z.pow_pos_nonneg; lia).
  pose proof (Z_div_mod m' (Zpos my) ltac:(lia)) as Hdm.
  destruct (Z.div_eucl m' (Zpos my)) as [q r]. destruct Hdm as [Hq Hr].
  assert (Hq0 : (0 <= q)%Z) by nia.
  apply binary_round_aux_valid; [exact Hq0|].
  destruct (Z_le_gt_dec e' (-1074)) as [C|C].
  { unfold fexp, SpecFloat.emin, prec, emax. lia. }
  (* above the least exponent the quotient has its 53 digits *)
  assert (F : fexp prec emax E = (E - 53)%Z)
    by (unfold e', fexp, SpecFloat.emin, prec, emax in *; lia).
  assert (Hs' : (d2 + 53 <= d1 + s)%Z) by (unfold s, e', E in *; lia).
  assert (Mlo : (2 ^ (d1 + s - 1) <= m')%Z).
  { rewrite Em'. replace (d1 + s - 1)%Z with ((d1 - 1) + s)%Z by lia.
    rewrite Z.pow_add_r by lia. apply Z.mul_le_mono_nonneg_r; lia. }
  assert (Qlo : (2 ^ (d1 + s - 1 - d2) <= q)%Z).
  { assert (L : (2 ^ (d1 + s - 1 - d2) * Zpos my < Zpos my * (q + 1))%Z).
    { apply Z.lt_le_trans with (2 ^ (d1 + s - 1 - d2) * 2 ^ d2)%Z.
      - apply Z.mul_lt_mono_pos_l; [apply Z.pow_pos_nonneg; lia | exact Yhi].
      - rewrite <- Z.pow_add_r by lia.
        replace (d1 + s - 1 - d2 + d2)%Z with (d1 + s - 1)%Z by lia. nia. }
    nia. }
  assert (Q52 : (2 ^ 52 <= q)%Z).
  { apply Z.le_trans with (2 ^ (d1 + s - 1 - d2))%Z; [|exact Qlo].
    apply Z.pow_le_mono_r; lia. }
  assert (P52 : (0 < 2 ^ 52)%Z) by (apply Z.pow_pos_nonneg; lia).
  destruct q as [|pq|pq]; [lia| |lia].
  pose proof (digits_ge pq 52 Q52 ltac:(lia)) as Dq.
  cbn [Zdigits2]. unfold fexp, SpecFloat.emin, prec, emax. lia.
Qed.
(** The floats without a minus sign: nan, and the zero, the infinity and the
    finite floats of sign [false]. *)
Lemma sign_false_iff (x : F64.float) :
  F64.sign x = false <->
  match Prim2SF x with
  | S754_zero s | S754_infinity s | S754_finite s _ _ => s = false
  | S754_nan => True
  end.
Proof. unfold F64.sign. destruct (Prim2SF x); tauto. Qed.

Lemma mul_sign (a b : F64.float) :
  F64.sign a = false -> F64.sign b = false -> F64.sign (F64.mul a b) = false.
Proof.
  rewrite !sign_false_iff. unfold F64.mul. rewrite mul_spec.
  destruct (Prim2SF a) as [sa|sa| |sa ma ea];
    destruct (Prim2SF b) as [sb|sb| |sb mb eb];
    intros Ha Hb; subst; cbn [SF64mul SFmul xorb]; try exact I;
    try reflexivity.
  unfold SF64mul. cbn [SFmul xorb].
  destruct (binary_round_aux_sign false (Zpos (ma * mb)) (ea + eb) loc_Exact
              ltac:(lia)) as [E|[E|(m & e & E)]]; rewrite E; reflexivity.
Qed.

Lemma div_sign (a b q : F64.float) :
  F64.div a b = Ok q ->
  F64.sign a = false -> F64.sign b = false -> F64.sign q = false.
Proof.
  unfold F64.div. destruct (F64.eqb b F64.zero); [discriminate|].
  intros [= <-]. rewrite !sign_false_iff, div_spec.
  destruct (Prim2SF a) as [sa|sa| |sa ma ea];
    destruct (Prim2SF b) as [sb|sb| |sb mb eb];
    intros Ha Hb; subst; unfold SF64div; cbn [SFdiv xorb]; try exact I;
    try reflexivity.
  destruct (SFdiv_valid false false ma mb ea eb) as [E|[E|(m & e & E & _)]];
    cbn [SFdiv xorb] in E; rewrite E; reflexivity.
Qed.

Lemma add_sign (a b : F64.float) :
  F64.sign a = false -> F64.sign b = false -> F64.sign (F64.add a b) = false.
Proof.
  rewrite !sign_false_iff. unfold F64.add. rewrite add_spec.
  destruct (Prim2SF a) as [sa|sa| |sa ma ea];
    destruct (Prim2SF b) as [sb|sb| |sb mb eb];
    intros Ha Hb; subst; unfold SF64add; cbn [SFadd]; try exact I;
    try reflexivity.
  cbn [cond_Zopp].
  change (Zpos (fst (shl_align ma ea (Z.min ea eb)))
          + Zpos (fst (shl_align mb eb (Z.min ea eb))))%Z
    with (Zpos (fst (shl_align ma ea (Z.min ea eb))
                + fst (shl_align mb eb (Z.min ea eb)))).
  cbn [binary_normalize]. unfold binary_round.
  destruct (shl_align (_ + _) _ _) as [mz ez].
  destruct (binary_round_aux_sign false (Zpos mz) ez loc_Exact ltac:(lia))
    as [E|[E|(m & e & E)]]; rewrite E; reflexivity.
Qed.

(** The float of a ratio that is not negative. *)
Lemma of_ratio_sign (n : Z) (d : positive) :
  (0 <= n)%Z -> F64.sign (F64.of_ratio n d) = false.
Proof.
  intros Hn. destruct n as [|p|p]; [reflexivity| |lia].
  cbn [F64.of_ratio]. apply sign_false_iff.
  destruct (SFdiv_valid false false p d 0 0) as [E|[E|(m & e & E & Hb)]];
    cbn [xorb] in E; rewrite E.
  - reflexivity.
  - reflexivity.
  - rewrite Prim2SF_SF2Prim by exact Hb. reflexivity.
Qed.

(** What a float without a minus sign denotes is not negative. *)
Lemma sign_false_value (x : F64.float) (v : Q) :
  F64.sign x = false -> F64.to_Q x = Some v -> 0 <= v.
Proof.
  intros Hs Hv. apply sign_false_iff in Hs.
  destruct (Prim2SF x) as [s|s| |s m e] eqn:Ex.
  - unfold F64.to_Q in Hv. rewrite Ex in Hv. injection Hv as <-. apply Qle_refl.
  - unfold F64.to_Q in Hv. rewrite Ex in Hv. discriminate.
  - unfold F64.to_Q in Hv. rewrite Ex in Hv. discriminate.
  - subst s. destruct (to_Q_value x false m e Ex) as (w & Ew & Hw).
    rewrite Ew in Hv. injection Hv as <-. rewrite Hw.
    apply Qlt_le_weak, value_pos.
Qed.

(** [round(x, 2)] of a float without a minus sign. *)
Lemma round2_sign (x : F64.float) :
  F64.sign x = false ->
  F64.sign (F64.round2 x) = false /\
  (F64.round2 x = x /\ F64.to_Q x = None \/
   exists k : Z, (0 <= k)%Z /\ F64.round2 x = F64.hundredths false k).
Proof.
  intros Hs. unfold F64.round2.
  destruct (F64.to_Q x) as [v|] eqn:Ev.
  - pose proof (sign_false_value x v Hs Ev) as Hv.
    assert (Hk : (0 <= PyFloat.round (v * 100))%Z).
    { apply round_ge_int. change (inject_Z 0) with 0. lra. }
    rewrite Hs. split; [|right; eexists; split; [exact Hk | reflexivity]].
    destruct (PyFloat.round (v * 100)) as [|p|p]; [reflexivity| |lia].
    cbn [F64.hundredths]. apply of_ratio_sign. lia.
  - split; [exact Hs | left; split; reflexivity].
Qed.

Lemma digits_from_nonneg' (s : string) (acc : Z) :
  (0 <= acc)%Z -> (0 <= Parse.digits_from acc s)%Z.
Proof.
  revert acc. induction s as [|c s IH]; intros acc Ha; cbn [Parse.digits_from].
  - exact Ha.
  - apply IH. unfold Parse.digit_value. lia.
Qed.

Lemma float_of_sign (s : string) : F64.sign (F64.float_of s) = false.
Proof.
  unfold F64.float_of. destruct (Parse.span Parse.is_digit s) as [i r].
  destruct r as [|c f]; [apply of_ratio_sign, digits_from_nonneg'; lia|].
  destruct (Ascii.eqb_spec c "."%char) as [->|Hc].
  - apply of_ratio_sign. apply digits_from_nonneg', digits_from_nonneg'. lia.
  - assert (E : match String c f with
                | String "."%char f0 =>
                    F64.of_ratio
                      (Parse.digits_from (Parse.digits_from 0 i) f0)
                      (Z.to_pos (10 ^ Z.of_nat (String.length f0)))
                | _ => F64.of_ratio (Parse.digits_from 0 i) 1
                end = F64.of_ratio (Parse.digits_from 0 i) 1).
    { destruct c as [[|] [|] [|] [|] [|] [|] [|] [|]]; try reflexivity.
      exfalso. apply Hc. reflexivity. }
    rewrite E. apply of_ratio_sign, digits_from_nonneg'. lia.
Qed.

(** What [_qty_to_oz] returns has no minus sign and, when it is finite, is
    the float of a whole number of hundredths. *)
Lemma qty_to_oz_float (raw : option string) (q : F64.float) :
  F64._qty_to_oz raw = Ok q ->
  F64.sign q = false /\
  (q = F64.zero \/
   exists x, q = F64.round2 x /\ F64.sign x = false).
Proof.
  unfold F64._qty_to_oz.
  assert (Z0 : F64.sign F64.zero = false) by reflexivity.
  destruct raw as [raw|]; [|intros [= <-]; split; [exact Z0 | left; reflexivity]].
  destruct (negb (truthy raw));
    [intros [= <-]; split; [exact Z0 | left; reflexivity]|].
  cbv zeta.
  destruct (existsb _ Parse.garnish_words);
    [intros [= <-]; split; [exact Z0 | left; reflexivity]|].
  set (txt := lower (Parse.strip raw)).
  assert (Hfin : forall qty unit,
            F64.sign qty = false ->
            F64.sign (if String.eqb unit "ml" then F64.mul qty F64.oz_per_ml
                      else if String.eqb unit "cl"
                           then F64.mul qty F64.oz_per_cl
                           else qty) = false).
  { intros qty unit Hq.
    destruct (String.eqb unit "ml"); [apply mul_sign; [exact Hq|reflexivity]|].
    destruct (String.eqb unit "cl"); [apply mul_sign; [exact Hq|reflexivity]|].
    exact Hq. }
  assert (Hend : forall qty unit,
            F64.sign qty = false ->
            forall q',
              Ok (F64.round2
                    (if String.eqb unit "ml" then F64.mul qty F64.oz_per_ml
                     else if String.eqb unit "cl"
                          then F64.mul qty F64.oz_per_cl
                          else qty)) = Ok q' ->
              F64.sign q' = false /\
              (q' = F64.zero \/
               exists x, q' = F64.round2 x /\ F64.sign x = false)).
  { intros qty unit Hq q' [= <-]. specialize (Hfin qty unit Hq).
    split; [apply round2_sign; exact Hfin|].
    right. eexists. split; [reflexivity | exact Hfin]. }
  destruct (Parse.match_mixed txt) as [[[whole num] den]|].
  - destruct (F64.div (F64.of_ratio (Parse.digit_value num) 1)
                (F64.of_ratio (Parse.digit_value den) 1)) as [f|e] eqn:Ed;
      [|discriminate].
    cbn -[F64.round2 F64.mul F64.add String.eqb].
    apply Hend. apply add_sign; [apply float_of_sign|].
    apply (div_sign _ _ _ Ed); apply of_ratio_sign;
      unfold Parse.digit_value; lia.
  - destruct (Parse.match_simple txt) as [[num_txt unit]|];
      [|intros [= <-]; split; [exact Z0 | left; reflexivity]].
    destruct (Parse.contains "/" num_txt).
    + destruct (F64.div _ _) as [f|e] eqn:Ed; [|discriminate].
      cbn -[F64.round2 F64.mul String.eqb].
      apply Hend. apply (div_sign _ _ _ Ed); apply float_of_sign.
    + cbn -[F64.round2 F64.mul String.eqb F64.float_of].
      apply Hend. apply float_of_sign.
Qed.
(** A float that denotes a positive number is greater than zero. *)
Lemma positive_value (x : F64.float) (w : Q) :
  F64.to_Q x = Some w -> 0 < w -> F64.gtb x F64.zero = true.
Proof.
  intros Hw Hp. unfold F64.gtb, F64.ltb. rewrite ltb_spec.
  change (Prim2SF F64.zero) with (S754_zero false).
  destruct (Prim2SF x) as [s|s| |s m e] eqn:Ex.
  - unfold F64.to_Q in Hw. rewrite Ex in Hw. injection Hw as <-.
    exfalso. lra.
  - unfold F64.to_Q in Hw. rewrite Ex in Hw. discriminate.
  - unfold F64.to_Q in Hw. rewrite Ex in Hw. discriminate.
  - destruct (to_Q_value x s m e Ex) as (v & Ev & Hv).
    rewrite Ev in Hw. injection Hw as <-. destruct s; [|reflexivity].
    exfalso. pose proof (value_neg m e). lra.
Qed.

(** The quantities that [_scale] returns for liquids that are all sane. *)
Lemma scale_sane (lst : list F64.ingredient) (m factor : F64.float)
    (dm : F64.ingredient) :
  In dm lst -> F64.liquid dm = true -> F64.qty_oz dm = m ->
  (forall d, In d lst -> F64.liquid d = true ->
             F64.ltb (F64.qty_oz d) m = false) ->
  F64.div F64.reference m = Ok factor ->
  (forall d, In d lst -> F64.liquid d = true ->
             F64.sane (F64.qty_oz d) = true) ->
  let out :=
    List.map (fun d => if F64.liquid d
                       then F64.set_qty d
                              (F64.round2 (F64.mul (F64.qty_oz d) factor))
                       else d) lst in
  exists vm : Q,
    F64.to_Q m = Some vm /\
    Forall2 (F64.normalized_to m vm) lst out /\
    (exists d', In d' out /\ F64.qty_oz d' = F64.reference) /\
    (forall d', In d' out -> F64.liquid d' = true ->
                F64.ltb (F64.qty_oz d') F64.reference = false).
Proof.
  intros Hdm Hlm Hqm Hleast Hdiv Hsane.
  set (f := fun d : F64.ingredient =>
              if F64.liquid d
              then F64.set_qty d (F64.round2 (F64.mul (F64.qty_oz d) factor))
              else d).
  cbv zeta.
  assert (Sm : F64.sane m = true) by (rewrite <- Hqm; apply Hsane; assumption).
  destruct (sane_normal m Sm) as (mm & em & vm & _ & _ & _ & Evm & _).
  exists vm. split; [exact Evm|].
  assert (Hone : forall d, In d lst -> F64.liquid d = true ->
            exists (vq : Q) (k : Z) (w : Q),
              F64.to_Q (F64.qty_oz d) = Some vq /\
              F64.qty_oz (f d) = F64.hundredths false k /\ (150 <= k)%Z /\
              Qabs (inject_Z k / 100 - vq * (3 # 2) / vm)
              <= (1 # 200) + vq * (3 # 2) / vm * (1 # 2251799813685248) /\
              F64.to_Q (F64.qty_oz (f d)) = Some w /\
              Qabs (w - inject_Z k / 100) * inject_Z (2 ^ 53)
              <= inject_Z k / 100 /\
              (F64.qty_oz d = m -> F64.qty_oz (f d) = F64.reference) /\
              F64.ltb (F64.qty_oz (f d)) F64.reference = false /\
              F64.liquid (f d) = true).
  { intros d Hd Hl.
    destruct (normalise_one (F64.qty_oz d) m factor vm
                (Hsane d Hd Hl) Sm (Hleast d Hd Hl) Hdiv Evm)
      as (vq & k & w & Evq & Hr & Hk & Hnear & Ew & Hw & Hmin & Hnb).
    assert (Ef : F64.qty_oz (f d) = F64.hundredths false k)
      by (unfold f; rewrite Hl; exact Hr).
    exists vq, k, w. rewrite Ef.
    split; [exact Evq|]. split; [reflexivity|]. split; [exact Hk|].
    split; [exact Hnear|]. split; [exact Ew|]. split; [exact Hw|].
    split; [|split; [exact Hnb|]].
    - intros Em. rewrite (Hmin Em). vm_compute. reflexivity.
    - unfold F64.liquid. rewrite Ef. apply (positive_value _ w Ew).
      apply err_interval in Hw as [Hlo _]. rewrite hundredths_ratio in Hlo.
      assert (K : inject_Z 150 <= inject_Z k) by (rewrite <- Zle_Qle; lia).
      change (inject_Z 150) with 150 in K. lra. }
  split; [|split].
  - apply Forall2_map_self. intros d Hd. unfold F64.normalized_to.
    destruct (F64.liquid d) eqn:Hl.
    + split; [unfold f; rewrite Hl; reflexivity|].
      split; [unfold f; rewrite Hl; reflexivity|].
      split; [discriminate|]. intros _.
      destruct (Hone d Hd Hl)
        as (vq & k & w & Evq & Hr & Hk & Hnear & Ew & Hw & Hmin & Hnb & Hpos).
      exists vq, k, w.
      split; [exact Evq|]. split; [exact Hr|]. split; [exact Hk|].
      split; [exact Hnear|]. split; [exact Ew|]. split; [exact Hw|].
      split; [exact Hpos|]. split; [exact Hnb | exact Hmin].
    + unfold f. rewrite Hl. split; [reflexivity|]. split; [reflexivity|].
      split; [reflexivity | discriminate].
  - exists (f dm). split; [apply in_map; exact Hdm|].
    destruct (Hone dm Hdm Hlm) as (? & ? & ? & _ & _ & _ & _ & _ & _ & Hmin & _).
    exact (Hmin Hqm).
  - intros d' Hd' Hl'. apply in_map_iff in Hd' as (d & <- & Hd).
    destruct (F64.liquid d) eqn:Hl.
    + destruct (Hone d Hd Hl) as (? & ? & ? & _ & _ & _ & _ & _ & _ & _ & Hnb & _).
      exact Hnb.
    + unfold f in Hl'. rewrite Hl in Hl'. congruence.
Qed.

(** [_scale] on a list without a positive quantity. *)
Lemma scale_no_liquid (lst : list F64.ingredient) :
  (forall d, In d lst -> F64.liquid d = false) -> F64._scale lst = Ok lst.
Proof.
  intros H. unfold F64._scale.
  change (fun d : F64.ingredient => F64.gtb (F64.qty_oz d) F64.zero)
    with F64.liquid.
  destruct (List.map F64.qty_oz (List.filter F64.liquid lst))
    as [|q qs] eqn:E; [reflexivity|]. exfalso.
  assert (Hin : In q (List.map F64.qty_oz (List.filter F64.liquid lst)))
    by (rewrite E; left; reflexivity).
  apply in_map_iff in Hin as (d & _ & Hf).
  apply filter_In in Hf as [Hd Hl]. rewrite (H d Hd) in Hl. discriminate.
Qed.

(** A list has a liquid or has none. *)
Lemma liquid_or_not (lst : list F64.ingredient) :
  (exists d, In d lst /\ F64.liquid d = true) \/
  (forall d, In d lst -> F64.liquid d = false).
Proof.
  induction lst as [|a l [(d & Hd & Hl)|IH]].
  - right. intros d [].
  - left. exists d. split; [right; exact Hd | exact Hl].
  - destruct (F64.liquid a) eqn:Ha.
    + left. exists a. split; [left; reflexivity | exact Ha].
    + right. intros d [<-|Hd]; [exact Ha | apply IH; exact Hd].
Qed.


End F64Rounding.




(** ** Nearest multiple and slot-aware rescaling *)

Section Rescale.

Lemma in_slots_In (x : string) (sl : list (option string)) :
  in_slots x sl = true <-> In (Some x) sl.
Proof.
  unfold in_slots. rewrite existsb_exists. split.
  - intros ([y|] & Hy & E); [|discriminate].
    apply String.eqb_eq in E. subst y. exact Hy.
  - intros H. exists (Some x). split; [exact H | apply String.eqb_refl].
Qed.

Lemma in_pantry_In (x : string) (p : list string) :
  in_pantry x p = true <-> In x p.
Proof.
  unfold in_pantry. rewrite existsb_exists. split.
  - intros (y & Hy & E). apply String.eqb_eq in E. subst y. exact Hy.
  - intros H. exists x. split; [exact H | apply String.eqb_refl].
Qed.

End Rescale.



(** C1 (the code departs from its docstring).  [_nearest_multiple(2.25, 1.5)]
    is 3.0, the upper of the two multiples 1.5 and 3.0 that 2.25 lies exactly
    halfway between, not the lower one. *)
Theorem nearest_multiple_tie_goes_up :
  _nearest_multiple (9 # 4) (3 # 2) = Ok 3 /\
  (9 # 4) - (3 # 2) == 3 - (9 # 4) /\
  _nearest_multiple (299 # 100) (3 # 2) = Ok 3 /\
  _nearest_multiple (376 # 100) (3 # 2) = Ok (9 # 2).
Proof. repeat split. Qed.

(** ** Measurement parsing *)

(** C5 (the code departs from the lenient policy).  A fraction with a zero
    denominator is not resolved to 0.0: both the simple and the mixed
    fraction raise [ZeroDivisionError]. *)
Theorem qty_to_oz_zero_denominator_raises :
  Parse._qty_to_oz (Some "1/0"%string) = Raise ZeroDivisionError /\
  Parse._qty_to_oz (Some "2 1/0 oz"%string) = Raise ZeroDivisionError.
Proof. split; reflexivity. Qed.

(** ** Availability and slot resolution *)

Section Availability.

Lemma in_slots_false (x : string) (sl : list (option string)) :
  in_slots x sl = false <-> ~ In (Some x) sl.
Proof.
  rewrite <- in_slots_In. destruct (in_slots x sl); split; congruence.
Qed.

Lemma in_pantry_false (x : string) (p : list string) :
  in_pantry x p = false <-> ~ In x p.
Proof.
  rewrite <- in_pantry_In. destruct (in_pantry x p); split; congruence.
Qed.

(** A name found in a slot or in the pantry of a normalised configuration
    is not empty. *)
Lemma listed_truthy (cfg : config) (x : string) :
  names_nonempty cfg ->
  In (Some x) (slots cfg) \/ In x (pantry cfg) -> truthy x = true.
Proof.
  intros [Hs Hp] H. destruct x; [|reflexivity].
  destruct H; contradiction.
Qed.

(** [slots_index] finds the first position that holds the name. *)
Lemma slots_index_found (x : string) (sl : list (option string)) :
  In (Some x) sl -> nth_error sl (slots_index x sl) = Some (Some x).
Proof.
  induction sl as [|[y|] sl IH]; simpl; intros H.
  - contradiction.
  - destruct (String.eqb x y) eqn:E.
    + apply String.eqb_eq in E. subst y. reflexivity.
    + destruct H as [H|H]; [|exact (IH H)].
      injection H as ->. rewrite String.eqb_refl in E. discriminate.
  - destruct H as [H|H]; [discriminate | exact (IH H)].
Qed.

(** What [load_config] stores satisfies [names_nonempty]. *)
Lemma norm_not_empty (s : option string) : _norm s <> Some EmptyString.
Proof.
  destruct s as [s|]; simpl; [|discriminate].
  destruct (Parse.strip s); simpl; discriminate.
Qed.

Lemma load_config_names (cfg : config) (raw_slots : list (option string))
    (raw_pantry : list string) :
  slots cfg = norm_slots raw_slots -> pantry cfg = norm_pantry raw_pantry ->
  names_nonempty cfg.
Proof.
  intros Hs Hp. split.
  - rewrite Hs. unfold norm_slots. intros H.
    apply in_map_iff in H as (s & E & _). exact (norm_not_empty s E).
  - rewrite Hp. unfold norm_pantry. intros H.
    apply in_flat_map in H as (s & _ & H).
    pose proof (norm_not_empty (Some s)) as N.
    destruct (_norm (Some s)) as [q|]; [|exact H].
    destruct H as [->|[]]. congruence.
Qed.

End Availability.

(** C9.  For a configuration whose slot and pantry names are not empty (as
    [load_config] makes them): [_avail] holds exactly when the lowercased item
    is in a slot or the pantry, or has a substitution whose target is; an item
    whose substitution target is in neither is unavailable whatever further
    substitution that target has; and an item reachable only through a
    substitution whose target is in the pantry and in no slot is available
    while [_slot_for] returns [None]. *)
Theorem avail_one_hop (cfg : config) (it : string) :
  names_nonempty cfg ->
  (_avail it cfg = true <->
   In (Some (lower it)) (slots cfg) \/ In (lower it) (pantry cfg) \/
   exists sub, substitutions cfg !! lower it = Some sub /\
               (In (Some sub) (slots cfg) \/ In sub (pantry cfg))) /\
  (forall sub,
     ~ In (Some (lower it)) (slots cfg) -> ~ In (lower it) (pantry cfg) ->
     substitutions cfg !! lower it = Some sub ->
     ~ In (Some sub) (slots cfg) -> ~ In sub (pantry cfg) ->
     _avail it cfg = false) /\
  (forall sub,
     ~ In (Some (lower it)) (slots cfg) -> ~ In (lower it) (pantry cfg) ->
     substitutions cfg !! lower it = Some sub ->
     In sub (pantry cfg) -> ~ In (Some sub) (slots cfg) ->
     _avail it cfg = true /\ _slot_for it cfg = None).
Proof.
  intros Hn. unfold _avail, _slot_for. cbv zeta. split; [|split].
  - destruct (in_slots (lower it) (slots cfg)) eqn:Es.
    { apply in_slots_In in Es. simpl. tauto. }
    destruct (in_pantry (lower it) (pantry cfg)) eqn:Ep.
    { apply in_pantry_In in Ep. simpl. tauto. }
    apply in_slots_false in Es. apply in_pantry_false in Ep. simpl.
    destruct (substitutions cfg !! lower it) as [sub|] eqn:E.
    + rewrite andb_true_iff, orb_true_iff, in_slots_In, in_pantry_In. split.
      * intros [_ H]. right. right. exists sub. auto.
      * intros [H|[H|(sub' & E' & H)]]; try contradiction.
        injection E' as <-. split; [|exact H].
        apply (listed_truthy cfg); assumption.
    + split; [discriminate|].
      intros [H|[H|(sub' & E' & _)]]; try contradiction. discriminate.
  - intros sub Hs Hp E Hss Hsp.
    apply in_slots_false in Hs, Hss. apply in_pantry_false in Hp, Hsp.
    rewrite Hs, Hp, E, Hss, Hsp. simpl. apply andb_false_r.
  - intros sub Hs Hp E Hsp Hss.
    assert (Ht : truthy sub = true) by (apply (listed_truthy cfg); auto).
    apply in_slots_false in Hs, Hss. apply in_pantry_false in Hp.
    apply in_pantry_In in Hsp.
    rewrite Hs, Hp, E, Hss, Hsp, Ht. simpl. split; reflexivity.
Qed.

Lemma avail_one_hop_witness :
  names_nonempty bar_subs /\
  _avail "Lime" bar_subs = true /\ _slot_for "Lime" bar_subs = None /\
  _avail "Tonic" bar_subs = false.
Proof.
  assert (Hn : names_nonempty bar_subs).
  { split; simpl; intros H;
      repeat (destruct H as [H|H]; [discriminate H|]); exact H. }
  destruct (avail_one_hop bar_subs "Lime" Hn) as (_ & _ & Hp).
  destruct (avail_one_hop bar_subs "Tonic" Hn) as (_ & Hh & _).
  assert (Hs : forall x y : string,
             x <> y -> ~ In (Some x) (Some y :: repeat None 11)).
  { intros x y Hxy H. simpl in H.
    repeat (destruct H as [H|H]; [congruence|]). exact H. }
  split; [exact Hn|]. split; [|split].
  - apply (Hp "lemon"%string).
    + apply Hs. discriminate.
    + simpl. intros H. repeat (destruct H as [H|H]; [discriminate H|]). exact H.
    + reflexivity.
    + simpl. auto.
    + apply Hs. discriminate.
  - apply (Hp "lemon"%string).
    + apply Hs. discriminate.
    + simpl. intros H. repeat (destruct H as [H|H]; [discriminate H|]). exact H.
    + reflexivity.
    + simpl. auto.
    + apply Hs. discriminate.
  - apply (Hh "soda"%string).
    + apply Hs. discriminate.
    + simpl. intros H. repeat (destruct H as [H|H]; [discriminate H|]). exact H.
    + reflexivity.
    + apply Hs. discriminate.
    + simpl. intros H. repeat (destruct H as [H|H]; [discriminate H|]). exact H.
Defined.

(** ** Turret and actuator *)

Module HardwareFacts.

Import Hardware.

Lemma gpio_calls_app (a b : list effect) :
  gpio_calls (a ++ b) = gpio_calls a ++ gpio_calls b.
Proof. unfold gpio_calls. apply flat_map_app. Qed.

Lemma gpio_calls_prints (msgs : list message) :
  gpio_calls (List.map Print msgs) = [].
Proof. induction msgs as [|m msgs IH]; [reflexivity | exact IH]. Qed.

Lemma high_writes_app (pin : Z) (a b : list effect) :
  high_writes pin (a ++ b) = (high_writes pin a + high_writes pin b)%nat.
Proof. unfold high_writes. rewrite List.filter_app. apply List.length_app. Qed.

(** Each pass of the pressing loop raises the actuator pin once. *)
Lemma high_writes_presses (pin : Z) (repetitions : Z) (n : nat) :
  forall i, high_writes pin (presses pin i n repetitions) = n.
Proof.
  induction n as [|n IH]; intros i; [reflexivity|].
  cbn [presses]. rewrite high_writes_app, IH.
  unfold high_writes, press_once. cbn. rewrite Z.eqb_refl. reflexivity.
Qed.

(** Initialising the backend raises no pin and keeps the pin map. *)
Lemma ensure_gpio_high (pin : Z) (st : state) :
  high_writes pin (trace (_ensure_gpio st)) = high_writes pin (trace st)
  /\ _pin_map (_ensure_gpio st) = _pin_map st.
Proof.
  unfold _ensure_gpio.
  destruct (_gpio_ready st || SAFE_MODE st); [split; reflexivity|].
  unfold set_ready, emit. cbn [trace _pin_map].
  rewrite high_writes_app. split; [cbn; lia | reflexivity].
Qed.

(** Outside safe mode [press_actuator] raises the actuator pin once per
    repetition, and not at all for a count that is not positive. *)
Lemma press_actuator_count (repetitions : Z) (st : state) :
  SAFE_MODE st = false ->
  high_writes (ACTUATOR (_pin_map st))
    (trace (press_actuator repetitions st))
  = (high_writes (ACTUATOR (_pin_map st)) (trace st)
     + Z.to_nat repetitions)%nat.
Proof.
  intros Hs. unfold press_actuator. rewrite Hs.
  destruct (ensure_gpio_high (ACTUATOR (_pin_map st)) st) as [Hh Hp].
  unfold emit. cbn [trace].
  rewrite high_writes_app, Hh, Hp, high_writes_presses. reflexivity.
Qed.

(** One motion call in safe mode only prints. *)
Lemma safe_exec (c : call) (st : state) :
  SAFE_MODE st = true -> is_motion c = true ->
  SAFE_MODE (exec c st) = true /\
  _gpio_ready (exec c st) = _gpio_ready st /\
  exists msgs, trace (exec c st) = trace st ++ List.map Print msgs.
Proof.
  intros Hs Hm. destruct c as [m|b|s|n|]; try discriminate Hm; cbn.
  - unfold rotate_to_slot. rewrite Hs.
    destruct (s =? _current_slot st)%Z.
    + split; [exact Hs|]. split; [reflexivity|].
      exists []. cbn. rewrite app_nil_r. reflexivity.
    + cbn. split; [exact Hs|]. split; [reflexivity|].
      exists [Would_rotate (_current_slot st) s]. reflexivity.
  - unfold press_actuator. rewrite Hs. cbn.
    split; [exact Hs|]. split; [reflexivity|].
    exists [Would_press n]. reflexivity.
Qed.

Lemma exec_slot_ok (c : call) (st : state) :
  slot_ok st -> target_ok c -> slot_ok (exec c st).
Proof.
  unfold slot_ok. intros Hst Hc. destruct c as [m|b|s|n|]; cbn.
  - unfold set_pin_map. destruct (_gpio_ready st); exact Hst.
  - exact Hst.
  - unfold rotate_to_slot.
    destruct (s =? _current_slot st)%Z; [exact Hst|].
    destruct (SAFE_MODE st); exact Hc.
  - unfold press_actuator. destruct (SAFE_MODE st); [exact Hst|].
    unfold _ensure_gpio.
    destruct (_gpio_ready st || SAFE_MODE st); exact Hst.
  - unfold cleanup. destruct (_gpio_ready st); exact Hst.
Qed.

End HardwareFacts.

(** C3.  Any sequence of [rotate_to_slot] and [press_actuator] calls that
    starts in safe mode makes no backend call at all: it only adds printed
    lines to the effects, stays in safe mode and leaves [_gpio_ready] as it
    was, so the hardware is never initialised. *)
Theorem safe_mode_no_drive (cs : list Hardware.call) (st : Hardware.state) :
  Hardware.SAFE_MODE st = true ->
  forallb Hardware.is_motion cs = true ->
  Hardware.gpio_calls (Hardware.trace (Hardware.run cs st))
  = Hardware.gpio_calls (Hardware.trace st) /\
  Hardware._gpio_ready (Hardware.run cs st) = Hardware._gpio_ready st /\
  Hardware.SAFE_MODE (Hardware.run cs st) = true /\
  exists msgs,
    Hardware.trace (Hardware.run cs st)
    = Hardware.trace st ++ List.map Hardware.Print msgs.
Proof.
  revert st. induction cs as [|c cs IH]; intros st Hs Hm.
  - cbn. repeat split; try assumption.
    exists []. cbn. rewrite app_nil_r. reflexivity.
  - cbn in Hm. apply andb_true_iff in Hm as [Hc Hm].
    destruct (HardwareFacts.safe_exec c st Hs Hc) as (Hs' & Hr & msgs & Ht).
    destruct (IH (Hardware.exec c st) Hs' Hm) as (Hg & Hr' & Hs'' & msgs' & Ht').
    change (Hardware.run (c :: cs) st)
      with (Hardware.run cs (Hardware.exec c st)).
    split; [|split; [|split]].
    + rewrite Hg, Ht, HardwareFacts.gpio_calls_app,
        HardwareFacts.gpio_calls_prints.
      apply app_nil_r.
    + rewrite Hr'. exact Hr.
    + exact Hs''.
    + exists (msgs ++ msgs'). rewrite Ht', Ht, List.map_app, app_assoc.
      reflexivity.
Qed.

Lemma safe_mode_no_drive_witness :
  Hardware.SAFE_MODE Hardware.initial = true /\
  Hardware.gpio_calls
    (Hardware.trace
       (Hardware.run [Hardware.Rotate_to_slot 7; Hardware.Press_actuator 3;
                      Hardware.Rotate_to_slot 2] Hardware.initial))
  = [] /\
  Hardware._gpio_ready
    (Hardware.run [Hardware.Rotate_to_slot 7; Hardware.Press_actuator 3;
                   Hardware.Rotate_to_slot 2] Hardware.initial)
  = false.
Proof.
  destruct (safe_mode_no_drive
              [Hardware.Rotate_to_slot 7; Hardware.Press_actuator 3;
               Hardware.Rotate_to_slot 2]
              Hardware.initial eq_refl eq_refl) as (Hg & Hr & _).
  split; [reflexivity|]. split; [exact Hg | exact Hr].
Defined.

(** C7 (the code departs from idempotence).  [cleanup] does not clear
    [_gpio_ready], so on initialised hardware a second call drives the
    backend again: it repeats the write to the enable pin and the backend's
    own cleanup. *)
Theorem cleanup_twice_drives_again (st : Hardware.state) :
  Hardware._gpio_ready st = true ->
  Hardware._gpio_ready (Hardware.cleanup st) = true /\
  Hardware.trace (Hardware.cleanup (Hardware.cleanup st))
  = Hardware.trace (Hardware.cleanup st)
    ++ [Hardware.Gpio
          (Hardware.Gpio_output (Hardware.ENABLE (Hardware._pin_map st))
             Hardware.HIGH);
        Hardware.Gpio Hardware.Gpio_cleanup].
Proof.
  intros H. unfold Hardware.cleanup. rewrite H. cbn. rewrite H. cbn.
  split; reflexivity.
Qed.

(** The hardware after a real rotation from the initial state. *)
Lemma cleanup_twice_drives_again_witness :
  let st := Hardware.run [Hardware.Set_safe_mode false;
                          Hardware.Rotate_to_slot 1] Hardware.initial in
  Hardware._gpio_ready st = true /\
  Hardware._gpio_ready (Hardware.cleanup st) = true /\
  Hardware.gpio_calls
    (Hardware.trace (Hardware.cleanup (Hardware.cleanup st)))
  = Hardware.gpio_calls (Hardware.trace (Hardware.cleanup st))
    ++ [Hardware.Gpio_output 16 true; Hardware.Gpio_cleanup].
Proof.
  cbv zeta.
  set (st := Hardware.run [Hardware.Set_safe_mode false;
                           Hardware.Rotate_to_slot 1] Hardware.initial).
  assert (Hr : Hardware._gpio_ready st = true) by (vm_compute; reflexivity).
  destruct (cleanup_twice_drives_again st Hr) as [H1 H2].
  split; [exact Hr|]. split; [exact H1|].
  rewrite H2, HardwareFacts.gpio_calls_app. reflexivity.
Defined.

(** C8 as amended.  A turret position within the twelve slots stays within
    them over any sequence of calls whose rotations name one of the twelve
    slots; [rotate_to_slot] itself stores whatever target it is given. *)
Theorem slot_in_range_preserved (cs : list Hardware.call)
    (st : Hardware.state) :
  Hardware.slot_ok st -> Forall Hardware.target_ok cs ->
  Hardware.slot_ok (Hardware.run cs st).
Proof.
  intros Hst Hcs. revert st Hst.
  induction Hcs as [|c cs Hc _ IH]; intros st Hst; [exact Hst|].
  apply (IH (Hardware.exec c st)).
  apply HardwareFacts.exec_slot_ok; assumption.
Qed.

Lemma slot_in_range_preserved_witness :
  Hardware.slot_ok Hardware.initial /\
  Hardware.slot_ok
    (Hardware.run [Hardware.Set_pin_map [("step"%string, 5%Z)];
                   Hardware.Set_safe_mode false;
                   Hardware.Rotate_to_slot 11;
                   Hardware.Press_actuator 2;
                   Hardware.Cleanup;
                   Hardware.Set_safe_mode true;
                   Hardware.Rotate_to_slot 0] Hardware.initial).
Proof.
  assert (H0 : Hardware.slot_ok Hardware.initial)
    by (unfold Hardware.slot_ok, Hardware.TOTAL_SLOTS; cbn; lia).
  split; [exact H0|].
  apply slot_in_range_preserved; [exact H0|].
  repeat constructor; unfold Hardware.TOTAL_SLOTS; lia.
Defined.

(** C8 as stated fails: from the initial state, in range, a rotation to
    slot 12 leaves the position out of range, in safe mode and outside it. *)
Lemma rotate_out_of_range :
  Hardware.slot_ok Hardware.initial /\
  Hardware._current_slot
    (Hardware.rotate_to_slot 12 Hardware.initial) = 12%Z /\
  ~ Hardware.slot_ok (Hardware.rotate_to_slot 12 Hardware.initial) /\
  ~ Hardware.slot_ok
      (Hardware.run [Hardware.Set_safe_mode false;
                     Hardware.Rotate_to_slot (-1)] Hardware.initial).
Proof.
  assert (E : Hardware._current_slot
                (Hardware.run [Hardware.Set_safe_mode false;
                               Hardware.Rotate_to_slot (-1)] Hardware.initial)
              = (-1)%Z) by (vm_compute; reflexivity).
  unfold Hardware.slot_ok, Hardware.TOTAL_SLOTS. rewrite E.
  change (Hardware._current_slot (Hardware.rotate_to_slot 12 Hardware.initial))
    with 12%Z.
  change (Hardware._current_slot Hardware.initial) with 0%Z.
  repeat split; lia.
Qed.

(** ** Dispensing *)

Section Dispense.

Lemma round_le_half (x : Q) : x < 1 # 2 -> (PyFloat.round x <= 0)%Z.
Proof.
  intros H. pose proof (round_near x) as Hn.
  apply Qabs_Qle_condition in Hn.
  assert (Hr : inject_Z (PyFloat.round x) < inject_Z 1).
  { change (inject_Z 1) with 1. lra. }
  rewrite <- Zlt_Qlt in Hr. lia.
Qed.

(** The hardware calls of one loop pass over an available ingredient that
    resolves to a slot. *)
Lemma dispense_slot_step (cfg : config) (it : string) (qty : Q) (idx : nat)
    (rest : list (string * Q)) (s : Z) :
  _avail it cfg = true -> _slot_for it cfg = Some s ->
  hw_calls (fst (dispense_loop cfg idx ((it, qty) :: rest)))
  = Hardware.Rotate_to_slot s
    :: Hardware.Press_actuator (PyFloat.round qty)
    :: hw_calls (fst (dispense_loop cfg (S idx) rest)).
Proof.
  intros Ha Hs. cbn [dispense_loop]. rewrite Ha, Hs. cbn [negb].
  destruct (dispense_loop cfg (S idx) rest) as [more fin].
  reflexivity.
Qed.

(** An item named in a slot is available and resolves to the first slot
    that holds it. *)
Lemma slot_item (cfg : config) (it : string) :
  In (Some (lower it)) (slots cfg) ->
  _avail it cfg = true /\
  _slot_for it cfg = Some (Z.of_nat (slots_index (lower it) (slots cfg))).
Proof.
  intros H. apply in_slots_In in H. unfold _avail, _slot_for.
  rewrite H. split; reflexivity.
Qed.

End Dispense.

(** C10.  For an available ingredient that resolves to slot [s], the loop
    rotates to [s] and presses [round(qty)] times, [qty] being the quantity in
    ounces whatever the shot size.  [round] is the nearest integer, an exact
    half going to the even one: 2.5 gives 2 and 3.5 gives 4.  Below 0.5 oz the
    count is not positive, so outside safe mode the actuator pin is never
    raised, and from 0 up to 0.5 oz the count is 0. *)
Theorem press_count_rounds_ounces_half_even (cfg : config) (it : string)
    (qty : Q) (idx : nat) (rest : list (string * Q)) (s : Z) :
  _avail it cfg = true -> _slot_for it cfg = Some s ->
  hw_calls (fst (dispense_loop cfg idx ((it, qty) :: rest)))
  = Hardware.Rotate_to_slot s
    :: Hardware.Press_actuator (PyFloat.round qty)
    :: hw_calls (fst (dispense_loop cfg (S idx) rest)) /\
  Qabs (inject_Z (PyFloat.round qty) - qty) <= 1 # 2 /\
  (Qabs (inject_Z (PyFloat.round qty) - qty) == 1 # 2 ->
   Z.even (PyFloat.round qty) = true) /\
  PyFloat.round (5 # 2) = 2%Z /\ PyFloat.round (7 # 2) = 4%Z /\
  (qty < 1 # 2 ->
   forall st, Hardware.SAFE_MODE st = false ->
     Hardware.high_writes (Hardware.ACTUATOR (Hardware._pin_map st))
       (Hardware.trace (Hardware.press_actuator (PyFloat.round qty) st))
     = Hardware.high_writes (Hardware.ACTUATOR (Hardware._pin_map st))
         (Hardware.trace st)) /\
  (0 <= qty -> qty < 1 # 2 -> PyFloat.round qty = 0%Z).
Proof.
  intros Ha Hs.
  split; [apply dispense_slot_step; assumption|].
  split; [apply round_near|]. split; [apply round_tie_even|].
  split; [reflexivity|]. split; [reflexivity|]. split.
  - intros Hq st Hst. pose proof (round_le_half qty Hq) as Hr.
    rewrite HardwareFacts.press_actuator_count by exact Hst. lia.
  - intros H0 Hq. pose proof (round_le_half qty Hq) as Hr.
    pose proof (round_ge_int 0 qty H0) as Hr'. lia.
Qed.

Lemma press_count_rounds_ounces_half_even_witness :
  _avail "gin" bar = true /\ _slot_for "gin" bar = Some 0%Z /\
  hw_calls (fst (dispense_loop bar 0 [("gin"%string, 5 # 2)]))
  = [Hardware.Rotate_to_slot 0; Hardware.Press_actuator 2].
Proof.
  split; [reflexivity|]. split; [reflexivity|].
  exact (proj1 (press_count_rounds_ounces_half_even
                  bar "gin" (5 # 2) 0 [] 0%Z eq_refl eq_refl)).
Defined.

(** C2 as amended.  With a shot of 1.5 oz and gin in a slot: normalising
    gin 2.0 and vermouth 0.5 gives 6.0 and 1.5; slot-aware rescaling leaves
    these unchanged; and the loop rotates to the first slot that holds gin and
    presses [round(6.0)] = 6 times, the quantity in ounces, which outside safe
    mode raises the actuator pin six times. *)
Theorem martini_presses_six (cfg : config) :
  shot_size cfg = 3 # 2 -> In (Some "gin"%string) (slots cfg) ->
  _scale gin_vermouth = Ok gin_vermouth_scaled /\
  scale_for_slots (martini gin_vermouth_scaled) cfg = Ok gin_vermouth_scaled /\
  nth_error (slots cfg) (slots_index "gin" (slots cfg))
  = Some (Some "gin"%string) /\
  hw_calls (fst (dispense_loop cfg 0
                   (parse_ingredients (martini gin_vermouth_scaled))))
  = Hardware.Rotate_to_slot (Z.of_nat (slots_index "gin" (slots cfg)))
    :: Hardware.Press_actuator 6
    :: hw_calls (fst (dispense_loop cfg 1 [("vermouth"%string, 3 # 2)])) /\
  (forall st, Hardware.SAFE_MODE st = false ->
     Hardware.high_writes (Hardware.ACTUATOR (Hardware._pin_map st))
       (Hardware.trace (Hardware.press_actuator 6 st))
     = (Hardware.high_writes (Hardware.ACTUATOR (Hardware._pin_map st))
          (Hardware.trace st) + 6)%nat).
Proof.
  intros Hshot Hgin.
  split; [reflexivity|]. split; [|split; [|split]].
  - pose proof (proj2 (in_slots_In _ _) Hgin) as Hg.
    unfold scale_for_slots. rewrite Hshot.
    cbv beta iota zeta delta
      [ingredients martini gin_vermouth_scaled List.filter item qty_oz
       List.map for_each].
    rewrite Hg.
    destruct (in_slots "vermouth" (slots cfg)); vm_compute; reflexivity.
  - apply slots_index_found. exact Hgin.
  - destruct (slot_item cfg "gin" Hgin) as [Ha Hs].
    exact (dispense_slot_step cfg "gin" 6 0 _ _ Ha Hs).
  - intros st Hst. apply HardwareFacts.press_actuator_count. exact Hst.
Qed.

Lemma martini_presses_six_witness :
  shot_size bar = 3 # 2 /\ In (Some "gin"%string) (slots bar) /\
  scale_for_slots (martini gin_vermouth_scaled) bar = Ok gin_vermouth_scaled /\
  hw_calls (fst (dispense_loop bar 0
                   (parse_ingredients (martini gin_vermouth_scaled))))
  = [Hardware.Rotate_to_slot 0; Hardware.Press_actuator 6].
Proof.
  assert (Hg : In (Some "gin"%string) (slots bar)) by (left; reflexivity).
  destruct (martini_presses_six bar eq_refl Hg) as (_ & Hs & _ & Hd & _).
  split; [reflexivity|]. split; [exact Hg|]. split; [exact Hs | exact Hd].
Defined.

(** C2 as stated fails: for the bar with gin in the first slot, making the
    normalised Martini rotates nowhere else and presses six times, not four. *)
Lemma martini_not_four_presses :
  _scale gin_vermouth = Ok gin_vermouth_scaled /\
  hw_calls (make_drink bar [martini gin_vermouth_scaled] "martini")
  = [Hardware.Set_pin_map (pins bar); Hardware.Set_safe_mode true;
     Hardware.Rotate_to_slot 0; Hardware.Press_actuator 6] /\
  ~ In (Hardware.Press_actuator 4)
      (hw_calls (make_drink bar [martini gin_vermouth_scaled] "martini")) /\
  Hardware.high_writes 26
    (Hardware.trace
       (Hardware.run
          (hw_calls (make_drink
                       {| shot_size := shot_size bar; slots := slots bar;
                          pantry := pantry bar;
                          substitutions := substitutions bar;
                          safe_mode := false; pins := pins bar |}
                       [martini gin_vermouth_scaled] "martini"))
          Hardware.initial))
  = 6%nat.
Proof.
  split; [reflexivity|]. split; [reflexivity|]. split.
  - change (hw_calls (make_drink bar [martini gin_vermouth_scaled] "martini"))
      with [Hardware.Set_pin_map (pins bar); Hardware.Set_safe_mode true;
            Hardware.Rotate_to_slot 0; Hardware.Press_actuator 6].
    intros H. repeat (destruct H as [H|H]; [discriminate H|]). exact H.
  - vm_compute. reflexivity.
Qed.

(** ** Worked examples *)

Example parse_mixed : Parse._qty_to_oz (Some "2 1/2 oz"%string) = Ok (5 # 2).
Proof. reflexivity. Qed.

Example parse_ml : Parse._qty_to_oz (Some "30 ml"%string) = Ok (101 # 100).
Proof. reflexivity. Qed.

Example parse_wedge : Parse._qty_to_oz (Some "1 wedge"%string) = Ok 0.
Proof. reflexivity. Qed.

Example parse_empty : Parse._qty_to_oz (Some ""%string) = Ok 0.
Proof. reflexivity. Qed.

Example parse_none : Parse._qty_to_oz None = Ok 0.
Proof. reflexivity. Qed.

Example parse_dashes : Parse._qty_to_oz (Some "2 dashes"%string) = Ok 0.
Proof. reflexivity. Qed.

Example parse_decimal_cl :
  Parse._qty_to_oz (Some " 4.5 cL "%string) = Ok (38 # 25).
Proof. reflexivity. Qed.

Example parse_no_number : Parse._qty_to_oz (Some "juice of 1"%string) = Ok 0.
Proof. reflexivity. Qed.

(** From slot 3, a real rotation to slot 1 goes forward over ten slots. *)
Example rotate_forward_only :
  let st := Hardware.run [Hardware.Rotate_to_slot 3;
                          Hardware.Set_safe_mode false] Hardware.initial in
  Hardware.high_writes 21
    (Hardware.trace (Hardware.rotate_to_slot 1 st))
  = Z.to_nat (10 * Hardware.STEPS_PER_SLOT).
Proof. vm_compute. reflexivity. Qed.

(** After [cleanup] the flag still says the hardware is initialised, while
    [set_pin_map] clears it. *)
Example set_pin_map_clears_ready :
  let st := Hardware.run [Hardware.Set_safe_mode false;
                          Hardware.Press_actuator 1] Hardware.initial in
  Hardware._gpio_ready (Hardware.set_pin_map [] st) = false
  /\ Hardware._gpio_ready (Hardware.cleanup st) = true.
Proof. split; reflexivity. Qed.

(** ** Agreement with binary64 on the concrete inputs

    The values used above are exact in binary64, and so are the results of
    the operations on them: IEEE arithmetic gives the same numbers as the
    exact arithmetic of the model. *)

Module Binary64.

Import Floats.
Local Open Scope float_scope.

(** [2.25 / 1.5 + 0.5] is exactly 2.0, whose floor times 1.5 is 3.0. *)
Example tie_argument : PrimFloat.eqb (2.25 / 1.5 + 0.5) 2 = true.
Proof. reflexivity. Qed.

Example tie_result : PrimFloat.eqb (2 * 1.5) 3 = true.
Proof. reflexivity. Qed.

(** The Martini: the factor [1.5 / 0.5] is 3.0 and the scaled quantities
    are 6.0 and 1.5; [6.0 / 1.5 + 0.5] is 4.5, whose floor times 1.5 is 6.0. *)
Example martini_factor : PrimFloat.eqb (1.5 / 0.5) 3 = true.
Proof. reflexivity. Qed.

Example martini_gin : PrimFloat.eqb (2 * (1.5 / 0.5)) 6 = true.
Proof. reflexivity. Qed.

Example martini_vermouth : PrimFloat.eqb (0.5 * (1.5 / 0.5)) 1.5 = true.
Proof. reflexivity. Qed.

Example martini_anchor : PrimFloat.eqb (6 / 1.5 + 0.5) 4.5 = true.
Proof. reflexivity. Qed.

End Binary64.

(** * Further properties of the code *)

(** ** The controller outside safe mode *)

Module HardwareMore.

Import Hardware.
Local Open Scope nat_scope.

Lemma high_writes_pulses (pin : Z) (n : nat) :
  high_writes pin (pulses pin n) = n.
Proof.
  induction n as [|n IH]; [reflexivity|].
  cbn [pulses]. rewrite HardwareFacts.high_writes_app, IH.
  unfold high_writes, step_pulse. cbn. rewrite Z.eqb_refl. reflexivity.
Qed.

Lemma ensure_keeps (st : state) :
  _current_slot (_ensure_gpio st) = _current_slot st /\
  SAFE_MODE (_ensure_gpio st) = SAFE_MODE st /\
  _pin_map (_ensure_gpio st) = _pin_map st.
Proof.
  unfold _ensure_gpio. destruct (_gpio_ready st || SAFE_MODE st);
    repeat split; reflexivity.
Qed.

Lemma ensure_ready (st : state) :
  SAFE_MODE st = false -> _gpio_ready (_ensure_gpio st) = true.
Proof.
  intros Hs. unfold _ensure_gpio. rewrite Hs, orb_false_r.
  destruct (_gpio_ready st) eqn:E; [exact E | reflexivity].
Qed.

Lemma setups_app (a b : list effect) :
  setups (a ++ b) = (setups a + setups b)%nat.
Proof. unfold setups. rewrite List.filter_app. apply List.length_app. Qed.

Lemma setups_pulses (pin : Z) (n : nat) : setups (pulses pin n) = 0%nat.
Proof.
  induction n as [|n IH]; [reflexivity|].
  cbn [pulses]. rewrite setups_app, IH. reflexivity.
Qed.

Lemma setups_presses (pin : Z) (r : Z) (n : nat) :
  forall i, setups (presses pin i n r) = 0%nat.
Proof.
  induction n as [|n IH]; intros i; [reflexivity|].
  cbn [presses]. rewrite setups_app, IH. reflexivity.
Qed.

Lemma ensure_budget (st : state) : budget (_ensure_gpio st) <= budget st.
Proof.
  unfold budget, _ensure_gpio.
  destruct (_gpio_ready st) eqn:Er; cbn [orb]; [rewrite Er; lia|].
  destruct (SAFE_MODE st); [rewrite Er; lia|].
  unfold set_ready, emit. cbn [trace _gpio_ready].
  rewrite setups_app. cbn. lia.
Qed.

Lemma exec_budget (c : call) (st : state) :
  keeps_pins c = true -> budget (exec c st) <= budget st.
Proof.
  intros Hc. destruct c as [m|b|s|n|]; try discriminate Hc; cbn [exec].
  - unfold budget, set_safe_mode, emit. cbn [trace _gpio_ready].
    rewrite setups_app. cbn. lia.
  - unfold rotate_to_slot. destruct (s =? _current_slot st)%Z; [lia|].
    destruct (SAFE_MODE st).
    + unfold budget, set_slot, emit. cbn [trace _gpio_ready].
      rewrite setups_app. cbn. lia.
    + pose proof (ensure_budget st) as Hb. revert Hb.
      generalize (_ensure_gpio st). intros st' Hb.
      unfold budget in *. unfold set_slot, emit. cbn [trace _gpio_ready].
      rewrite !setups_app.
      change (setups (Gpio (Gpio_output (DIR (_pin_map st')) HIGH)
                      :: pulses (STEP (_pin_map st'))
                           (Z.to_nat
                              ((s - _current_slot st') mod TOTAL_SLOTS
                               * STEPS_PER_SLOT))))
        with (setups (pulses (STEP (_pin_map st'))
                        (Z.to_nat
                           ((s - _current_slot st') mod TOTAL_SLOTS
                            * STEPS_PER_SLOT)))).
      rewrite setups_pulses. cbn. lia.
  - unfold press_actuator. destruct (SAFE_MODE st).
    + unfold budget, emit. cbn [trace _gpio_ready].
      rewrite setups_app. cbn. lia.
    + pose proof (ensure_budget st) as Hb. revert Hb.
      generalize (_ensure_gpio st). intros st' Hb.
      unfold budget in *. unfold emit. cbn [trace _gpio_ready].
      rewrite setups_app, setups_presses. lia.
  - unfold cleanup, budget. destruct (_gpio_ready st) eqn:Er; [|rewrite Er; lia].
    unfold emit. cbn [trace _gpio_ready]. rewrite Er, setups_app. cbn. lia.
Qed.

End HardwareMore.

(** X1.  Outside safe mode, with the direction and step signals on
    different pins, a rotation to another slot raises the step pin once per
    step of the forward distance [(slot - current) mod 12], 133 steps a slot,
    never fewer by going backwards; the hardware is initialised afterwards
    and the position is the target. *)
Theorem rotate_real_forward (slot : Z) (st : Hardware.state) :
  Hardware.SAFE_MODE st = false ->
  slot <> Hardware._current_slot st ->
  Hardware.DIR (Hardware._pin_map st) <> Hardware.STEP (Hardware._pin_map st) ->
  Hardware._current_slot (Hardware.rotate_to_slot slot st) = slot /\
  Hardware._gpio_ready (Hardware.rotate_to_slot slot st) = true /\
  (0 <= (slot - Hardware._current_slot st) mod 12 < 12)%Z /\
  Hardware.high_writes (Hardware.STEP (Hardware._pin_map st))
    (Hardware.trace (Hardware.rotate_to_slot slot st))
  = (Hardware.high_writes (Hardware.STEP (Hardware._pin_map st))
       (Hardware.trace st)
     + Z.to_nat ((slot - Hardware._current_slot st) mod 12 * 133))%nat.
Proof.
  intros Hs Hne Hpins. unfold Hardware.rotate_to_slot.
  apply Z.eqb_neq in Hne. rewrite Hne, Hs.
  destruct (HardwareMore.ensure_keeps st) as (Hc & _ & Hp).
  pose proof (HardwareMore.ensure_ready st Hs) as Hr.
  destruct (HardwareFacts.ensure_gpio_high
              (Hardware.STEP (Hardware._pin_map st)) st) as [Hh _].
  revert Hc Hp Hr Hh. generalize (Hardware._ensure_gpio st).
  intros st' Hc Hp Hr Hh. cbv zeta.
  unfold Hardware.set_slot, Hardware.emit.
  cbn [Hardware.trace Hardware._current_slot Hardware._gpio_ready
       Hardware._pin_map].
  split; [reflexivity|]. split; [exact Hr|].
  split; [apply Z.mod_pos_bound; lia|].
  rewrite !HardwareFacts.high_writes_app, Hh, Hp, Hc.
  change (Hardware.Gpio
            (Hardware.Gpio_output (Hardware.DIR (Hardware._pin_map st))
               Hardware.HIGH)
          :: Hardware.pulses (Hardware.STEP (Hardware._pin_map st))
               (Z.to_nat ((slot - Hardware._current_slot st)
                          mod Hardware.TOTAL_SLOTS * Hardware.STEPS_PER_SLOT)))
    with ([Hardware.Gpio
             (Hardware.Gpio_output (Hardware.DIR (Hardware._pin_map st))
                Hardware.HIGH)]
          ++ Hardware.pulses (Hardware.STEP (Hardware._pin_map st))
               (Z.to_nat ((slot - Hardware._current_slot st)
                          mod Hardware.TOTAL_SLOTS * Hardware.STEPS_PER_SLOT))).
  rewrite HardwareFacts.high_writes_app, HardwareMore.high_writes_pulses.
  unfold Hardware.high_writes at 2 3. cbn.
  apply Z.eqb_neq in Hpins. rewrite Hpins. cbn.
  change Hardware.TOTAL_SLOTS with 12%Z.
  change Hardware.STEPS_PER_SLOT with 133%Z. lia.
Qed.

Lemma rotate_real_forward_witness :
  let st := Hardware.run [Hardware.Rotate_to_slot 3;
                          Hardware.Set_safe_mode false] Hardware.initial in
  Hardware.SAFE_MODE st = false /\
  Hardware._current_slot (Hardware.rotate_to_slot 1 st) = 1%Z /\
  Hardware.high_writes 21 (Hardware.trace (Hardware.rotate_to_slot 1 st))
  = 1330%nat.
Proof.
  cbv zeta.
  set (st := Hardware.run [Hardware.Rotate_to_slot 3;
                           Hardware.Set_safe_mode false] Hardware.initial).
  assert (Hs : Hardware.SAFE_MODE st = false) by reflexivity.
  assert (Hn : 1%Z <> Hardware._current_slot st) by (cbn; lia).
  assert (Hp : Hardware.DIR (Hardware._pin_map st)
               <> Hardware.STEP (Hardware._pin_map st)) by (cbn; lia).
  destruct (rotate_real_forward 1 st Hs Hn Hp) as (H1 & _ & _ & H4).
  split; [exact Hs|]. split; [exact H1|]. exact H4.
Defined.

(** X2.  In either mode [rotate_to_slot] leaves the position at its target,
    and asking again for the same target changes nothing, also after safe
    mode was switched in between: a rotation simulated in safe mode counts as
    done once the hardware is live. *)
Theorem rotate_settles (slot : Z) (b : bool) (st : Hardware.state) :
  Hardware._current_slot (Hardware.rotate_to_slot slot st) = slot /\
  Hardware.rotate_to_slot slot (Hardware.rotate_to_slot slot st)
  = Hardware.rotate_to_slot slot st /\
  Hardware.trace
    (Hardware.rotate_to_slot slot
       (Hardware.set_safe_mode b (Hardware.rotate_to_slot slot st)))
  = Hardware.trace
      (Hardware.set_safe_mode b (Hardware.rotate_to_slot slot st)).
Proof.
  assert (H : Hardware._current_slot (Hardware.rotate_to_slot slot st) = slot).
  { unfold Hardware.rotate_to_slot.
    destruct (slot =? Hardware._current_slot st)%Z eqn:E.
    - apply Z.eqb_eq in E. symmetry. exact E.
    - destruct (Hardware.SAFE_MODE st); reflexivity. }
  split; [exact H|]. split.
  - unfold Hardware.rotate_to_slot at 1. rewrite H, Z.eqb_refl. reflexivity.
  - unfold Hardware.rotate_to_slot at 1.
    change (Hardware._current_slot
              (Hardware.set_safe_mode b (Hardware.rotate_to_slot slot st)))
      with (Hardware._current_slot (Hardware.rotate_to_slot slot st)).
    rewrite H, Z.eqb_refl. reflexivity.
Qed.

(** X3.  Over any sequence of calls that does not change the pin map, the
    backend is set up at most once, and not at all when it was already
    initialised. *)
Theorem initialised_at_most_once (cs : list Hardware.call)
    (st : Hardware.state) :
  forallb keeps_pins cs = true ->
  (setups (Hardware.trace (Hardware.run cs st))
   <= setups (Hardware.trace st)
      + (if Hardware._gpio_ready st then 0 else 1))%nat.
Proof.
  intros Hcs.
  assert (Hb : (budget (Hardware.run cs st)
                <= budget st)%nat).
  { revert st. induction cs as [|c cs IH]; intros st; [cbn; lia|].
    cbn in Hcs. apply andb_true_iff in Hcs as [Hc Hcs].
    change (Hardware.run (c :: cs) st)
      with (Hardware.run cs (Hardware.exec c st)).
    pose proof (IH Hcs (Hardware.exec c st)) as H1.
    pose proof (HardwareMore.exec_budget c st Hc) as H2. lia. }
  unfold budget in Hb.
  destruct (Hardware._gpio_ready (Hardware.run cs st)); lia.
Qed.

Lemma initialised_at_most_once_witness :
  forallb keeps_pins
    [Hardware.Set_safe_mode false; Hardware.Press_actuator 1;
     Hardware.Rotate_to_slot 2; Hardware.Cleanup; Hardware.Press_actuator 2]
  = true /\
  (setups
     (Hardware.trace
        (Hardware.run [Hardware.Set_safe_mode false; Hardware.Press_actuator 1;
                       Hardware.Rotate_to_slot 2; Hardware.Cleanup;
                       Hardware.Press_actuator 2] Hardware.initial))
   <= 1)%nat.
Proof.
  split; [reflexivity|].
  exact (initialised_at_most_once
           [Hardware.Set_safe_mode false; Hardware.Press_actuator 1;
            Hardware.Rotate_to_slot 2; Hardware.Cleanup;
            Hardware.Press_actuator 2] Hardware.initial eq_refl).
Defined.

(** ** The pin map *)

Section PinMap.

Import Hardware.

Lemma upper_ascii_idem (c : ascii) : upper_ascii (upper_ascii c) = upper_ascii c.
Proof. destruct c as [[] [] [] [] [] [] [] []]; reflexivity. Qed.

Lemma upper_idem (k : string) : upper (upper k) = upper k.
Proof.
  induction k as [|c k IH]; [reflexivity|].
  cbn [upper]. rewrite upper_ascii_idem, IH. reflexivity.
Qed.

Lemma truthy_upper (k : string) : truthy (upper k) = truthy k.
Proof. destruct k; reflexivity. Qed.

End PinMap.

(** X4.  [set_pin_map] always leaves the hardware marked as not
    initialised, and releases the backend when it was initialised, in safe
    mode too.  Outside safe mode the next press therefore sets the backend up
    again, with the pins of the updated map, before it presses on the updated
    actuator pin. *)
Theorem pin_change_reinitialises (m : list (string * Z)) (n : Z)
    (st : Hardware.state) :
  Hardware._gpio_ready (Hardware.set_pin_map m st) = false /\
  Hardware._pin_map (Hardware.set_pin_map m st)
  = Hardware.pin_update m (Hardware._pin_map st) /\
  Hardware.gpio_calls (Hardware.trace (Hardware.set_pin_map m st))
  = Hardware.gpio_calls (Hardware.trace st)
    ++ (if Hardware._gpio_ready st then [Hardware.Gpio_cleanup] else []) /\
  (Hardware.SAFE_MODE st = false ->
   Hardware.gpio_calls
     (Hardware.trace
        (Hardware.press_actuator n (Hardware.set_pin_map m st)))
   = Hardware.gpio_calls (Hardware.trace (Hardware.set_pin_map m st))
     ++ [Hardware.Gpio_setmode;
         Hardware.Gpio_setup
           (Hardware.pin_values
              (Hardware.pin_update m (Hardware._pin_map st)));
         Hardware.Gpio_output
           (Hardware.ENABLE (Hardware.pin_update m (Hardware._pin_map st)))
           Hardware.LOW]
     ++ Hardware.gpio_calls
          (Hardware.presses
             (Hardware.ACTUATOR
                (Hardware.pin_update m (Hardware._pin_map st)))
             0 (Z.to_nat n) n)).
Proof.
  assert (Hr : Hardware._gpio_ready (Hardware.set_pin_map m st) = false).
  { unfold Hardware.set_pin_map.
    destruct (Hardware._gpio_ready st) eqn:E; [reflexivity | exact E]. }
  assert (Hp : Hardware._pin_map (Hardware.set_pin_map m st)
               = Hardware.pin_update m (Hardware._pin_map st)).
  { unfold Hardware.set_pin_map.
    destruct (Hardware._gpio_ready st); reflexivity. }
  assert (Hsafe : Hardware.SAFE_MODE (Hardware.set_pin_map m st)
                  = Hardware.SAFE_MODE st).
  { unfold Hardware.set_pin_map.
    destruct (Hardware._gpio_ready st); reflexivity. }
  split; [exact Hr|]. split; [exact Hp|]. split.
  - unfold Hardware.set_pin_map.
    destruct (Hardware._gpio_ready st);
      unfold Hardware.emit, Hardware.set_ready; cbn [Hardware.trace];
      rewrite !HardwareFacts.gpio_calls_app; cbn;
      rewrite ?app_nil_r; reflexivity.
  - intros Hs. unfold Hardware.press_actuator, Hardware._ensure_gpio.
    rewrite Hsafe, Hs, Hr. cbn [orb].
    unfold Hardware.emit, Hardware.set_ready.
    cbn [Hardware.trace Hardware._pin_map].
    rewrite Hp, !HardwareFacts.gpio_calls_app, <- app_assoc. reflexivity.
Qed.

(** X5.  [set_pin_map] reads signal names without regard to case and
    ignores entries whose name is empty: upper-casing the names beforehand, or
    dropping the empty-named entries, gives the same pin map. *)
Theorem pin_names_case_insensitive (new_map : list (string * Z))
    (m : Hardware.pin_map) :
  Hardware.pin_update
    (List.map (fun p => (Hardware.upper (fst p), snd p)) new_map) m
  = Hardware.pin_update new_map m /\
  Hardware.pin_update
    (List.filter (fun p => truthy (fst p)) new_map) m
  = Hardware.pin_update new_map m.
Proof.
  split; revert m; induction new_map as [|[k v] l IH]; intros m;
    try reflexivity.
  - cbn [List.map Hardware.pin_update fst snd].
    rewrite truthy_upper, upper_idem. apply IH.
  - cbn [List.filter fst]. destruct (truthy k) eqn:E.
    + cbn [Hardware.pin_update]. rewrite E. apply IH.
    + cbn [Hardware.pin_update]. rewrite E. apply IH.
Qed.

(** ** Slot resolution *)

Section SlotFor.

Lemma slots_index_lt (x : string) (sl : list (option string)) :
  In (Some x) sl -> (slots_index x sl < List.length sl)%nat.
Proof.
  induction sl as [|[y|] sl IH]; simpl; intros H.
  - contradiction.
  - destruct (String.eqb x y) eqn:E; [lia|].
    destruct H as [H|H].
    + injection H as ->. rewrite String.eqb_refl in E. discriminate.
    + specialize (IH H). lia.
  - destruct H as [H|H]; [discriminate|]. specialize (IH H). lia.
Qed.

Lemma slots_index_first (x : string) (sl : list (option string)) :
  forall j, (j < slots_index x sl)%nat -> nth_error sl j <> Some (Some x).
Proof.
  induction sl as [|[y|] sl IH]; simpl; intros j Hj.
  - lia.
  - destruct (String.eqb x y) eqn:E; [lia|].
    destruct j as [|j]; simpl.
    + intros H. injection H as ->. rewrite String.eqb_refl in E. discriminate.
    + apply IH. lia.
  - destruct j as [|j]; simpl; [discriminate|]. apply IH. lia.
Qed.

End SlotFor.

(** X6.  When [_slot_for] returns a slot, the item is available, the index
    lies within the slot list, and that slot is the first one holding the
    lowercased item or, if the item is in no slot, its substitution. *)
Theorem slot_for_sound (cfg : config) (it : string) (s : Z) :
  _slot_for it cfg = Some s ->
  _avail it cfg = true /\
  (0 <= s < Z.of_nat (List.length (slots cfg)))%Z /\
  exists x : string,
    (x = lower it \/
     (~ In (Some (lower it)) (slots cfg) /\
      substitutions cfg !! lower it = Some x)) /\
    nth_error (slots cfg) (Z.to_nat s) = Some (Some x) /\
    (forall j, (j < Z.to_nat s)%nat ->
               nth_error (slots cfg) j <> Some (Some x)).
Proof.
  unfold _slot_for, _avail. cbv zeta.
  destruct (in_slots (lower it) (slots cfg)) eqn:Es.
  - intros H. injection H as <-. apply in_slots_In in Es.
    split; [reflexivity|]. split.
    + pose proof (slots_index_lt _ _ Es). lia.
    + exists (lower it). rewrite Nat2Z.id.
      split; [left; reflexivity|]. split.
      * apply slots_index_found. exact Es.
      * apply slots_index_first.
  - destruct (substitutions cfg !! lower it) as [sub|] eqn:E; [|discriminate].
    destruct (truthy sub) eqn:Et; [|discriminate]. cbn [andb].
    destruct (in_slots sub (slots cfg)) eqn:Ess; [|discriminate].
    intros H. injection H as <-.
    apply in_slots_In in Ess. apply in_slots_false in Es.
    split; [destruct (in_pantry (lower it) (pantry cfg)); reflexivity|]. split.
    + pose proof (slots_index_lt _ _ Ess). lia.
    + exists sub. rewrite Nat2Z.id. split; [right; auto|]. split.
      * apply slots_index_found. exact Ess.
      * apply slots_index_first.
Qed.

Lemma slot_for_sound_witness :
  _slot_for "Dry Gin" bar_subs = Some 0%Z /\
  _avail "Dry Gin" bar_subs = true /\
  (0 <= 0 < Z.of_nat (List.length (slots bar_subs)))%Z.
Proof.
  destruct (slot_for_sound bar_subs "Dry Gin" 0%Z eq_refl) as (Ha & Hr & _).
  split; [reflexivity|]. split; [exact Ha | exact Hr].
Defined.

(** ** The dispensing loop *)

Module DispenseMore.

Lemma hw_calls_app (a b : list action) :
  hw_calls (a ++ b) = hw_calls a ++ hw_calls b.
Proof. unfold hw_calls. apply flat_map_app. Qed.

(** One pass over an available ingredient. *)
Lemma loop_step (cfg : config) (idx : nat) (p : string * Q)
    (rest : list (string * Q)) :
  _avail (fst p) cfg = true ->
  snd (dispense_loop cfg idx (p :: rest))
  = snd (dispense_loop cfg (S idx) rest) /\
  hw_calls (fst (dispense_loop cfg idx (p :: rest)))
  = calls_for cfg p ++ hw_calls (fst (dispense_loop cfg (S idx) rest)).
Proof.
  destruct p as [it q]. cbn [fst snd]. intros Ha.
  cbn [dispense_loop]. rewrite Ha. cbn [negb]. unfold calls_for. cbn [fst snd].
  destruct (dispense_loop cfg (S idx) rest) as [more fin].
  destruct (_slot_for it cfg); split; reflexivity.
Qed.


Lemma calls_for_motion (cfg : config) (p : string * Q) :
  forallb Hardware.is_motion (calls_for cfg p) = true.
Proof. unfold calls_for. destruct (_slot_for (fst p) cfg); reflexivity. Qed.

(** Whatever the ingredients, the loop only rotates and presses. *)
Lemma loop_motion (cfg : config) (ings : list (string * Q)) :
  forall idx,
    forallb Hardware.is_motion (hw_calls (fst (dispense_loop cfg idx ings)))
    = true.
Proof.
  induction ings as [|p ings IH]; intros idx; [reflexivity|].
  destruct (_avail (fst p) cfg) eqn:Ha.
  - destruct (loop_step cfg idx p ings Ha) as [_ E]. rewrite E.
    rewrite forallb_app, calls_for_motion, IH. reflexivity.
  - destruct p as [it q]. cbn [fst] in Ha.
    cbn [dispense_loop]. rewrite Ha. reflexivity.
Qed.

Lemma run_app (a b : list Hardware.call) (st : Hardware.state) :
  Hardware.run (a ++ b) st = Hardware.run b (Hardware.run a st).
Proof. unfold Hardware.run. apply fold_left_app. Qed.

(** A run of motion calls in safe mode adds no backend call. *)
Lemma safe_run (cs : list Hardware.call) :
  forall st,
    Hardware.SAFE_MODE st = true ->
    forallb Hardware.is_motion cs = true ->
    Hardware.gpio_calls (Hardware.trace (Hardware.run cs st))
    = Hardware.gpio_calls (Hardware.trace st).
Proof.
  induction cs as [|c cs IH]; intros st Hs Hm; [reflexivity|].
  cbn [forallb] in Hm. apply andb_true_iff in Hm as [Hc Hm].
  destruct (HardwareFacts.safe_exec c st Hs Hc) as (Hs' & _ & msgs & Ht).
  change (Hardware.run (c :: cs) st)
    with (Hardware.run cs (Hardware.exec c st)).
  rewrite (IH _ Hs' Hm), Ht, HardwareFacts.gpio_calls_app,
    HardwareFacts.gpio_calls_prints.
  apply app_nil_r.
Qed.

(** A run of calls with targets in range keeps the position in range. *)
Lemma run_slot_ok (cs : list Hardware.call) :
  forall st,
    Hardware.slot_ok st -> Forall Hardware.target_ok cs ->
    Hardware.slot_ok (Hardware.run cs st).
Proof.
  induction cs as [|c cs IH]; intros st Hst Hcs; [exact Hst|].
  inversion Hcs as [|c' cs' Hc Hcs']; subst.
  apply (IH (Hardware.exec c st)); [|exact Hcs'].
  apply HardwareFacts.exec_slot_ok; assumption.
Qed.

End DispenseMore.



(** ** Making a drink *)

Module MakeDrinkMore.

Import DispenseMore.

(** The hardware calls of [make_drink]: the two settings, then what the
    loop does for the recipe found, if any. *)
Lemma make_drink_calls (cfg : config) (recipes : list recipe) (nm : string) :
  exists rest,
    hw_calls (make_drink cfg recipes nm)
    = Hardware.Set_pin_map (pins cfg)
      :: Hardware.Set_safe_mode (safe_mode cfg) :: rest /\
    (rest = [] \/
     exists drink,
       In drink recipes /\
       rest = hw_calls (fst (dispense_loop cfg 0 (parse_ingredients drink)))).
Proof.
  unfold make_drink.
  destruct (List.find (fun d => String.eqb (lower (name d)) (lower nm)) recipes)
    as [drink|] eqn:E.
  - apply find_some in E as [Hin _].
    exists (hw_calls (fst (dispense_loop cfg 0 (parse_ingredients drink)))).
    split; [|right; exists drink; auto].
    destruct (dispense_loop cfg 0 (parse_ingredients drink)) as [acts fin].
    cbn [fst]. destruct fin; [|reflexivity].
    change (hw_calls (Hw (Hardware.Set_pin_map (pins cfg))
                      :: Hw (Hardware.Set_safe_mode (safe_mode cfg))
                      :: acts ++ [Flash (Ready (name drink))]))
      with (Hardware.Set_pin_map (pins cfg)
            :: Hardware.Set_safe_mode (safe_mode cfg)
            :: hw_calls (acts ++ [Flash (Ready (name drink))])).
    rewrite hw_calls_app. cbn. rewrite app_nil_r. reflexivity.
  - exists []. split; [reflexivity | left; reflexivity].
Qed.

Lemma set_pin_map_gpio (m : list (string * Z)) (st : Hardware.state) :
  Hardware.gpio_calls (Hardware.trace (Hardware.set_pin_map m st))
  = Hardware.gpio_calls (Hardware.trace st)
    ++ (if Hardware._gpio_ready st then [Hardware.Gpio_cleanup] else []).
Proof.
  unfold Hardware.set_pin_map.
  destruct (Hardware._gpio_ready st);
    unfold Hardware.emit, Hardware.set_ready; cbn [Hardware.trace];
    rewrite !HardwareFacts.gpio_calls_app; cbn;
    rewrite ?app_nil_r; reflexivity.
Qed.

Lemma slot_for_range (cfg : config) (it : string) (s : Z) :
  _slot_for it cfg = Some s ->
  (0 <= s < Z.of_nat (List.length (slots cfg)))%Z.
Proof.
  unfold _slot_for. cbv zeta.
  destruct (in_slots (lower it) (slots cfg)) eqn:Es.
  - intros H. injection H as <-. apply in_slots_In in Es.
    pose proof (slots_index_lt _ _ Es). lia.
  - destruct (substitutions cfg !! lower it) as [sub|]; [|discriminate].
    destruct (truthy sub && in_slots sub (slots cfg)) eqn:E; [|discriminate].
    apply andb_true_iff in E as [_ E]. apply in_slots_In in E.
    intros H. injection H as <-.
    pose proof (slots_index_lt _ _ E). lia.
Qed.

Lemma loop_targets (cfg : config) (ings : list (string * Q)) :
  (List.length (slots cfg) <= 12)%nat ->
  forall idx,
    Forall Hardware.target_ok
      (hw_calls (fst (dispense_loop cfg idx ings))).
Proof.
  intros Hlen. induction ings as [|p ings IH]; intros idx; [constructor|].
  destruct (_avail (fst p) cfg) eqn:Ha.
  - destruct (loop_step cfg idx p ings Ha) as [_ E]. rewrite E.
    apply Forall_app. split; [|apply IH].
    unfold calls_for. destruct (_slot_for (fst p) cfg) as [s|] eqn:Es;
      [|constructor].
    apply slot_for_range in Es.
    repeat constructor; unfold Hardware.TOTAL_SLOTS; lia.
  - destruct p as [it q]. cbn [fst] in Ha.
    cbn [dispense_loop]. rewrite Ha. constructor.
Qed.

End MakeDrinkMore.



(** X9.  With safe mode set in the configuration, making any drink drives
    the backend at most through the release that [set_pin_map] performs when
    the hardware had been initialised before; on hardware that was not, no
    backend call is made at all. *)
Theorem make_drink_safe (cfg : config) (recipes : list recipe) (nm : string)
    (st : Hardware.state) :
  safe_mode cfg = true ->
  Hardware.gpio_calls
    (Hardware.trace (Hardware.run (hw_calls (make_drink cfg recipes nm)) st))
  = Hardware.gpio_calls (Hardware.trace st)
    ++ (if Hardware._gpio_ready st then [Hardware.Gpio_cleanup] else []).
Proof.
  intros Hs.
  destruct (MakeDrinkMore.make_drink_calls cfg recipes nm) as (rest & E & Hr).
  rewrite E, Hs.
  change (Hardware.run (Hardware.Set_pin_map (pins cfg)
                        :: Hardware.Set_safe_mode true :: rest) st)
    with (Hardware.run rest
            (Hardware.set_safe_mode true
               (Hardware.set_pin_map (pins cfg) st))).
  rewrite DispenseMore.safe_run.
  - unfold Hardware.set_safe_mode, Hardware.emit. cbn [Hardware.trace].
    rewrite HardwareFacts.gpio_calls_app. cbn. rewrite app_nil_r.
    apply MakeDrinkMore.set_pin_map_gpio.
  - reflexivity.
  - destruct Hr as [->|(drink & _ & ->)]; [reflexivity|].
    apply DispenseMore.loop_motion.
Qed.

Lemma make_drink_safe_witness :
  safe_mode bar = true /\
  Hardware.gpio_calls
    (Hardware.trace
       (Hardware.run
          (hw_calls (make_drink bar [martini gin_vermouth_scaled] "martini"))
          Hardware.initial))
  = [].
Proof.
  split; [reflexivity|].
  exact (make_drink_safe bar [martini gin_vermouth_scaled] "martini"
           Hardware.initial eq_refl).
Defined.

(** X10.  When the configuration has at most twelve slots, making any drink
    keeps a turret position that was within the twelve slots within them:
    every rotation target is an index into the slot list. *)
Theorem make_drink_keeps_range (cfg : config) (recipes : list recipe)
    (nm : string) (st : Hardware.state) :
  (List.length (slots cfg) <= 12)%nat ->
  Hardware.slot_ok st ->
  Hardware.slot_ok
    (Hardware.run (hw_calls (make_drink cfg recipes nm)) st).
Proof.
  intros Hlen Hst.
  destruct (MakeDrinkMore.make_drink_calls cfg recipes nm) as (rest & E & Hr).
  rewrite E. apply DispenseMore.run_slot_ok; [exact Hst|].
  constructor; [exact I|]. constructor; [exact I|].
  destruct Hr as [->|(drink & _ & ->)]; [constructor|].
  apply MakeDrinkMore.loop_targets. exact Hlen.
Qed.

Lemma make_drink_keeps_range_witness :
  (List.length (slots bar) <= 12)%nat /\
  Hardware.slot_ok Hardware.initial /\
  Hardware.slot_ok
    (Hardware.run
       (hw_calls (make_drink bar [martini gin_vermouth_scaled] "martini"))
       Hardware.initial).
Proof.
  assert (Hl : (List.length (slots bar) <= 12)%nat) by (cbn; lia).
  assert (H0 : Hardware.slot_ok Hardware.initial)
    by (unfold Hardware.slot_ok, Hardware.TOTAL_SLOTS; cbn; lia).
  split; [exact Hl|]. split; [exact H0|].
  exact (make_drink_keeps_range bar [martini gin_vermouth_scaled] "martini"
           Hardware.initial Hl H0).
Defined.

(** X11.  [api_rotate] refuses a slot number outside 1..12 without touching
    the hardware, and for a number within it leaves the turret at the
    zero-based slot; either way a position within the twelve slots stays
    within them. *)
Theorem api_rotate_guard (slot : Z) (cfg : config) (st : Hardware.state) :
  Hardware.slot_ok st ->
  Hardware.slot_ok (snd (api_rotate slot cfg st)) /\
  ((1 <= slot <= 12)%Z ->
   fst (api_rotate slot cfg st) = Status_ok /\
   Hardware._current_slot (snd (api_rotate slot cfg st)) = (slot - 1)%Z) /\
  (~ (1 <= slot <= 12)%Z ->
   api_rotate slot cfg st = (Status_error_range, st)).
Proof.
  intros Hst. unfold api_rotate.
  destruct ((1 <=? slot) && (slot <=? 12))%Z eqn:E; cbn [negb fst snd].
  - apply andb_true_iff in E as [E1 E2].
    apply Z.leb_le in E1, E2.
    assert (Hc : Hardware._current_slot
                   (Hardware.rotate_to_slot (slot - 1)
                      (Hardware.set_safe_mode (safe_mode cfg)
                         (Hardware.set_pin_map (pins cfg) st)))
                 = (slot - 1)%Z).
    { unfold Hardware.rotate_to_slot.
      destruct (slot - 1 =? _)%Z eqn:Eq.
      - apply Z.eqb_eq in Eq. symmetry. exact Eq.
      - destruct (Hardware.SAFE_MODE _); reflexivity. }
    split; [|split].
    + unfold Hardware.slot_ok, Hardware.TOTAL_SLOTS. rewrite Hc. lia.
    + intros _. split; [reflexivity | exact Hc].
    + intros H. exfalso. apply H. lia.
  - split; [exact Hst|]. split; [|reflexivity].
    intros [H1 H2]. apply Z.leb_le in H1, H2. rewrite H1, H2 in E.
    discriminate.
Qed.

Lemma api_rotate_guard_witness :
  Hardware.slot_ok Hardware.initial /\
  Hardware.slot_ok (snd (api_rotate 12 bar Hardware.initial)) /\
  api_rotate 13 bar Hardware.initial = (Status_error_range, Hardware.initial).
Proof.
  assert (H0 : Hardware.slot_ok Hardware.initial)
    by (unfold Hardware.slot_ok, Hardware.TOTAL_SLOTS; cbn; lia).
  destruct (api_rotate_guard 12 bar Hardware.initial H0) as (H1 & _).
  destruct (api_rotate_guard 13 bar Hardware.initial H0) as (_ & _ & H3).
  split; [exact H0|]. split; [exact H1|]. apply H3. lia.
Defined.

(** ** Menu and suggestions *)

Module MenuMore.



End MenuMore.


(** ** Normalising twice *)

Section ScaleMore.



End ScaleMore.


(** ** Measures *)

Section ParseMore.






End ParseMore.

(** X16.  On the floats of the program, whatever [_qty_to_oz] returns has no
    minus sign: it is nan, a zero, the infinity or a positive float.  When it
    is finite it is the float of [k / 100] for a whole [k >= 0], which
    denotes a number within a relative [2 ^ -53] of [k / 100]. *)
Theorem qty_to_oz_hundredths (raw : option string) (q : F64.float) :
  F64._qty_to_oz raw = Ok q ->
  F64.sign q = false /\
  (F64.finite q = true ->
   exists k : Z,
     (0 <= k)%Z /\ q = F64.hundredths false k /\
     ((k < 2 ^ 1029)%Z ->
      exists w : Q,
        F64.to_Q q = Some w /\
        Qabs (w - inject_Z k / 100) * inject_Z (2 ^ 53)
        <= inject_Z k / 100)).
Proof.
  intros H. destruct (F64Rounding.qty_to_oz_float raw q H) as [Hs Hq].
  split; [exact Hs|]. intros Hf.
  assert (Hk : exists k : Z, (0 <= k)%Z /\ q = F64.hundredths false k).
  { destruct Hq as [->|(x & -> & Hx)]; [exists 0%Z; split; [lia|reflexivity]|].
    destruct (F64Rounding.round2_sign x Hx) as [_ [[E N]|(k & Hk & E)]].
    - exfalso. rewrite E in Hf. unfold F64.finite in Hf. rewrite N in Hf.
      discriminate.
    - exists k. split; [exact Hk | exact E]. }
  destruct Hk as (k & Hk & ->). exists k.
  split; [exact Hk|]. split; [reflexivity|]. intros Hlt.
  destruct (F64Rounding.hundredths_value false k ltac:(lia)) as (w & Ew & Hw).
  exists w. split; [exact Ew|].
  rewrite (Qabs_pos (inject_Z k / 100)) in Hw; [exact Hw|].
  apply Qle_shift_div_l; [reflexivity|].
  change (0 * 100) with 0. change 0 with (inject_Z 0).
  rewrite <- Zle_Qle. exact Hk.
Qed.

Lemma qty_to_oz_hundredths_witness :
  F64._qty_to_oz (Some "30 ml"%string) = Ok (F64.of_ratio 101 100) /\
  F64.sign (F64.of_ratio 101 100) = false.
Proof.
  assert (H : F64._qty_to_oz (Some "30 ml"%string)
              = Ok (F64.of_ratio 101 100)) by (vm_compute; reflexivity).
  split; [exact H|].
  exact (proj1 (qty_to_oz_hundredths (Some "30 ml"%string) _ H)).
Defined.

(** ** Measures without a fraction *)

Section Slash.

Local Open Scope string_scope.

Lemma contains_slash_cons (c : ascii) (s : string) :
  Parse.contains "/" (String c s)
  = (Ascii.eqb c "/" || Parse.contains "/" s).
Proof.
  change (Parse.contains "/" (String c s))
    with (String.prefix "/" (String c s) || Parse.contains "/" s).
  f_equal.
  change (String.prefix "/" (String c s))
    with (if ascii_dec "/" c then String.prefix "" s else false).
  destruct (ascii_dec "/" c) as [<-|N].
  - destruct s; reflexivity.
  - symmetry. apply Ascii.eqb_neq. congruence.
Qed.

Lemma contains_slash_app (a b : string) :
  Parse.contains "/" (a ++ b)
  = (Parse.contains "/" a || Parse.contains "/" b).
Proof.
  induction a as [|c a IH]; [reflexivity|].
  change (String c a ++ b) with (String c (a ++ b)).
  rewrite !contains_slash_cons, IH, orb_assoc. reflexivity.
Qed.

Lemma span_app (p : ascii -> bool) (s : string) :
  s = fst (Parse.span p s) ++ snd (Parse.span p s).
Proof.
  induction s as [|c s IH]; [reflexivity|]. simpl.
  destruct (p c); [|reflexivity].
  destruct (Parse.span p s) as [a b]. simpl in *.
  exact (f_equal (String c) IH).
Qed.

Lemma digit_not_slash (c : ascii) :
  Parse.is_digit c = true -> Ascii.eqb c "/" = false.
Proof.
  intros H. destruct (Ascii.eqb_spec c "/") as [->|N]; [discriminate H|].
  reflexivity.
Qed.

Lemma span_digits_no_slash (s : string) :
  Parse.contains "/" (fst (Parse.span Parse.is_digit s)) = false.
Proof.
  induction s as [|c s IH]; [reflexivity|]. cbn [Parse.span].
  destruct (Parse.is_digit c) eqn:E; [|reflexivity].
  destruct (Parse.span Parse.is_digit s) as [a b]. cbn [fst] in *.
  rewrite contains_slash_cons, IH, (digit_not_slash c E). reflexivity.
Qed.

Lemma span_rest_no_slash (p : ascii -> bool) (s : string) :
  Parse.contains "/" s = false ->
  Parse.contains "/" (snd (Parse.span p s)) = false.
Proof.
  intros H. rewrite (span_app p s), contains_slash_app in H.
  apply orb_false_iff in H. apply H.
Qed.

Lemma lower_ascii_slash (c : ascii) :
  Ascii.eqb (lower_ascii c) "/" = Ascii.eqb c "/".
Proof. destruct c as [[] [] [] [] [] [] [] []]; reflexivity. Qed.

Lemma lower_slash (s : string) :
  Parse.contains "/" (lower s) = Parse.contains "/" s.
Proof.
  induction s as [|c s IH]; [reflexivity|].
  change (lower (String c s)) with (String (lower_ascii c) (lower s)).
  rewrite !contains_slash_cons, IH, lower_ascii_slash. reflexivity.
Qed.

Lemma lstrip_no_slash (s : string) :
  Parse.contains "/" s = false -> Parse.contains "/" (Parse.lstrip s) = false.
Proof.
  induction s as [|c s IH]; [reflexivity|]. intros H. cbn [Parse.lstrip].
  destruct (Parse.is_space c); [|exact H].
  apply IH. rewrite contains_slash_cons in H.
  apply orb_false_iff in H. apply H.
Qed.

Lemma rstrip_no_slash (s : string) :
  Parse.contains "/" s = false -> Parse.contains "/" (Parse.rstrip s) = false.
Proof.
  induction s as [|c s IH]; [reflexivity|]. intros H.
  rewrite contains_slash_cons in H. apply orb_false_iff in H as [Hc Hs].
  specialize (IH Hs). cbn [Parse.rstrip].
  destruct (Parse.rstrip s) as [|c' r].
  - destruct (Parse.is_space c); [reflexivity|].
    rewrite contains_slash_cons, Hc. reflexivity.
  - rewrite contains_slash_cons, Hc, IH. reflexivity.
Qed.

Lemma text_no_slash (raw : string) :
  Parse.contains "/" raw = false ->
  Parse.contains "/" (lower (Parse.strip raw)) = false.
Proof.
  intros H. rewrite lower_slash. unfold Parse.strip.
  apply rstrip_no_slash, lstrip_no_slash, H.
Qed.

(** Without a slash the mixed-fraction pattern does not match. *)
Lemma match_mixed_no_slash (s : string) :
  Parse.contains "/" s = false -> Parse.match_mixed s = None.
Proof.
  intros H. unfold Parse.match_mixed.
  pose proof (span_rest_no_slash Parse.is_digit s H) as H1.
  destruct (Parse.span Parse.is_digit s) as [whole r1]. cbn [snd] in H1.
  pose proof (span_rest_no_slash Parse.is_space r1 H1) as H2.
  destruct (Parse.span Parse.is_space r1) as [ws r2]. cbn [snd] in H2.
  destruct (truthy whole && truthy ws); [|reflexivity].
  destruct r2 as [|n [|c r3]]; try reflexivity.
  rewrite !contains_slash_cons in H2.
  apply orb_false_iff in H2 as [_ H2]. apply orb_false_iff in H2 as [Hc _].
  destruct (Ascii.eqb_spec c "/") as [->|N]; [discriminate Hc|].
  destruct c as [[] [] [] [] [] [] [] []]; try reflexivity.
  contradiction N. reflexivity.
Qed.

(** Without a slash in the text there is none in the number matched. *)
Lemma match_number_no_slash (s num r : string) :
  Parse.contains "/" s = false ->
  Parse.match_number s = Some (num, r) ->
  Parse.contains "/" num = false.
Proof.
  intros H. unfold Parse.match_number.
  pose proof (span_rest_no_slash Parse.is_digit s H) as H1.
  pose proof (span_digits_no_slash s) as Ha.
  destruct (Parse.span Parse.is_digit s) as [a r1]. cbn [fst snd] in H1, Ha.
  destruct (truthy a); [|discriminate].
  destruct r1 as [|c r2]; [intros [= <- <-]; exact Ha|].
  rewrite contains_slash_cons in H1. apply orb_false_iff in H1 as [Hc H2].
  destruct (Ascii.eqb_spec c "/") as [->|N]; [discriminate Hc|].
  destruct (Ascii.eqb_spec c ".") as [->|N'].
  - pose proof (span_digits_no_slash r2) as Hb.
    destruct (Parse.span Parse.is_digit r2) as [b r3]. cbn [fst] in Hb.
    destruct (truthy b); intros [= <- <-]; [|exact Ha].
    rewrite !contains_slash_app, Ha, Hb. reflexivity.
  - destruct c as [[] [] [] [] [] [] [] []];
      try (intros [= <- <-]; exact Ha);
      exfalso; (apply N; reflexivity) || (apply N'; reflexivity).
Qed.

(** Without a slash no division is reached. *)
Lemma qty_to_oz_no_slash (raw : string) :
  Parse.contains "/" raw = false ->
  exists q, Parse._qty_to_oz (Some raw) = Ok q.
Proof.
  intros H. apply text_no_slash in H. unfold Parse._qty_to_oz.
  destruct (negb (truthy raw)); [eexists; reflexivity|].
  set (txt := lower (Parse.strip raw)) in *.
  destruct (existsb (fun w => Parse.contains w txt) Parse.garnish_words);
    [eexists; reflexivity|].
  rewrite (match_mixed_no_slash txt H).
  unfold Parse.match_simple.
  destruct (Parse.match_number txt) as [[num r]|] eqn:En;
    [|eexists; reflexivity].
  destruct (Parse.span Parse.is_space r) as [ws r'].
  cbn -[Parse.contains Parse.float_of Parse.match_unit PyFloat.round2 String.eqb].
  rewrite (match_number_no_slash txt num r H En).
  eexists. reflexivity.
Qed.

End Slash.

(** X17.  [_qty_to_oz] raises only on a fraction: a measure without a
    slash always gets a quantity. *)
Theorem qty_to_oz_raises_only_on_slash (raw : string) :
  Parse.contains "/" raw = false ->
  exists q, Parse._qty_to_oz (Some raw) = Ok q.
Proof.
  exact (qty_to_oz_no_slash raw).
Qed.

Lemma qty_to_oz_raises_only_on_slash_witness :
  Parse.contains "/" "1.5 oz" = false /\
  exists q, Parse._qty_to_oz (Some "1.5 oz"%string) = Ok q.
Proof.
  assert (H : Parse.contains "/" "1.5 oz" = false) by reflexivity.
  split; [exact H|].
  exact (qty_to_oz_raises_only_on_slash "1.5 oz" H).
Defined.

(** ** Normalised names *)

Section NormMore.

Lemma lower_ascii_space (c : ascii) :
  Parse.is_space (lower_ascii c) = Parse.is_space c.
Proof. destruct c as [[] [] [] [] [] [] [] []]; reflexivity. Qed.

Lemma lower_ascii_idem (c : ascii) :
  lower_ascii (lower_ascii c) = lower_ascii c.
Proof. destruct c as [[] [] [] [] [] [] [] []]; reflexivity. Qed.

Lemma lower_idem (s : string) : lower (lower s) = lower s.
Proof.
  induction s as [|c s IH]; [reflexivity|].
  simpl. rewrite lower_ascii_idem, IH. reflexivity.
Qed.

Lemma lstrip_lower (s : string) :
  Parse.lstrip (lower s) = lower (Parse.lstrip s).
Proof.
  induction s as [|c s IH]; [reflexivity|].
  cbn [lower Parse.lstrip]. rewrite lower_ascii_space.
  destruct (Parse.is_space c); [exact IH | reflexivity].
Qed.

Lemma rstrip_lower (s : string) :
  Parse.rstrip (lower s) = lower (Parse.rstrip s).
Proof.
  induction s as [|c s IH]; [reflexivity|].
  cbn [lower Parse.rstrip]. rewrite IH, lower_ascii_space.
  destruct (Parse.rstrip s) as [|c' r]; cbn [lower].
  - destruct (Parse.is_space c); reflexivity.
  - reflexivity.
Qed.

Lemma strip_lower (s : string) :
  Parse.strip (lower s) = lower (Parse.strip s).
Proof. unfold Parse.strip. rewrite lstrip_lower, rstrip_lower. reflexivity. Qed.

Lemma rstrip_idem (s : string) :
  Parse.rstrip (Parse.rstrip s) = Parse.rstrip s.
Proof.
  induction s as [|c s IH]; [reflexivity|].
  cbn [Parse.rstrip]. destruct (Parse.rstrip s) as [|c' r] eqn:E.
  - destruct (Parse.is_space c) eqn:Ec; [reflexivity|].
    cbn [Parse.rstrip]. rewrite Ec. reflexivity.
  - change (Parse.rstrip (String c (String c' r)))
      with (match Parse.rstrip (String c' r) with
            | EmptyString =>
                if Parse.is_space c then EmptyString else String c EmptyString
            | r0 => String c r0
            end).
    rewrite IH. reflexivity.
Qed.

(** What [lstrip] returns does not start with a space. *)
Lemma lstrip_head (s : string) :
  match Parse.lstrip s with
  | EmptyString => True
  | String c _ => Parse.is_space c = false
  end.
Proof.
  induction s as [|c s IH]; [exact I|]. cbn [Parse.lstrip].
  destruct (Parse.is_space c) eqn:E; [exact IH | exact E].
Qed.

Lemma strip_idem (s : string) : Parse.strip (Parse.strip s) = Parse.strip s.
Proof.
  unfold Parse.strip. pose proof (lstrip_head s) as H.
  destruct (Parse.lstrip s) as [|c r]; [reflexivity|].
  assert (E : Parse.lstrip (Parse.rstrip (String c r))
              = Parse.rstrip (String c r)).
  { cbn [Parse.rstrip]. rewrite H.
    destruct (Parse.rstrip r); cbn [Parse.lstrip]; rewrite H; reflexivity. }
  rewrite E. apply rstrip_idem.
Qed.

Lemma truthy_lower (s : string) : truthy (lower s) = truthy s.
Proof. destruct s; reflexivity. Qed.

(** A normalised name is its own normal form. *)
Lemma norm_fixed (s : option string) (q : string) :
  _norm s = Some q -> _norm (Some q) = Some q.
Proof.
  destruct s as [s|]; [|discriminate]. unfold _norm.
  destruct (truthy (Parse.strip s)) eqn:E; [|discriminate].
  intros [= <-].
  rewrite strip_lower, strip_idem, truthy_lower, E, lower_idem. reflexivity.
Qed.

End NormMore.

(** X18.  [_norm] is idempotent, so the slots and the pantry that
    [load_config] returns are left as they are by normalising them again:
    a configuration saved after loading loads back unchanged. *)
Theorem load_config_stable (raw_slots : list (option string))
    (raw_pantry : list string) :
  (forall s, _norm (_norm s) = _norm s) /\
  norm_slots (norm_slots raw_slots) = norm_slots raw_slots /\
  norm_pantry (norm_pantry raw_pantry) = norm_pantry raw_pantry.
Proof.
  assert (N : forall s, _norm (_norm s) = _norm s).
  { intros s. destruct (_norm s) as [q|] eqn:E; [|reflexivity].
    exact (norm_fixed s q E). }
  split; [exact N|]. split.
  - unfold norm_slots. rewrite List.map_map. apply List.map_ext.
    intros s. apply N.
  - unfold norm_pantry. induction raw_pantry as [|p l IH]; [reflexivity|].
    cbn [flat_map]. rewrite flat_map_app, IH. f_equal.
    destruct (_norm (Some p)) as [q|] eqn:E; [|reflexivity].
    cbn [flat_map]. rewrite (norm_fixed _ _ E). reflexivity.
Qed.

(** ** Processing the catalogue *)

Module ProcessMore.


Lemma Forall2_items (P : ingredient -> ingredient -> Prop)
    (lst out : list ingredient) :
  Forall2 P lst out -> (forall d d', P d d' -> item d' = item d) ->
  List.map item out = List.map item lst.
Proof.
  intros H HP. induction H as [|d d' l l' Hd _ IH]; [reflexivity|].
  cbn [List.map]. rewrite (HP d d' Hd), IH. reflexivity.
Qed.






Lemma scale_total (lst : list ingredient) : exists out, _scale lst = Ok out.
Proof.
  unfold _scale.
  destruct (List.map qty_oz
              (List.filter (fun d => PyFloat.gtb (qty_oz d) 0) lst))
    as [|q qs] eqn:E; [eexists; reflexivity|].
  destruct (least_liquid lst q qs E) as (Hm & _).
  rewrite div_ok by lra. cbn. eexists. reflexivity.
Qed.

(** Without a fraction among the measures every entry is built. *)
Lemma raw_ings_no_slash (fields : list (option string * option string)) :
  (forall nm ms, In (nm, ms) fields ->
                 Parse.contains "/" (or_empty ms) = false) ->
  exists l, raw_ings fields = Ok l.
Proof.
  induction fields as [|[ing_name measure] rest IH]; intros H;
    [eexists; reflexivity|].
  destruct IH as [more Em].
  { intros nm ms Hin. apply (H nm ms). right. exact Hin. }
  cbn [raw_ings]. destruct ing_name as [s|]; [|exists more; exact Em].
  destruct (truthy s && truthy (Parse.strip s)); [|exists more; exact Em].
  destruct (qty_to_oz_no_slash (or_empty measure)) as [q Eq].
  { apply (H (Some s) measure). left. reflexivity. }
  cbv zeta. rewrite Eq, Em. cbn. eexists. reflexivity.
Qed.

Lemma for_each_all {A B : Type} (f : A -> res B) (l : list A) :
  (forall a, In a l -> exists b, f a = Ok b) ->
  exists bs, for_each f l = Ok bs.
Proof.
  induction l as [|a l IH]; intros H; [eexists; reflexivity|].
  destruct (H a) as [b Eb]; [left; reflexivity|].
  destruct IH as [bs Ebs]; [intros a' Ha'; apply H; right; exact Ha'|].
  cbn [for_each]. rewrite Eb, Ebs. cbn. eexists. reflexivity.
Qed.

Lemma for_each_each {A B : Type} (f : A -> res B) (l : list A) :
  forall bs, for_each f l = Ok bs -> Forall2 (fun a b => f a = Ok b) l bs.
Proof.
  induction l as [|a l IH]; intros bs.
  { intros [= <-]. constructor. }
  cbn [for_each]. destruct (f a) as [b|e] eqn:Eb; [|discriminate].
  cbn -[for_each]. destruct (for_each f l) as [bs'|e]; [|discriminate].
  cbn. intros [= <-]. constructor; [exact Eb | apply IH; reflexivity].
Qed.

(** A division by zero is all that these functions raise. *)
Lemma div_raises (a b : Q) (e : py_exn) :
  PyFloat.div a b = Raise e -> e = ZeroDivisionError.
Proof.
  unfold PyFloat.div. destruct (Qeq_bool b 0); [|discriminate].
  intros [= <-]. reflexivity.
Qed.

Lemma qty_to_oz_raises (raw : option string) (e : py_exn) :
  Parse._qty_to_oz raw = Raise e -> e = ZeroDivisionError.
Proof.
  unfold Parse._qty_to_oz. destruct raw as [raw|]; [|discriminate].
  destruct (negb (truthy raw)); [discriminate|].
  destruct (existsb _ Parse.garnish_words); [discriminate|].
  destruct (Parse.match_mixed _) as [[[whole num] den]|].
  - destruct (PyFloat.div _ _) as [f|e'] eqn:Ef; [discriminate|].
    cbn. intros [= <-]. exact (div_raises _ _ _ Ef).
  - destruct (Parse.match_simple _) as [[num_txt unit]|]; [|discriminate].
    destruct (Parse.contains "/" num_txt); [|discriminate].
    destruct (PyFloat.div _ _) as [f|e'] eqn:Ef; [discriminate|].
    cbn. intros [= <-]. exact (div_raises _ _ _ Ef).
Qed.

Lemma raw_ings_raises (fields : list (option string * option string))
    (e : py_exn) :
  raw_ings fields = Raise e -> e = ZeroDivisionError.
Proof.
  induction fields as [|[ing_name measure] rest IH]; [discriminate|].
  cbn [raw_ings]. destruct ing_name as [s|]; [|exact IH].
  destruct (truthy s && truthy (Parse.strip s)); [|exact IH].
  cbv zeta.
  destruct (Parse._qty_to_oz (Some (or_empty measure))) as [q|e'] eqn:Eq.
  - cbn -[raw_ings]. destruct (raw_ings rest) as [more|e'']; [discriminate|].
    cbn. intros [= <-]. apply IH. reflexivity.
  - cbn. intros [= <-]. exact (qty_to_oz_raises _ _ Eq).
Qed.

Lemma process_drink_raises (d : drink_json) (e : py_exn) :
  process_drink d = Raise e -> e = ZeroDivisionError.
Proof.
  unfold process_drink.
  destruct (raw_ings (numbered d)) as [l|e'] eqn:El.
  - cbn -[_scale]. destruct (scale_total l) as [out Eo]. rewrite Eo.
    discriminate.
  - cbn. intros [= <-]. exact (raw_ings_raises _ _ El).
Qed.

Lemma for_each_raise {A B : Type} (f : A -> res B) (l : list A) (a : A)
    (e : py_exn) :
  (forall a' e', f a' = Raise e' -> e' = e) ->
  In a l -> f a = Raise e -> for_each f l = Raise e.
Proof.
  intros Hf. induction l as [|a' l IH]; intros Hin Ha; [contradiction|].
  cbn [for_each]. destruct (f a') as [b|e'] eqn:Eb.
  - destruct Hin as [->|Hin]; [congruence|].
    cbn -[for_each]. rewrite (IH Hin Ha). reflexivity.
  - rewrite (Hf a' e' Eb). reflexivity.
Qed.


(** The entries of [raw_ings]: one per field whose name is not blank, in
    order, under its normalised name, with the quantity parsed from the
    measure of the field. *)
Lemma raw_ings_float (fields : list (option string * option string)) :
  forall l,
    F64.raw_ings fields = Ok l ->
    List.map F64.item l
    = flat_map (fun f => match _norm (fst f) with
                         | Some it => [it]
                         | None => []
                         end) fields /\
    Forall (fun i => _norm (Some (F64.item i)) = Some (F64.item i) /\
                     exists nm ms,
                       In (nm, ms) fields /\
                       F64._qty_to_oz (Some (or_empty ms))
                       = Ok (F64.qty_oz i))
           l.
Proof.
  induction fields as [|[ing_name measure] rest IH]; intros l.
  { intros [= <-]. split; [reflexivity | constructor]. }
  assert (Hweak : forall l',
            Forall (fun i => _norm (Some (F64.item i)) = Some (F64.item i) /\
                       exists nm ms,
                         In (nm, ms) rest /\
                         F64._qty_to_oz (Some (or_empty ms))
                         = Ok (F64.qty_oz i)) l' ->
            Forall (fun i => _norm (Some (F64.item i)) = Some (F64.item i) /\
                       exists nm ms,
                         In (nm, ms) ((ing_name, measure) :: rest) /\
                         F64._qty_to_oz (Some (or_empty ms))
                         = Ok (F64.qty_oz i)) l').
  { intros l' H. eapply List.Forall_impl; [|exact H].
    intros i (Hn & nm & ms & Hin & Hq). split; [exact Hn|].
    exists nm, ms. split; [right; exact Hin | exact Hq]. }
  cbn [F64.raw_ings flat_map fst]. destruct ing_name as [s|].
  2:{ intros H. destruct (IH l H) as [I1 I2]. split; [exact I1|].
      apply Hweak. exact I2. }
  cbn [_norm]. destruct (truthy (Parse.strip s)) eqn:Et.
  - assert (Es : truthy s = true).
    { destruct s; [discriminate Et | reflexivity]. }
    rewrite Es. cbn [andb].
    destruct (F64._qty_to_oz (Some (or_empty measure))) as [q|e] eqn:Eq;
      [|discriminate].
    destruct (F64.raw_ings rest) as [more|e]; [|discriminate].
    cbn. intros [= <-]. destruct (IH more eq_refl) as [I1 I2].
    split; [cbn [List.map F64.item]; rewrite I1; reflexivity|].
    constructor; [|apply Hweak; exact I2]. cbn [F64.item F64.qty_oz]. split.
    + apply (norm_fixed (Some s)). cbn [_norm]. rewrite Et. reflexivity.
    + exists (Some s), measure. split; [left; reflexivity | exact Eq].
  - rewrite andb_false_r. intros H. destruct (IH l H) as [I1 I2].
    split; [exact I1 | apply Hweak; exact I2].
Qed.

Lemma process_drink_float (d : drink_json) (r : F64.recipe) :
  F64.process_drink d = Ok r ->
  exists lst,
    F64.raw_ings (numbered d) = Ok lst /\
    F64._scale lst = Ok (F64.ingredients r) /\
    F64.id r = idDrink d /\ F64.name r = strDrink d.
Proof.
  unfold F64.process_drink.
  destruct (F64.raw_ings (numbered d)) as [lst|e]; [|discriminate].
  cbn -[F64._scale].
  destruct (F64._scale lst) as [out|e] eqn:Es; [|discriminate].
  cbn. intros [= <-]. exists lst. repeat split. exact Es.
Qed.

End ProcessMore.

(** X19.  On the floats of the program, when every positive quantity
    parsed from the measures of a drink is between [1 / 128] and [2 ^ 1000],
    the recipe that [_download_all] makes of it keeps the id and the name of
    the drink; it has one ingredient for each numbered field whose name is
    not blank, in order, under its normalised name; every name is in normal
    form; no quantity has a minus sign; every positive quantity is the float
    of [k / 100] for a whole [k >= 150] and is not below 1.5; and either no
    quantity is positive or one is exactly 1.5. *)
Theorem processed_recipe_normalised (d : drink_json) (r : F64.recipe) :
  F64.process_drink d = Ok r ->
  (forall nm ms q,
     In (nm, ms) (numbered d) ->
     F64._qty_to_oz (Some (or_empty ms)) = Ok q ->
     F64.gtb q F64.zero = true -> F64.sane q = true) ->
  F64.id r = idDrink d /\ F64.name r = strDrink d /\
  List.map F64.item (F64.ingredients r)
  = flat_map (fun f => match _norm (fst f) with
                       | Some it => [it]
                       | None => []
                       end) (numbered d) /\
  Forall (fun i => _norm (Some (F64.item i)) = Some (F64.item i) /\
                   F64.sign (F64.qty_oz i) = false /\
                   (F64.liquid i = true ->
                    (exists k : Z,
                       (150 <= k)%Z /\
                       F64.qty_oz i = F64.hundredths false k) /\
                    F64.ltb (F64.qty_oz i) F64.reference = false))
         (F64.ingredients r) /\
  (Forall (fun i => F64.liquid i = false) (F64.ingredients r) \/
   Exists (fun i => F64.qty_oz i = F64.reference) (F64.ingredients r)).
Proof.
  intros H Hs.
  destruct (ProcessMore.process_drink_float d r H) as (lst & Er & Es & Hid & Hnm).
  destruct (ProcessMore.raw_ings_float _ _ Er) as [Hitems Hraw].
  split; [exact Hid|]. split; [exact Hnm|].
  assert (Hparsed : forall i, In i lst ->
            _norm (Some (F64.item i)) = Some (F64.item i) /\
            F64.sign (F64.qty_oz i) = false /\
            (F64.liquid i = true -> F64.sane (F64.qty_oz i) = true)).
  { intros i Hi.
    destruct (proj1 (List.Forall_forall _ _) Hraw i Hi)
      as (Hn & nm & ms & Hin & Hq).
    split; [exact Hn|]. split.
    - exact (proj1 (F64Rounding.qty_to_oz_float _ _ Hq)).
    - intros Hl. exact (Hs nm ms _ Hin Hq Hl). }
  destruct (F64Rounding.liquid_or_not lst) as [Hex|Hno].
  - (* some quantity is positive *)
    destruct (F64Rounding.scale_liquids lst Hex)
      as (m & factor & (dm & Hdm & Hlm & Hqm) & Hleast & Hdiv & Hscale).
    rewrite Hscale in Es. injection Es as Es.
    destruct (F64Rounding.scale_sane lst m factor dm Hdm Hlm Hqm Hleast Hdiv
                (fun i Hi => proj2 (proj2 (Hparsed i Hi))))
      as (vm & _ & Hout & Hmin & Hnb).
    rewrite Es in Hout, Hmin, Hnb.
    split; [|split].
    + rewrite <- Hitems.
      clear -Hout. induction Hout as [|a b l l' Hab _ IH]; [reflexivity|].
      cbn [List.map]. rewrite IH. f_equal. apply Hab.
    + apply List.Forall_forall. intros i Hi.
      assert (Hi' : exists a, In a lst /\ F64.normalized_to m vm a i).
      { clear -Hout Hi. induction Hout as [|a b l l' Hab _ IH]; [contradiction|].
        destruct Hi as [<-|Hi].
        - exists a. split; [left; reflexivity | exact Hab].
        - destruct (IH Hi) as (a' & Ha' & Hn).
          exists a'. split; [right; exact Ha' | exact Hn]. }
      destruct Hi' as (a & Ha & Hit & _ & Hkeep & Hliq).
      destruct (Hparsed a Ha) as (Hn & Hsg & _).
      split; [rewrite Hit; exact Hn|].
      destruct (F64.liquid a) eqn:Hl.
      * destruct (Hliq eq_refl)
          as (vq & k & w & _ & Eq & Hk & _ & _ & _ & _ & Hge & _).
        split.
        { rewrite Eq. destruct k as [|p|p]; [lia| |lia].
          cbn [F64.hundredths]. apply F64Rounding.of_ratio_sign. lia. }
        intros _. split; [exists k; split; [exact Hk | exact Eq]|].
        exact Hge.
      * rewrite (Hkeep eq_refl). split; [exact Hsg|].
        intros C. rewrite Hl in C. discriminate.
    + right. apply List.Exists_exists. exact Hmin.
  - (* no quantity is positive *)
    rewrite (F64Rounding.scale_no_liquid lst Hno) in Es. injection Es as <-.
    split; [exact Hitems|]. split.
    + apply List.Forall_forall. intros i Hi.
      destruct (Hparsed i Hi) as (Hn & Hsg & _).
      split; [exact Hn|]. split; [exact Hsg|].
      intros C. rewrite (Hno i Hi) in C. discriminate.
    + left. apply List.Forall_forall. exact Hno.
Qed.

Lemma processed_recipe_normalised_witness :
  F64.process_drink martini_json = Ok martini_float /\
  (forall nm ms q,
     In (nm, ms) (numbered martini_json) ->
     F64._qty_to_oz (Some (or_empty ms)) = Ok q ->
     F64.gtb q F64.zero = true -> F64.sane q = true) /\
  (Forall (fun i => F64.liquid i = false) (F64.ingredients martini_float) \/
   Exists (fun i => F64.qty_oz i = F64.reference)
          (F64.ingredients martini_float)).
Proof.
  assert (H : F64.process_drink martini_json = Ok martini_float)
    by (vm_compute; reflexivity).
  assert (Hs : forall nm ms q,
             In (nm, ms) (numbered martini_json) ->
             F64._qty_to_oz (Some (or_empty ms)) = Ok q ->
             F64.gtb q F64.zero = true -> F64.sane q = true).
  { intros nm ms q Hin Hq Hg.
    destruct Hin as [E|[E|[E|[E|[E|[]]]]]]; injection E as <- <-;
      vm_compute in Hq; injection Hq as <-;
      first [discriminate Hg | vm_compute; reflexivity]. }
  split; [exact H|]. split; [exact Hs|].
  exact (proj2 (proj2 (proj2 (proj2
           (processed_recipe_normalised martini_json martini_float H Hs))))).
Defined.

(** X20.  The catalogue is processed as a whole or not at all: when no
    measure holds a slash every drink is processed; when the list is
    returned each drink was processed to the recipe at its place; and one
    drink whose processing raises makes the whole processing raise. *)
Theorem process_all_or_nothing (drinks_json : list drink_json) :
  ((forall d nm ms,
      In d drinks_json -> In (nm, ms) (numbered d) ->
      Parse.contains "/" (or_empty ms) = false) ->
   exists rs, process_all drinks_json = Ok rs) /\
  (forall rs,
     process_all drinks_json = Ok rs ->
     Forall2 (fun d r => process_drink d = Ok r) drinks_json rs) /\
  ((exists d, In d drinks_json /\ process_drink d = Raise ZeroDivisionError) ->
   process_all drinks_json = Raise ZeroDivisionError).
Proof.
  unfold process_all. split; [|split].
  - intros H. apply ProcessMore.for_each_all. intros d Hd.
    unfold process_drink.
    destruct (ProcessMore.raw_ings_no_slash (numbered d)) as [l El].
    { intros nm ms Hin. exact (H d nm ms Hd Hin). }
    rewrite El. cbn -[_scale].
    destruct (ProcessMore.scale_total l) as [out Eo]. rewrite Eo. cbn.
    eexists. reflexivity.
  - apply ProcessMore.for_each_each.
  - intros (d & Hd & Hr).
    exact (ProcessMore.for_each_raise _ _ d _
             ProcessMore.process_drink_raises Hd Hr).
Qed.



(** ** Saving the configuration *)

Section ConfigureMore.

(** A normalised name is not empty and is in lower case. *)
Lemma norm_some (x : option string) (q : string) :
  _norm x = Some q -> truthy q = true /\ lower q = q.
Proof.
  destruct x as [s|]; [|discriminate]. unfold _norm.
  destruct (truthy (Parse.strip s)) eqn:E; [|discriminate].
  intros [= <-]. rewrite truthy_lower, lower_idem. auto.
Qed.

End ConfigureMore.

(** X22.  Whatever the form holds, the configuration that [configure]
    saves has exactly twelve slots, no empty name in a slot or in the pantry,
    a shot size of at least 0.5, slots and pantry that normalising again
    leaves as they are, substitutions whose names are non-empty and in lower
    case, and the pins it had. *)
Theorem configure_saves_sound_config (float : string -> option Q)
    (form : string -> option string) (cfg : config) :
  List.length (slots (configure_post float form cfg)) = 12%nat /\
  names_nonempty (configure_post float form cfg) /\
  1 # 2 <= shot_size (configure_post float form cfg) /\
  norm_slots (slots (configure_post float form cfg))
  = slots (configure_post float form cfg) /\
  norm_pantry (pantry (configure_post float form cfg))
  = pantry (configure_post float form cfg) /\
  (forall k v,
     substitutions (configure_post float form cfg) !! k = Some v ->
     truthy k = true /\ truthy v = true /\ lower k = k /\ lower v = v) /\
  pins (configure_post float form cfg) = pins cfg.
Proof.
  set (cfg' := configure_post float form cfg). split; [reflexivity|].
  split.
  { apply (load_config_names cfg' (List.map form slot_fields)
             (split_comma (or_empty (form "pantry"%string)))).
    - unfold norm_slots. rewrite List.map_map. reflexivity.
    - reflexivity. }
  split.
  { unfold cfg', configure_post. cbn [shot_size].
    destruct (float _) as [x|]; [|discriminate].
    cbn [PyFloat.max_from]. destruct (PyFloat.gtb x (1 # 2)) eqn:E.
    - apply gtb_gt in E. lra.
    - apply Qle_refl. }
  split.
  { unfold cfg', configure_post. cbn [slots]. unfold norm_slots.
    rewrite List.map_map. apply List.map_ext. intros f.
    destruct (_norm (form f)) as [q|] eqn:E; [|reflexivity].
    exact (norm_fixed _ _ E). }
  split.
  { unfold cfg', configure_post. cbn [pantry].
    generalize (split_comma (or_empty (form "pantry"%string))) as l.
    unfold norm_pantry. induction l as [|p l IH]; [reflexivity|].
    cbn [flat_map]. rewrite flat_map_app, IH. f_equal.
    destruct (_norm (Some p)) as [q|] eqn:E; [|reflexivity].
    cbn [flat_map]. rewrite (norm_fixed _ _ E). reflexivity. }
  split; [|reflexivity].
  unfold cfg', configure_post. cbn [substitutions].
  generalize sub_fields as fields.
  assert (H0 : forall k v, (∅ : gmap string string) !! k = Some v ->
                 truthy k = true /\ truthy v = true /\
                 lower k = k /\ lower v = v).
  { intros k v H. rewrite lookup_empty in H. discriminate. }
  revert H0. generalize (∅ : gmap string string) as m.
  intros m H0 fields. revert m H0.
  induction fields as [|kv fields IH]; intros m H0; [exact H0|].
  cbn [fold_left]. apply IH.
  destruct (_norm (form (fst kv))) as [k'|] eqn:Ek; [|exact H0].
  destruct (_norm (form (snd kv))) as [v'|] eqn:Ev; [|exact H0].
  destruct (named (Some k') && named (Some v')); [|exact H0].
  intros k v H. apply lookup_insert_Some in H as [[<- <-]|[_ H]].
  - destruct (norm_some _ _ Ek) as [? ?]. destruct (norm_some _ _ Ev) as [? ?].
    auto.
  - exact (H0 k v H).
Qed.
